(** * ConnectionToCore: a shallow embedding of the RPC connection controller

    The controller ([ConnectionToCore]) multiplexes requests over one
    transport.  Its methods are [async] functions: each one is embedded as
    the sequence of its synchronous segments, one per [await], and a
    scheduler ([step]) resumes suspended activations.  Calls on the
    collaborators (transport, hooks, event emitter, pending table) are
    recorded in an effect log; the logger is left out. *)

From stdpp Require Import base option list strings gmap pretty.
From Stdlib Require Import ZArith Lia.

Open Scope Z_scope.

(** ** Values, errors and frames *)

(** Opaque JavaScript values carried in payloads. *)
Inductive JsValue :=
| JUndefined
| JNull
| JBool (b : bool)
| JNum (z : Z)
| JStr (s : string).

#[global] Instance JsValue_eq_dec : EqDecision JsValue.
Proof. solve_decision. Defined.

(** A JavaScript [Error] object, with the properties the controller reads.
    [err_message = None] stands for a message text that this source does not
    fix (a class default, or the engine's text of a [TypeError]).
    [err_canceled] is [error instanceof CanceledPromiseError].
    [err_isDisconnecting] is the own property [isDisconnecting]; [None] when
    the object has no such property. *)
Record Error := mkError {
  err_name : string;
  err_message : option string;
  err_canceled : bool;
  err_host : option string;
  err_isDisconnecting : option JsValue;
}.

#[global] Instance Error_eq_dec : EqDecision Error.
Proof. solve_decision. Defined.

(** Modelled from the spec: [DisconnectedError] (../errors/DisconnectedError
    is not part of this source).  It is the disconnected-kind error, keyed on
    the transport host, and a cancellation-kind error: it is what
    [PendingMessages.cancel] delivers and what [sendRequest] swallows. *)
Definition DisconnectedError (host : string) (message : option string)
  : Error :=
  {| err_name := "DisconnectedError"; err_message := message;
     err_canceled := true; err_host := Some host;
     err_isDisconnecting := None |}.

(** [SessionClosedOrMissingError.name]: the name of the imported class. *)
Definition SessionClosedOrMissingError_name : string :=
  "SessionClosedOrMissingError".

(** The error of dereferencing [null], e.g. [this.connectPromise.isResolved]
    after [disconnect] has cleared [connectPromise]. *)
Definition TypeError : Error :=
  {| err_name := "TypeError"; err_message := None; err_canceled := false;
     err_host := None; err_isDisconnecting := None |}.

(** Modelled from the spec: the timeout-kind error of a pending entry whose
    timer fired (PendingMessages is not part of this source). *)
Definition TimeoutError : Error :=
  {| err_name := "TimeoutError"; err_message := None; err_canceled := false;
     err_host := None; err_isDisconnecting := None |}.

(** A disconnected-kind error naming [host]. *)
Definition disconnected_kind (host : string) (e : Error) : Prop :=
  err_name e = "DisconnectedError" /\ err_host e = Some host.

(** [delete error.isDisconnecting] *)
Definition scrub (e : Error) : Error :=
  {| err_name := err_name e; err_message := err_message e;
     err_canceled := err_canceled e; err_host := err_host e;
     err_isDisconnecting := None |}.

(** [message.data]: either an [Error] instance or any other value. *)
Inductive Data :=
| DVal (v : JsValue)
| DErr (e : Error).

(** What an awaited promise settles with. *)
Inductive Result :=
| Ok (v : JsValue)
| Err (e : Error).

#[global] Instance Result_eq_dec : EqDecision Result.
Proof. solve_decision. Defined.

(** The argument of [sendRequest]. *)
Record Payload := mkPayload {
  command : string;
  args : JsValue;
  commandId : option Z;
  startTime : option Z;
}.

(** The frame handed to [transport.send]. *)
Record RequestFrame := mkRequestFrame {
  req_payload : Payload;
  messageId : string;
  sendTime : Z;
}.

(** An inbound frame.  A key that is absent from the object is [None]:
    ['responseId' in payload] is [is_Some (responseId payload)]. *)
Record Frame := mkFrame {
  responseId : option string;
  data : Data;
  listenerId : option string;
  eventType : option string;
}.

(** ** Resolvable *)

(** Modelled from the spec: the promise with an external resolver
    ([Resolvable], not part of this source) is a set-once completion slot. *)
Inductive Settlement :=
| Pending
| Fulfilled
| Rejected (e : Error).

Definition isResolved (p : Settlement) : bool :=
  match p with Pending => false | _ => true end.

Definition resolve (p : Settlement) : Settlement :=
  match p with Pending => Fulfilled | _ => p end.

Definition reject (e : Error) (p : Settlement) : Settlement :=
  match p with Pending => Rejected e | _ => p end.

(** ** PendingMessages *)

Record PendingEntry := mkPendingEntry {
  pe_timeout : option Z;
  pe_internal : bool;
}.

(** Modelled from the spec: the table of outstanding requests
    (./PendingMessages is not part of this source).  [entries] is the table
    keyed by message id, [lastId] the monotonic id counter, and [settled]
    what each entry's promise was completed with (set once). *)
Record PendingMessages := mkPendingMessages {
  lastId : N;
  entries : gmap string PendingEntry;
  settled : gmap string Result;
}.

Module Pending.

Definition empty : PendingMessages :=
  {| lastId := 0%N; entries := ∅; settled := ∅ |}.

(** A completion is delivered at most once per entry. *)
Definition settle (id : string) (r : Result) (s : gmap string Result)
  : gmap string Result :=
  match s !! id with Some _ => s | None => <[id := r]> s end.

(** [create(timeoutMs?, isInternal) -> (id, promise)]: a fresh id and a new
    entry; a timer is kept only for a supplied, positive [timeoutMs]. *)
Definition create (timeoutMs : option Z) (isInternal : bool)
    (pm : PendingMessages) : string * PendingMessages :=
  let n := N.succ (lastId pm) in
  let id := pretty n in
  let timer := match timeoutMs with
               | Some t => if 0 <? t then Some t else None
               | None => None
               end in
  (id, {| lastId := n;
          entries := <[id := mkPendingEntry timer isInternal]> (entries pm);
          settled := settled pm |}).

(** [resolve(id, data)]: fulfil and remove the entry if it exists, else
    nothing. *)
Definition resolve (id : string) (v : JsValue) (pm : PendingMessages)
  : PendingMessages :=
  match entries pm !! id with
  | Some _ => {| lastId := lastId pm; entries := delete id (entries pm);
                 settled := settle id (Ok v) (settled pm) |}
  | None => pm
  end.

(** [reject(id, error)]: symmetric to [resolve]. *)
Definition reject (id : string) (e : Error) (pm : PendingMessages)
  : PendingMessages :=
  match entries pm !! id with
  | Some _ => {| lastId := lastId pm; entries := delete id (entries pm);
                 settled := settle id (Err e) (settled pm) |}
  | None => pm
  end.

(** [delete(id)]: remove the entry without completing it. *)
Definition delete (id : string) (pm : PendingMessages) : PendingMessages :=
  {| lastId := lastId pm; entries := base.delete id (entries pm);
     settled := settled pm |}.

(** [cancel(error)]: fail every entry that is not internal with [error] and
    remove it from the table; the entries created as internal are exempt
    from the mass cancel and stay as they are. *)
Definition cancel (e : Error) (pm : PendingMessages) : PendingMessages :=
  {| lastId := lastId pm;
     entries := omap (λ pe, if pe_internal pe then Some pe else None)
                  (entries pm);
     settled := settled pm
                ∪ omap (λ pe, if pe_internal pe then None else Some (Err e))
                    (entries pm) |}.

(** The timer of entry [id] fires: if the entry is still there and has a
    timer, it is rejected with a timeout-kind error and removed. *)
Definition timeout (id : string) (pm : PendingMessages) : PendingMessages :=
  match entries pm !! id with
  | Some {| pe_timeout := Some _ |} => reject id TimeoutError pm
  | _ => pm
  end.

End Pending.

(** ** Controller state *)

(** The [ITransport] capability as the controller sees it: [hasConnect] and
    [hasDisconnect] say whether the optional operations exist. *)
Record Transport := mkTransport {
  host : string;
  isConnected : bool;
  hasConnect : bool;
  hasDisconnect : bool;
}.

Definition set_isConnected (b : bool) (t : Transport) : Transport :=
  {| host := host t; isConnected := b; hasConnect := hasConnect t;
     hasDisconnect := hasDisconnect t |}.

(** Which of the optional hooks are set; what a hook does is up to the
    caller, and shows as the result its [await] is resumed with. *)
Record Hooks := mkHooks {
  afterConnectFn : bool;
  beforeDisconnectFn : bool;
}.

Inductive Signal := connected | disconnected.

#[global] Instance Signal_eq_dec : EqDecision Signal.
Proof. solve_decision. Defined.

Inductive PendingCall :=
| PCreate (timeoutMs : option Z) (isInternal : bool)
| PResolve (id : string) (v : JsValue)
| PReject (id : string) (e : Error)
| PDelete (id : string)
| PCancel (e : Error).

(** Calls on the collaborators, in program order. *)
Inductive Effect :=
| TransportConnect (timeoutMs : Z)
| TransportDisconnect
| TransportSend (frame : RequestFrame)
| TransportEmit (s : Signal)
| Emit (s : Signal)
| EmitEvent (event : Frame)
| AfterConnectFn
| BeforeDisconnectFn
| PendingOp (call : PendingCall).

(** The fields of [ConnectionToCore].  [terminationListener] is the
    [events.once(transport, 'disconnected', ...)] registration of the
    constructor, [hasActiveSessions] what the overridable method of that name
    answers, [effects] the log (newest last). *)
Record Conn := mkConn {
  connectPromise : option Settlement;
  disconnectPromise : option Settlement;
  connectStartTime : option Z;
  didAutoConnect : bool;
  disconnectStartTime : option Z;
  disconnectError : option Error;
  hooks : Hooks;
  connectMessageId : option string;
  disconnectMessageId : option string;
  pendingMessages : PendingMessages;
  isConnectionTerminated : bool;
  isSendingConnect : bool;
  isSendingDisconnect : bool;
  transport : Transport;
  terminationListener : bool;
  hasActiveSessions : bool;
  effects : list Effect;
}.

Definition set_connectPromise (v : option Settlement) (c : Conn) : Conn :=
  {| connectPromise := v; disconnectPromise := disconnectPromise c;
     connectStartTime := connectStartTime c;
     didAutoConnect := didAutoConnect c;
     disconnectStartTime := disconnectStartTime c;
     disconnectError := disconnectError c; hooks := hooks c;
     connectMessageId := connectMessageId c;
     disconnectMessageId := disconnectMessageId c;
     pendingMessages := pendingMessages c;
     isConnectionTerminated := isConnectionTerminated c;
     isSendingConnect := isSendingConnect c;
     isSendingDisconnect := isSendingDisconnect c; transport := transport c;
     terminationListener := terminationListener c;
     hasActiveSessions := hasActiveSessions c; effects := effects c |}.

Definition set_disconnectPromise (v : option Settlement) (c : Conn) : Conn :=
  {| connectPromise := connectPromise c; disconnectPromise := v;
     connectStartTime := connectStartTime c;
     didAutoConnect := didAutoConnect c;
     disconnectStartTime := disconnectStartTime c;
     disconnectError := disconnectError c; hooks := hooks c;
     connectMessageId := connectMessageId c;
     disconnectMessageId := disconnectMessageId c;
     pendingMessages := pendingMessages c;
     isConnectionTerminated := isConnectionTerminated c;
     isSendingConnect := isSendingConnect c;
     isSendingDisconnect := isSendingDisconnect c; transport := transport c;
     terminationListener := terminationListener c;
     hasActiveSessions := hasActiveSessions c; effects := effects c |}.

Definition set_connectStartTime (v : option Z) (c : Conn) : Conn :=
  {| connectPromise := connectPromise c;
     disconnectPromise := disconnectPromise c; connectStartTime := v;
     didAutoConnect := didAutoConnect c;
     disconnectStartTime := disconnectStartTime c;
     disconnectError := disconnectError c; hooks := hooks c;
     connectMessageId := connectMessageId c;
     disconnectMessageId := disconnectMessageId c;
     pendingMessages := pendingMessages c;
     isConnectionTerminated := isConnectionTerminated c;
     isSendingConnect := isSendingConnect c;
     isSendingDisconnect := isSendingDisconnect c; transport := transport c;
     terminationListener := terminationListener c;
     hasActiveSessions := hasActiveSessions c; effects := effects c |}.

Definition set_didAutoConnect (v : bool) (c : Conn) : Conn :=
  {| connectPromise := connectPromise c;
     disconnectPromise := disconnectPromise c;
     connectStartTime := connectStartTime c; didAutoConnect := v;
     disconnectStartTime := disconnectStartTime c;
     disconnectError := disconnectError c; hooks := hooks c;
     connectMessageId := connectMessageId c;
     disconnectMessageId := disconnectMessageId c;
     pendingMessages := pendingMessages c;
     isConnectionTerminated := isConnectionTerminated c;
     isSendingConnect := isSendingConnect c;
     isSendingDisconnect := isSendingDisconnect c; transport := transport c;
     terminationListener := terminationListener c;
     hasActiveSessions := hasActiveSessions c; effects := effects c |}.

Definition set_disconnectStartTime (v : option Z) (c : Conn) : Conn :=
  {| connectPromise := connectPromise c;
     disconnectPromise := disconnectPromise c;
     connectStartTime := connectStartTime c;
     didAutoConnect := didAutoConnect c; disconnectStartTime := v;
     disconnectError := disconnectError c; hooks := hooks c;
     connectMessageId := connectMessageId c;
     disconnectMessageId := disconnectMessageId c;
     pendingMessages := pendingMessages c;
     isConnectionTerminated := isConnectionTerminated c;
     isSendingConnect := isSendingConnect c;
     isSendingDisconnect := isSendingDisconnect c; transport := transport c;
     terminationListener := terminationListener c;
     hasActiveSessions := hasActiveSessions c; effects := effects c |}.

Definition set_disconnectError (v : option Error) (c : Conn) : Conn :=
  {| connectPromise := connectPromise c;
     disconnectPromise := disconnectPromise c;
     connectStartTime := connectStartTime c;
     didAutoConnect := didAutoConnect c;
     disconnectStartTime := disconnectStartTime c; disconnectError := v;
     hooks := hooks c; connectMessageId := connectMessageId c;
     disconnectMessageId := disconnectMessageId c;
     pendingMessages := pendingMessages c;
     isConnectionTerminated := isConnectionTerminated c;
     isSendingConnect := isSendingConnect c;
     isSendingDisconnect := isSendingDisconnect c; transport := transport c;
     terminationListener := terminationListener c;
     hasActiveSessions := hasActiveSessions c; effects := effects c |}.

Definition set_hooks (v : Hooks) (c : Conn) : Conn :=
  {| connectPromise := connectPromise c;
     disconnectPromise := disconnectPromise c;
     connectStartTime := connectStartTime c;
     didAutoConnect := didAutoConnect c;
     disconnectStartTime := disconnectStartTime c;
     disconnectError := disconnectError c; hooks := v;
     connectMessageId := connectMessageId c;
     disconnectMessageId := disconnectMessageId c;
     pendingMessages := pendingMessages c;
     isConnectionTerminated := isConnectionTerminated c;
     isSendingConnect := isSendingConnect c;
     isSendingDisconnect := isSendingDisconnect c; transport := transport c;
     terminationListener := terminationListener c;
     hasActiveSessions := hasActiveSessions c; effects := effects c |}.

Definition set_connectMessageId (v : option string) (c : Conn) : Conn :=
  {| connectPromise := connectPromise c;
     disconnectPromise := disconnectPromise c;
     connectStartTime := connectStartTime c;
     didAutoConnect := didAutoConnect c;
     disconnectStartTime := disconnectStartTime c;
     disconnectError := disconnectError c; hooks := hooks c;
     connectMessageId := v; disconnectMessageId := disconnectMessageId c;
     pendingMessages := pendingMessages c;
     isConnectionTerminated := isConnectionTerminated c;
     isSendingConnect := isSendingConnect c;
     isSendingDisconnect := isSendingDisconnect c; transport := transport c;
     terminationListener := terminationListener c;
     hasActiveSessions := hasActiveSessions c; effects := effects c |}.

Definition set_disconnectMessageId (v : option string) (c : Conn) : Conn :=
  {| connectPromise := connectPromise c;
     disconnectPromise := disconnectPromise c;
     connectStartTime := connectStartTime c;
     didAutoConnect := didAutoConnect c;
     disconnectStartTime := disconnectStartTime c;
     disconnectError := disconnectError c; hooks := hooks c;
     connectMessageId := connectMessageId c; disconnectMessageId := v;
     pendingMessages := pendingMessages c;
     isConnectionTerminated := isConnectionTerminated c;
     isSendingConnect := isSendingConnect c;
     isSendingDisconnect := isSendingDisconnect c; transport := transport c;
     terminationListener := terminationListener c;
     hasActiveSessions := hasActiveSessions c; effects := effects c |}.

Definition set_pendingMessages (v : PendingMessages) (c : Conn) : Conn :=
  {| connectPromise := connectPromise c;
     disconnectPromise := disconnectPromise c;
     connectStartTime := connectStartTime c;
     didAutoConnect := didAutoConnect c;
     disconnectStartTime := disconnectStartTime c;
     disconnectError := disconnectError c; hooks := hooks c;
     connectMessageId := connectMessageId c;
     disconnectMessageId := disconnectMessageId c; pendingMessages := v;
     isConnectionTerminated := isConnectionTerminated c;
     isSendingConnect := isSendingConnect c;
     isSendingDisconnect := isSendingDisconnect c; transport := transport c;
     terminationListener := terminationListener c;
     hasActiveSessions := hasActiveSessions c; effects := effects c |}.

Definition set_isConnectionTerminated (v : bool) (c : Conn) : Conn :=
  {| connectPromise := connectPromise c;
     disconnectPromise := disconnectPromise c;
     connectStartTime := connectStartTime c;
     didAutoConnect := didAutoConnect c;
     disconnectStartTime := disconnectStartTime c;
     disconnectError := disconnectError c; hooks := hooks c;
     connectMessageId := connectMessageId c;
     disconnectMessageId := disconnectMessageId c;
     pendingMessages := pendingMessages c; isConnectionTerminated := v;
     isSendingConnect := isSendingConnect c;
     isSendingDisconnect := isSendingDisconnect c; transport := transport c;
     terminationListener := terminationListener c;
     hasActiveSessions := hasActiveSessions c; effects := effects c |}.

Definition set_isSendingConnect (v : bool) (c : Conn) : Conn :=
  {| connectPromise := connectPromise c;
     disconnectPromise := disconnectPromise c;
     connectStartTime := connectStartTime c;
     didAutoConnect := didAutoConnect c;
     disconnectStartTime := disconnectStartTime c;
     disconnectError := disconnectError c; hooks := hooks c;
     connectMessageId := connectMessageId c;
     disconnectMessageId := disconnectMessageId c;
     pendingMessages := pendingMessages c;
     isConnectionTerminated := isConnectionTerminated c;
     isSendingConnect := v; isSendingDisconnect := isSendingDisconnect c;
     transport := transport c; terminationListener := terminationListener c;
     hasActiveSessions := hasActiveSessions c; effects := effects c |}.

Definition set_isSendingDisconnect (v : bool) (c : Conn) : Conn :=
  {| connectPromise := connectPromise c;
     disconnectPromise := disconnectPromise c;
     connectStartTime := connectStartTime c;
     didAutoConnect := didAutoConnect c;
     disconnectStartTime := disconnectStartTime c;
     disconnectError := disconnectError c; hooks := hooks c;
     connectMessageId := connectMessageId c;
     disconnectMessageId := disconnectMessageId c;
     pendingMessages := pendingMessages c;
     isConnectionTerminated := isConnectionTerminated c;
     isSendingConnect := isSendingConnect c; isSendingDisconnect := v;
     transport := transport c; terminationListener := terminationListener c;
     hasActiveSessions := hasActiveSessions c; effects := effects c |}.

Definition set_transport (v : Transport) (c : Conn) : Conn :=
  {| connectPromise := connectPromise c;
     disconnectPromise := disconnectPromise c;
     connectStartTime := connectStartTime c;
     didAutoConnect := didAutoConnect c;
     disconnectStartTime := disconnectStartTime c;
     disconnectError := disconnectError c; hooks := hooks c;
     connectMessageId := connectMessageId c;
     disconnectMessageId := disconnectMessageId c;
     pendingMessages := pendingMessages c;
     isConnectionTerminated := isConnectionTerminated c;
     isSendingConnect := isSendingConnect c;
     isSendingDisconnect := isSendingDisconnect c; transport := v;
     terminationListener := terminationListener c;
     hasActiveSessions := hasActiveSessions c; effects := effects c |}.

Definition set_terminationListener (v : bool) (c : Conn) : Conn :=
  {| connectPromise := connectPromise c;
     disconnectPromise := disconnectPromise c;
     connectStartTime := connectStartTime c;
     didAutoConnect := didAutoConnect c;
     disconnectStartTime := disconnectStartTime c;
     disconnectError := disconnectError c; hooks := hooks c;
     connectMessageId := connectMessageId c;
     disconnectMessageId := disconnectMessageId c;
     pendingMessages := pendingMessages c;
     isConnectionTerminated := isConnectionTerminated c;
     isSendingConnect := isSendingConnect c;
     isSendingDisconnect := isSendingDisconnect c; transport := transport c;
     terminationListener := v; hasActiveSessions := hasActiveSessions c;
     effects := effects c |}.

Definition set_hasActiveSessions (v : bool) (c : Conn) : Conn :=
  {| connectPromise := connectPromise c;
     disconnectPromise := disconnectPromise c;
     connectStartTime := connectStartTime c;
     didAutoConnect := didAutoConnect c;
     disconnectStartTime := disconnectStartTime c;
     disconnectError := disconnectError c; hooks := hooks c;
     connectMessageId := connectMessageId c;
     disconnectMessageId := disconnectMessageId c;
     pendingMessages := pendingMessages c;
     isConnectionTerminated := isConnectionTerminated c;
     isSendingConnect := isSendingConnect c;
     isSendingDisconnect := isSendingDisconnect c; transport := transport c;
     terminationListener := terminationListener c; hasActiveSessions := v;
     effects := effects c |}.

Definition set_effects (v : list Effect) (c : Conn) : Conn :=
  {| connectPromise := connectPromise c;
     disconnectPromise := disconnectPromise c;
     connectStartTime := connectStartTime c;
     didAutoConnect := didAutoConnect c;
     disconnectStartTime := disconnectStartTime c;
     disconnectError := disconnectError c; hooks := hooks c;
     connectMessageId := connectMessageId c;
     disconnectMessageId := disconnectMessageId c;
     pendingMessages := pendingMessages c;
     isConnectionTerminated := isConnectionTerminated c;
     isSendingConnect := isSendingConnect c;
     isSendingDisconnect := isSendingDisconnect c; transport := transport c;
     terminationListener := terminationListener c;
     hasActiveSessions := hasActiveSessions c; effects := v |}.

Definition log (e : Effect) (c : Conn) : Conn :=
  set_effects (effects c ++ [e]) c.

(** A call on [this.pendingMessages]: logged, then applied to the table. *)
Definition pending_resolve (id : string) (v : JsValue) (c : Conn) : Conn :=
  set_pendingMessages (Pending.resolve id v (pendingMessages c))
    (log (PendingOp (PResolve id v)) c).

Definition pending_reject (id : string) (e : Error) (c : Conn) : Conn :=
  set_pendingMessages (Pending.reject id e (pendingMessages c))
    (log (PendingOp (PReject id e)) c).

Definition pending_delete (id : string) (c : Conn) : Conn :=
  set_pendingMessages (Pending.delete id (pendingMessages c))
    (log (PendingOp (PDelete id)) c).

Definition pending_cancel (e : Error) (c : Conn) : Conn :=
  set_pendingMessages (Pending.cancel e (pendingMessages c))
    (log (PendingOp (PCancel e)) c).

Definition pending_create (timeoutMs : option Z) (isInternal : bool) (c : Conn)
  : string * Conn :=
  let '(id, pm) := Pending.create timeoutMs isInternal (pendingMessages c) in
  (id,
   set_pendingMessages pm (log (PendingOp (PCreate timeoutMs isInternal)) c)).

(** JavaScript truthiness of a message-id slot ([undefined], [null] and the
    empty string are falsy). *)
Definition truthy_id (slot : option string) : option string :=
  match slot with
  | Some id => if decide (id = "") then None else Some id
  | None => None
  end.

(** ** Suspended activations *)

(** One constructor per [await] of the controller; the arguments are the
    locals that are live across it.  [called] tells whether the optional
    operation or hook existed and was called; without it the [await] is of
    [undefined]. *)
Inductive Task :=
| ConnectAwaitsTransport (called : bool)
| ConnectAwaitsHook
| DisconnectAwaitsHook (called : bool)
| DisconnectAwaitsTransport (called : bool)
| SendAwaitsConnect (payload : Payload) (timeoutMs : option Z)
| SendAwaitsResponse (id : string) (isConnect isDisconnect : bool)
| TerminatedAwaitsHook (called : bool).

(** How a segment of an [async] function ends: at its next [await], by
    returning a value, by returning a promise (the caller then follows that
    promise; its settlement at the time of the return is recorded), or by
    throwing. *)
Inductive Outcome :=
| Suspended (t : Task)
| Returned (v : JsValue)
| ReturnedPromise (p : Settlement)
| Threw (e : Error).

(** [await x] of a call that was not made resumes with [undefined]. *)
Definition awaited (called : bool) (r : Result) : Result :=
  if called then r else Ok JUndefined.

(** ** isBrowserLaunchError, onResponse, onEvent, onMessage *)

Definition isBrowserLaunchError (error : Error) : bool :=
  bool_decide (err_name error = "BrowserLaunchError")
  || bool_decide (err_name error = "DependenciesMissingError").

(** The [isDisconnected] test of [onResponse]. *)
Definition isDisconnected (c : Conn) (responseError : Error) : bool :=
  bool_decide (is_Some (disconnectPromise c))
  || bool_decide (err_name responseError = SessionClosedOrMissingError_name)
  || bool_decide (err_isDisconnecting responseError = Some (JBool true)).

(** The error that [onResponse] hands to [pendingMessages.reject]. *)
Definition delivered_error (c : Conn) (responseError : Error) : Error :=
  if isDisconnected c responseError && negb (isBrowserLaunchError responseError)
  then DisconnectedError (host (transport c)) None
  else scrub responseError.

Definition onResponse (id : string) (d : Data) (c : Conn) : Conn :=
  match d with
  | DErr responseError => pending_reject id (delivered_error c responseError) c
  | DVal v => pending_resolve id v c
  end.

Definition onEvent (event : Frame) (c : Conn) : Conn :=
  log (EmitEvent event) c.

Definition onMessage (payload : Frame) (c : Conn) : Conn :=
  match responseId payload with
  | Some id => onResponse id (data payload) c
  | None =>
      if bool_decide (is_Some (listenerId payload))
         || bool_decide (is_Some (eventType payload))
      then onEvent payload c
      else c
  end.

(** ** onConnectionTerminated *)

(** The synchronous part, up to [await this.hooks.beforeDisconnectFn?.()]. *)
Definition onConnectionTerminated (c : Conn) : Conn * Outcome :=
  if isConnectionTerminated c then (c, Returned JUndefined)
  else
    let c := set_isConnectionTerminated true c in
    let c := log (Emit disconnected) c in
    let c := match truthy_id (connectMessageId c) with
             | Some id =>
                 onResponse id
                   (if negb (didAutoConnect c)
                    then DErr (DisconnectedError (host (transport c)) None)
                    else DVal JNull) c
             | None => c
             end in
    let c := match truthy_id (disconnectMessageId c) with
             | Some id => onResponse id (DVal JNull) c
             | None => c
             end in
    let c := pending_cancel (DisconnectedError (host (transport c)) None) c in
    let c := set_isSendingDisconnect true c in
    let called := beforeDisconnectFn (hooks c) in
    let c := if called then log BeforeDisconnectFn c else c in
    (c, Suspended (TerminatedAwaitsHook called)).

(** After the hook: [this.isSendingDisconnect = false], unless it threw. *)
Definition onConnectionTerminated_resume (called : bool) (r : Result) (c : Conn)
  : Conn * Outcome :=
  match awaited called r with
  | Ok _ => (set_isSendingDisconnect false c, Returned JUndefined)
  | Err e => (c, Threw e)
  end.

(** The transport's ['disconnected'] signal reaches the controller through
    the once-only listener of the constructor: the listener is removed, then
    [onConnectionTerminated] runs.  The result lists the activation that the
    listener left suspended, if any. *)
Definition transport_disconnected (c : Conn) : Conn * list Task :=
  if terminationListener c then
    match onConnectionTerminated (set_terminationListener false c) with
    | (c', Suspended t) => (c', [t])
    | (c', _) => (c', [])
    end
  else (c, []).

(** [get isConnectedToTransport()] *)
Definition isConnectedToTransport (c : Conn) : bool :=
  isConnected (transport c)
  && match connectPromise c with
     | Some p => isResolved p
     | None => false
     end.

(** ** The constructor *)

Definition new_ConnectionToCore (t : Transport) (skipConnect : bool) : Conn :=
  {| connectPromise :=
       if isConnected t && skipConnect then Some Fulfilled else None;
     disconnectPromise := None;
     connectStartTime := None;
     didAutoConnect := false;
     disconnectStartTime := None;
     disconnectError := None;
     hooks := mkHooks false false;
     connectMessageId := None;
     disconnectMessageId := None;
     pendingMessages := Pending.empty;
     isConnectionTerminated := false;
     isSendingConnect := false;
     isSendingDisconnect := false;
     transport := t;
     terminationListener := true;
     hasActiveSessions := false;
     effects := [] |}.

(** ** connect *)

(** [catch (err) { this.connectPromise.reject(err, true) }], then
    [return this.connectPromise.promise].  With [connectPromise] cleared by a
    disconnect in the meantime, the handler itself throws. *)
Definition connect_catch (err : Error) (c : Conn) : Conn * Outcome :=
  match connectPromise c with
  | Some p =>
      (set_connectPromise (Some (reject err p)) c,
       ReturnedPromise (reject err p))
  | None => (c, Threw TypeError)
  end.

(** [this.connectPromise.resolve()] up to [this.transport.emit('connected')],
    then [return this.connectPromise.promise]. *)
Definition connect_finish (c : Conn) : Conn * Outcome :=
  match connectPromise c with
  | Some p =>
      let c := set_connectPromise (Some (resolve p)) c in
      let c := log (Emit connected) c in
      let c := set_transport (set_isConnected true (transport c)) c in
      let c := log (TransportEmit connected) c in
      (c, ReturnedPromise (resolve p))
  | None => connect_catch TypeError c
  end.

(** Entry, up to [await this.transport.connect?.(timeoutMs)]. *)
Definition connect (isAutoConnect : bool) (timeoutMs : Z) (now : Z) (c : Conn)
  : Conn * Outcome :=
  match connectPromise c with
  | None =>
      let c := set_didAutoConnect isAutoConnect c in
      let c := set_connectStartTime (Some now) c in
      let c := set_connectPromise (Some Pending) c in
      let called := hasConnect (transport c) in
      let c := if called then log (TransportConnect timeoutMs) c else c in
      (c, Suspended (ConnectAwaitsTransport called))
  | Some p => (c, ReturnedPromise p)
  end.

(** After the transport connect: the handshake-abort check, then the
    [afterConnectFn] hook under [isSendingConnect]. *)
Definition connect_after_transport (called : bool) (r : Result) (c : Conn)
  : Conn * Outcome :=
  match awaited called r with
  | Err err => connect_catch err c
  | Ok _ =>
      if hasActiveSessions c && bool_decide (is_Some (disconnectPromise c))
         && negb (didAutoConnect c)
      then
        connect_catch
          (DisconnectedError (host (transport c))
             (Some ("Disconnecting during initial connection handshake to "
                    +:+ host (transport c)))) c
      else
        match connectPromise c with
        | Some p =>
            if negb (isResolved p) && afterConnectFn (hooks c) then
              let c := set_isSendingConnect true c in
              let c := log AfterConnectFn c in
              (c, Suspended ConnectAwaitsHook)
            else connect_finish c
        | None => connect_catch TypeError c
        end
  end.

(** After [await this.hooks.afterConnectFn()]. *)
Definition connect_after_hook (r : Result) (c : Conn) : Conn * Outcome :=
  match r with
  | Ok _ => connect_finish (set_isSendingConnect false c)
  | Err err => connect_catch err c
  end.

(** ** disconnect *)

(** [finally { resolvable.resolve() }]: [resolvable] is the local whose
    promise was stored in [this.disconnectPromise]. *)
Definition disconnect_finally (c : Conn) : Conn :=
  set_disconnectPromise (resolve <$> disconnectPromise c) c.

(** The transport emits ['disconnected'] from inside [disconnect]: the
    emission is logged and the listeners run. *)
Definition transport_emit_disconnected (c : Conn) : Conn * list Task :=
  transport_disconnected (log (TransportEmit disconnected) c).

(** Entry, up to [await this.hooks.beforeDisconnectFn?.()]. *)
Definition disconnect (fatalError : option Error) (now : Z) (c : Conn)
  : Conn * Outcome :=
  let c := set_disconnectStartTime (Some now) c in
  let c := set_disconnectError fatalError c in
  match disconnectPromise c with
  | Some p => (c, ReturnedPromise p)
  | None =>
      let c := set_disconnectPromise (Some Pending) c in
      let c := pending_cancel (DisconnectedError (host (transport c)) None) c in
      let c := set_isSendingDisconnect true c in
      let called := beforeDisconnectFn (hooks c) in
      let c := if called then log BeforeDisconnectFn c else c in
      (c, Suspended (DisconnectAwaitsHook called))
  end.

(** After the hook, up to [await this.transport.disconnect?.()]. *)
Definition disconnect_after_hook (called : bool) (r : Result) (c : Conn)
  : Conn * Outcome :=
  match awaited called r with
  | Ok _ =>
      let c := set_isSendingDisconnect false c in
      let called := hasDisconnect (transport c) in
      let c := if called then log TransportDisconnect c else c in
      (c, Suspended (DisconnectAwaitsTransport called))
  | Err e => (disconnect_finally c, Threw e)
  end.

(** After the transport disconnect, to the end of the function. *)
Definition disconnect_after_transport (called : bool) (r : Result) (c : Conn)
  : Conn * list Task * Outcome :=
  match awaited called r with
  | Ok _ =>
      let c := set_transport (set_isConnected false (transport c)) c in
      let '(c, spawned) := transport_emit_disconnected c in
      let c := log (Emit disconnected) c in
      let c := set_connectPromise None c in
      let c := disconnect_finally c in
      (c, spawned,
       match disconnectPromise c with
       | Some p => ReturnedPromise p
       | None => Returned JUndefined
       end)
  | Err e => (disconnect_finally c, [], Threw e)
  end.

(** ** sendRequest *)

(** From [pendingMessages.create] to the [await Promise.all([...])]. *)
Definition sendRequest_send (isConnect isDisconnect : bool) (payload : Payload)
    (timeoutMs : option Z) (now : Z) (c : Conn) : Conn * Outcome :=
  let '(id, c) := pending_create timeoutMs (isConnect || isDisconnect) c in
  let c := if isConnect then set_connectMessageId (Some id) c else c in
  let c := if isDisconnect then set_disconnectMessageId (Some id) c else c in
  let c := log (TransportSend (mkRequestFrame payload id now)) c in
  (c, Suspended (SendAwaitsResponse id isConnect isDisconnect)).

(** Entry: the flags are sampled, and outside a hook the request first
    awaits [this.connect()].  The result lists the [connect] activation that
    this call started, if any. *)
Definition sendRequest (payload : Payload) (timeoutMs : option Z) (now : Z)
    (c : Conn) : Conn * list Task * Outcome :=
  let isConnect := isSendingConnect c in
  let isDisconnect := isSendingDisconnect c in
  if negb isConnect && negb isDisconnect then
    match connect false 30000 now c with
    | (c, Suspended t) =>
        (c, [t], Suspended (SendAwaitsConnect payload timeoutMs))
    | (c, _) => (c, [], Suspended (SendAwaitsConnect payload timeoutMs))
    end
  else
    let '(c, o) :=
      sendRequest_send isConnect isDisconnect payload timeoutMs now c in
    (c, [], o).

(** After [await this.connect()]. *)
Definition sendRequest_after_connect (payload : Payload) (timeoutMs : option Z)
    (r : Result) (now : Z) (c : Conn) : Conn * Outcome :=
  match r with
  | Ok _ => sendRequest_send false false payload timeoutMs now c
  | Err e => (c, Threw e)
  end.

(** [finally]: clear the internal-id slot that this request had set. *)
Definition sendRequest_finally (isConnect isDisconnect : bool) (c : Conn)
  : Conn :=
  let c := if isConnect then set_connectMessageId None c else c in
  if isDisconnect then set_disconnectMessageId None c else c.

(** After [await Promise.all([promise, this.transport.send(...)])]. *)
Definition sendRequest_complete (id : string) (isConnect isDisconnect : bool)
    (r : Result) (c : Conn) : Conn * Outcome :=
  match r with
  | Ok result => (sendRequest_finally isConnect isDisconnect c, Returned result)
  | Err error =>
      let c := pending_delete id c in
      if bool_decide (is_Some (disconnectPromise c)) && err_canceled error
      then (sendRequest_finally isConnect isDisconnect c, Returned JUndefined)
      else (sendRequest_finally isConnect isDisconnect c, Threw error)
  end.

(** ** The scheduler *)

(** The controller and its suspended activations. *)
Record System := mkSystem {
  conn : Conn;
  tasks : list Task;
}.

(** What can happen next: a call from the user (who may also set the hooks,
    or be a subclass whose [hasActiveSessions] answers differently), a
    signal of the transport, the timer of a pending entry, or the settlement
    [r] of what the [i]-th suspended activation awaits.  The scheduler does
    not restrict [r]: every settlement is considered, also for the promises
    that the controller settles itself. *)
Inductive Event :=
| CallConnect (isAutoConnect : bool) (timeoutMs : Z) (now : Z)
| CallDisconnect (fatalError : option Error) (now : Z)
| CallSendRequest (payload : Payload) (timeoutMs : option Z) (now : Z)
| SetHooks (h : Hooks)
| SetHasActiveSessions (b : bool)
| TransportMessage (frame : Frame)
| TransportDisconnected
| TimerFired (id : string)
| Resume (i : nat) (r : Result) (now : Z).

Definition suspended (o : Outcome) : list Task :=
  match o with Suspended t => [t] | _ => [] end.

(** Resume activation [t] with [r]. *)
Definition resume (t : Task) (r : Result) (now : Z) (c : Conn)
  : Conn * list Task * Outcome :=
  match t with
  | ConnectAwaitsTransport called =>
      let '(c, o) := connect_after_transport called r c in (c, [], o)
  | ConnectAwaitsHook =>
      let '(c, o) := connect_after_hook r c in (c, [], o)
  | DisconnectAwaitsHook called =>
      let '(c, o) := disconnect_after_hook called r c in (c, [], o)
  | DisconnectAwaitsTransport called => disconnect_after_transport called r c
  | SendAwaitsConnect payload timeoutMs =>
      let '(c, o) := sendRequest_after_connect payload timeoutMs r now c in
      (c, [], o)
  | SendAwaitsResponse id isConnect isDisconnect =>
      let '(c, o) := sendRequest_complete id isConnect isDisconnect r c in
      (c, [], o)
  | TerminatedAwaitsHook called =>
      let '(c, o) := onConnectionTerminated_resume called r c in (c, [], o)
  end.

Definition step (w : System) (ev : Event) : System :=
  match ev with
  | CallConnect isAutoConnect timeoutMs now =>
      let '(c, o) := connect isAutoConnect timeoutMs now (conn w) in
      mkSystem c (tasks w ++ suspended o)
  | CallDisconnect fatalError now =>
      let '(c, o) := disconnect fatalError now (conn w) in
      mkSystem c (tasks w ++ suspended o)
  | CallSendRequest payload timeoutMs now =>
      let '(c, spawned, o) := sendRequest payload timeoutMs now (conn w) in
      mkSystem c (tasks w ++ spawned ++ suspended o)
  | SetHooks h => mkSystem (set_hooks h (conn w)) (tasks w)
  | SetHasActiveSessions b =>
      mkSystem (set_hasActiveSessions b (conn w)) (tasks w)
  | TransportMessage frame => mkSystem (onMessage frame (conn w)) (tasks w)
  | TransportDisconnected =>
      let '(c, spawned) := transport_disconnected (conn w) in
      mkSystem c (tasks w ++ spawned)
  | TimerFired id =>
      mkSystem
        (set_pendingMessages (Pending.timeout id (pendingMessages (conn w)))
           (conn w))
        (tasks w)
  | Resume i r now =>
      match tasks w !! i with
      | Some t =>
          let '(c, spawned, o) := resume t r now (conn w) in
          mkSystem c (base.delete i (tasks w) ++ spawned ++ suspended o)
      | None => w
      end
  end.

(** Run a schedule, oldest event first. *)
Definition run (w : System) (evs : list Event) : System :=
  foldl step w evs.

(** A controller as the constructor leaves it: no hooks set, the default
    [hasActiveSessions], nothing suspended. *)
Definition start (t : Transport) (skipConnect : bool) : System :=
  mkSystem (new_ConnectionToCore t skipConnect) [].

(** * Auxiliary definitions for the statements *)

(** ** Sample controllers *)

Module Sample.

Definition core : Transport :=
  {| host := "core:1818"; isConnected := false; hasConnect := true;
     hasDisconnect := true |}.

Definition ping : Payload :=
  {| command := "ping"; args := JNull; commandId := None;
     startTime := None |}.

Definition boom : Error :=
  {| err_name := "Error"; err_message := Some "boom";
     err_canceled := false; err_host := None;
     err_isDisconnecting := None |}.

Definition fresh : Conn := new_ConnectionToCore core false.

Definition both_hooks : Hooks :=
  {| afterConnectFn := true; beforeDisconnectFn := true |}.

End Sample.

(** [resolve] and [reject] are one operation up to the completion. *)
Definition complete (id : string) (r : Result) (pm : PendingMessages)
  : PendingMessages :=
  match entries pm !! id with
  | Some _ => {| lastId := lastId pm; entries := delete id (entries pm);
                 settled := Pending.settle id r (settled pm) |}
  | None => pm
  end.

(** The synthesized response for an internal request whose id slot is set. *)
Definition reply_to (slot : option string) (r : Result) (pm : PendingMessages)
  : PendingMessages :=
  match slot with
  | Some id => complete id r pm
  | None => pm
  end.

(** The pending-table call that delivers [r] to entry [id]. *)
Definition reply_call (id : string) (r : Result) : Effect :=
  match r with
  | Ok v => PendingOp (PResolve id v)
  | Err e => PendingOp (PReject id e)
  end.

(** [onResponse] for a synthesized reply [r]. *)
Definition onResponse_reply (id : string) (r : Result) (c : Conn) : Conn :=
  set_pendingMessages (complete id r (pendingMessages c))
    (log (reply_call id r) c).

(** What no operation of the controller undoes: [c'] is a later state of
    [c].  The disconnect promise, once created, stays and is never rejected;
    the termination latch, once set, stays set; the once-only termination
    listener, once removed, stays removed; and the latch is set whenever the
    listener is gone. *)
Record later (c c' : Conn) : Prop := mkLater {
  later_disconnectPromise :
    is_Some (disconnectPromise c) -> is_Some (disconnectPromise c');
  later_not_rejected :
    (forall e, disconnectPromise c <> Some (Rejected e)) ->
    forall e, disconnectPromise c' <> Some (Rejected e);
  later_latch :
    isConnectionTerminated c = true -> isConnectionTerminated c' = true;
  later_listener :
    terminationListener c = false -> terminationListener c' = false;
  later_latched :
    (terminationListener c = false -> isConnectionTerminated c = true) ->
    terminationListener c' = false -> isConnectionTerminated c' = true;
}.

(** Steps of a schedule at which the flag [f] of the controller goes from
    false to true. *)
Fixpoint flips (f : Conn -> bool) (w : System) (evs : list Event) : nat :=
  match evs with
  | [] => 0
  | ev :: evs =>
      (if negb (f (conn w)) && f (conn (step w ev)) then 1 else 0)%nat
      + flips f (step w ev) evs
  end.


(** The activations of [disconnect]. *)
Definition is_disconnect_task (t : Task) : bool :=
  match t with
  | DisconnectAwaitsHook _ | DisconnectAwaitsTransport _ => true
  | _ => false
  end.

(** An activation of [disconnect] holds the resolver of the promise stored
    in [disconnectPromise]. *)
Definition promised (c : Conn) (t : Task) : Prop :=
  is_disconnect_task t = true -> is_Some (disconnectPromise c).

(** The disconnect promise is pending or fulfilled whenever a [disconnect]
    is suspended. *)
Record teardown_sound (w : System) : Prop := mkTeardownSound {
  never_rejected : forall e, disconnectPromise (conn w) <> Some (Rejected e);
  tasks_promised : Forall (promised (conn w)) (tasks w);
}.

(** ** One teardown, step by step *)

(** The two fields that every [disconnect] call overwrites. *)
Definition retime (t : option Z) (e : option Error) (c : Conn) : Conn :=
  set_disconnectError e (set_disconnectStartTime t c).

(** The states of a controller that runs [disconnect] once, alone and with
    nothing failing: at the hook, at the transport, and at the end of
    [disconnect]. *)
Definition teardown_entered (c : Conn) : Conn :=
  (disconnect None 0 c).1.

Definition teardown_hooked (c : Conn) : Conn :=
  (disconnect_after_hook (beforeDisconnectFn (hooks c)) (Ok JUndefined)
     (teardown_entered c)).1.

Definition teardown_closed (c : Conn) : Conn * list Task :=
  (disconnect_after_transport (hasDisconnect (transport c)) (Ok JUndefined)
     (teardown_hooked c)).1.

(** The termination listener fires during the teardown if it had not fired
    before. *)
Definition fires (c : Conn) : bool :=
  terminationListener c && negb (isConnectionTerminated c).

(** ... and after the hook call that the termination listener left
    suspended, if it fired. *)
Definition teardown_done (c : Conn) : Conn :=
  if fires c then set_isSendingDisconnect false (teardown_closed c).1
  else (teardown_closed c).1.

(** A schedule of [disconnect] calls and of resumptions in which nothing
    fails. *)
Definition teardown_event (ev : Event) : bool :=
  match ev with
  | CallDisconnect _ _ => true
  | Resume _ (Ok _) _ => true
  | _ => false
  end.

Definition is_call (ev : Event) : bool :=
  match ev with CallDisconnect _ _ => true | _ => false end.

(** Where a system that started from controller [c] with nothing suspended
    is, after some [disconnect] call of such a schedule. *)
Inductive started (c : Conn) : System -> Prop :=
| at_hook t e :
    started c
      (mkSystem (retime t e (teardown_entered c))
         [DisconnectAwaitsHook (beforeDisconnectFn (hooks c))])
| at_transport t e :
    started c
      (mkSystem (retime t e (teardown_hooked c))
         [DisconnectAwaitsTransport (hasDisconnect (transport c))])
| at_listener t e :
    fires c = true ->
    started c
      (mkSystem (retime t e (teardown_closed c).1)
         [TerminatedAwaitsHook (beforeDisconnectFn (hooks c))])
| at_end t e :
    started c (mkSystem (retime t e (teardown_done c)) []).

(** Counting effects of one kind. *)
Definition count (p : Effect -> bool) (l : list Effect) : nat :=
  length (filter (fun e => p e = true) l).

Definition is_cancel (e : Effect) : bool :=
  match e with PendingOp (PCancel _) => true | _ => false end.

Definition is_beforeDisconnectFn (e : Effect) : bool :=
  match e with BeforeDisconnectFn => true | _ => false end.

Definition is_transport_disconnect (e : Effect) : bool :=
  match e with TransportDisconnect => true | _ => false end.

Definition is_transport_emit_disconnected (e : Effect) : bool :=
  match e with TransportEmit disconnected => true | _ => false end.

Definition is_emit_disconnected (e : Effect) : bool :=
  match e with Emit disconnected => true | _ => false end.

(** The effects of [onConnectionTerminated] on its first run. *)
Definition termination_effects (c : Conn) : list Effect :=
  let gone := DisconnectedError (host (transport c)) None in
  [Emit disconnected]
  ++ match truthy_id (connectMessageId c) with
     | Some id =>
         [reply_call id (if didAutoConnect c then Ok JNull else Err gone)]
     | None => []
     end
  ++ match truthy_id (disconnectMessageId c) with
     | Some id => [reply_call id (Ok JNull)]
     | None => []
     end
  ++ [PendingOp (PCancel gone)]
  ++ (if beforeDisconnectFn (hooks c) then [BeforeDisconnectFn] else []).

(** The effects of one whole teardown. *)
Definition teardown_effects (c : Conn) : list Effect :=
  [PendingOp (PCancel (DisconnectedError (host (transport c)) None))]
  ++ (if beforeDisconnectFn (hooks c) then [BeforeDisconnectFn] else [])
  ++ (if hasDisconnect (transport c) then [TransportDisconnect] else [])
  ++ [TransportEmit disconnected]
  ++ (if fires c then termination_effects c else [])
  ++ [Emit disconnected].

(** The controller when the teardown has emitted the transport's
    ['disconnected'] and its listeners are about to run. *)
Definition teardown_emitting (c : Conn) : Conn :=
  log (TransportEmit disconnected)
    (set_transport (set_isConnected false (transport (teardown_hooked c)))
       (teardown_hooked c)).

(** * Further definitions: the controller over whole schedules *)

Definition is_transport_connect (e : Effect) : bool :=
  match e with TransportConnect _ => true | _ => false end.

(** The calls that open a connection: [connect] and [sendRequest]. *)
Definition opens (ev : Event) : bool :=
  match ev with
  | CallConnect _ _ _ | CallSendRequest _ _ _ => true
  | _ => false
  end.

(** The [timeoutMs] that the call hands to [connect]. *)
Definition connect_timeout (ev : Event) : Z :=
  match ev with
  | CallConnect _ timeoutMs _ => timeoutMs
  | _ => 30000
  end.

(** The [isAutoConnect] that the call hands to [connect]. *)
Definition connect_auto (ev : Event) : bool :=
  match ev with
  | CallConnect isAutoConnect _ _ => isAutoConnect
  | _ => false
  end.

(** The activation that an opening call leaves suspended once a connect
    promise exists. *)
Definition waits_for_connect (ev : Event) : list Task :=
  match ev with
  | CallSendRequest payload timeoutMs _ => [SendAwaitsConnect payload timeoutMs]
  | _ => []
  end.

(** The event is a call of [disconnect]. *)
Definition calls_disconnect (ev : Event) : bool :=
  match ev with CallDisconnect _ _ => true | _ => false end.

(** The effects of a connect: the transport's connect, the
    [afterConnectFn] hook and the ['connected'] emission. *)
Definition is_connecting (e : Effect) : bool :=
  match e with
  | TransportConnect _ | AfterConnectFn | Emit connected => true
  | _ => false
  end.

(** The suspended activations that are neither a [connect] nor a
    [disconnect] nor a request of the connect handshake. *)
Definition outside_connect (t : Task) : bool :=
  match t with
  | SendAwaitsConnect _ _ | SendAwaitsResponse _ false _
  | TerminatedAwaitsHook _ => true
  | _ => false
  end.

(** A controller on transport [t] that counts as connected without ever
    having run [connect]. *)
Record preconnected (t : Transport) (w : System) : Prop := mkPreconnected {
  pre_promise : connectPromise (conn w) = Some Fulfilled;
  pre_transport : transport (conn w) = t;
  pre_effects : Forall (fun e => is_connecting e = false) (effects (conn w));
  pre_startTime : connectStartTime (conn w) = None;
  pre_auto : didAutoConnect (conn w) = false;
  pre_sending : isSendingConnect (conn w) = false;
  pre_messageId : connectMessageId (conn w) = None;
  pre_tasks : Forall (fun t => outside_connect t = true) (tasks w);
}.

(** What one teardown may still do, counted per suspended activation and per
    controller: [budget] bounds the effects of kind [p] that a system can
    still add to its log.  [at_hook] and [at_transport] say whether a
    [disconnect] suspended at the hook or at the transport disconnect can
    still produce such an effect, [entry] whether a first [disconnect] call
    can, [listener] whether the termination listener can. *)
Record Allowance := mkAllowance {
  al_kind : Effect -> bool;
  al_entry : nat;
  al_listener : nat;
  al_at_hook : nat;
  al_at_transport : nat;
}.

Definition task_budget (a : Allowance) (t : Task) : nat :=
  match t with
  | DisconnectAwaitsHook _ => al_at_hook a
  | DisconnectAwaitsTransport _ => al_at_transport a
  | _ => 0
  end.

(** The part of the budget that the controller holds. *)
Definition conn_budget (a : Allowance) (c : Conn) : nat :=
  count (al_kind a) (effects c)
  + match disconnectPromise c with
    | Some _ => 0
    | None => al_entry a
    end
  + (if fires c then al_listener a else 0).

Definition budget (a : Allowance) (w : System) : nat :=
  conn_budget a (conn w) + sum_list (task_budget a <$> tasks w).

(** How often [e] counts. *)
Definition weight (a : Allowance) (e : Effect) : nat :=
  if al_kind a e then 1 else 0.

(** An allowance pays for every step of a teardown: what a step logs and
    what it leaves to later steps is covered by what it uses up; effects
    that no teardown step produces do not count. *)
Record affordable (a : Allowance) : Prop := mkAffordable {
  pays_entry : forall e,
    (weight a (PendingOp (PCancel e)) + weight a BeforeDisconnectFn
     + al_at_hook a <= al_entry a)%nat;
  pays_hook :
    (weight a TransportDisconnect + al_at_transport a <= al_at_hook a)%nat;
  pays_transport :
    (weight a (TransportEmit disconnected) + weight a (Emit disconnected)
     <= al_at_transport a)%nat;
  pays_listener : forall e,
    (weight a (Emit disconnected) + weight a (PendingOp (PCancel e))
     + weight a BeforeDisconnectFn <= al_listener a)%nat;
  free_connect : forall t, al_kind a (TransportConnect t) = false;
  free_send : forall f, al_kind a (TransportSend f) = false;
  free_connected : al_kind a (TransportEmit connected) = false;
  free_emit_connected : al_kind a (Emit connected) = false;
  free_event : forall f, al_kind a (EmitEvent f) = false;
  free_afterConnectFn : al_kind a AfterConnectFn = false;
  free_create : forall t i, al_kind a (PendingOp (PCreate t i)) = false;
  free_resolve : forall i v, al_kind a (PendingOp (PResolve i v)) = false;
  free_reject : forall i e, al_kind a (PendingOp (PReject i e)) = false;
  free_delete : forall i, al_kind a (PendingOp (PDelete i)) = false;
}.

Definition transport_disconnects : Allowance :=
  {| al_kind := is_transport_disconnect; al_entry := 1; al_listener := 0;
     al_at_hook := 1; al_at_transport := 0 |}.

Definition transport_emissions : Allowance :=
  {| al_kind := is_transport_emit_disconnected; al_entry := 1;
     al_listener := 0; al_at_hook := 1; al_at_transport := 1 |}.

Definition cancellations : Allowance :=
  {| al_kind := is_cancel; al_entry := 1; al_listener := 1;
     al_at_hook := 0; al_at_transport := 0 |}.

Definition hook_invocations : Allowance :=
  {| al_kind := is_beforeDisconnectFn; al_entry := 1; al_listener := 1;
     al_at_hook := 0; al_at_transport := 0 |}.

Definition emissions : Allowance :=
  {| al_kind := is_emit_disconnected; al_entry := 1; al_listener := 1;
     al_at_hook := 1; al_at_transport := 1 |}.

(** ['listenerId' in payload || 'eventType' in payload] *)
Definition has_event_tag (f : Frame) : bool :=
  bool_decide (is_Some (listenerId f)) || bool_decide (is_Some (eventType f)).

(** A frame without [responseId]. *)
Definition no_response (f : Frame) : Prop := responseId f = None.

(** * TypedEventEmitter

    The event emitter that the controller extends (lib/eventUtils).  The
    base class is the runtime's [EventEmitter]: per event type a list of
    listeners in registration order, [once] listeners being removed when
    they are called.  Listeners are the caller's functions, named by a
    number; what they do when called is the caller's business, and a call is
    recorded in the trace.  The meta events ['newListener'] and
    ['removeListener'] of the runtime are left out, and a listener is taken
    to return, and not to call back into the emitter while it runs.  The
    field [logger] tells whether [#logger] is there with a [stats]
    function. *)

Module Emitter.

(** An emitted value: a primitive, or some object. *)
Inductive Value :=
| Primitive (v : JsValue)
| Object (ref : nat).

#[global] Instance Value_eq_dec : EqDecision Value.
Proof. solve_decision. Defined.

(** JavaScript truthiness. *)
Definition truthy (e : Value) : bool :=
  match e with
  | Object _ => true
  | Primitive JUndefined | Primitive JNull => false
  | Primitive (JBool b) => b
  | Primitive (JNum z) => negb (z =? 0)
  | Primitive (JStr s) => negb (bool_decide (s = ""))
  end.

(** [typeof event === 'object'] ([null] included). *)
Definition is_object (e : Value) : bool :=
  match e with
  | Primitive JNull | Object _ => true
  | _ => false
  end.

Inductive Listener :=
| DefaultErrorLogger
| Fn (n : nat)
| WaitCallback (id : nat)
| Reemit (n : nat).

#[global] Instance Listener_eq_dec : EqDecision Listener.
Proof. solve_decision. Defined.

Record Registration := mkRegistration {
  handler : Listener;
  isOnce : bool;
}.

(** What a call can throw: the runtime refuses an ['error'] event that has
    no listener, and [logEvent] reads [toJSON] of [null]. *)
Inductive Thrown :=
| UnhandledError (event : Value)
| NullToJSON.

Inductive Completion (A : Type) :=
| Done (a : A)
| Throws (t : Thrown).

Arguments Done {A} a.
Arguments Throws {A} t.

(** Modelled from the spec: the promise of [createPromise] (lib/utils is not
    part of this source), a set-once completion slot. *)
Inductive Promise :=
| Waiting
| Resolved (v : Value)
| Failed (message : string).

Definition settle_promise (outcome : Promise) (p : Promise) : Promise :=
  match p with Waiting => outcome | _ => p end.

(** What the callback of a [waitOn] call closes over, and the deadline of
    its promise. *)
Record Closure := mkClosure {
  cl_event : string;
  cl_listenerFn : option (Value -> bool);
  cl_timeoutMillis : Z;
}.

(** An [IPendingWaitEvent]: the event type and the message of its
    [CanceledPromiseError]. *)
Record PendingWait := mkPendingWait {
  pw_event : string;
  pw_message : string;
}.

Inductive Effect :=
| Call (l : Listener) (eventType : string) (event : Value)
    (sendInitiator : option Value)
| Stats (action : string)
| ListenerAdded (eventType : string).

Record State := mkState {
  registry : gmap string (list Registration);
  storeEventsWithoutListeners : bool;
  onEventListenerAdded : bool;
  logger : bool;
  pendingIdCounter : nat;
  pendingWaitEventsById : list (nat * PendingWait);
  eventsToLog : gset string;
  storedEventsByType : gmap string (list Value);
  reemitterCountByEventType : gmap string nat;
  closures : gmap nat Closure;
  promises : gmap nat Promise;
  trace : list Effect;
}.

Definition set_registry (v : gmap string (list Registration)) (s : State)
  : State :=
  {| registry := v;
     storeEventsWithoutListeners := storeEventsWithoutListeners s;
     onEventListenerAdded := onEventListenerAdded s; logger := logger s;
     pendingIdCounter := pendingIdCounter s;
     pendingWaitEventsById := pendingWaitEventsById s;
     eventsToLog := eventsToLog s;
     storedEventsByType := storedEventsByType s;
     reemitterCountByEventType := reemitterCountByEventType s;
     closures := closures s; promises := promises s; trace := trace s |}.

Definition set_stored (v : gmap string (list Value)) (s : State) : State :=
  {| registry := registry s;
     storeEventsWithoutListeners := storeEventsWithoutListeners s;
     onEventListenerAdded := onEventListenerAdded s; logger := logger s;
     pendingIdCounter := pendingIdCounter s;
     pendingWaitEventsById := pendingWaitEventsById s;
     eventsToLog := eventsToLog s;
     storedEventsByType := v;
     reemitterCountByEventType := reemitterCountByEventType s;
     closures := closures s; promises := promises s; trace := trace s |}.

Definition set_promises (v : gmap nat Promise) (s : State) : State :=
  {| registry := registry s;
     storeEventsWithoutListeners := storeEventsWithoutListeners s;
     onEventListenerAdded := onEventListenerAdded s; logger := logger s;
     pendingIdCounter := pendingIdCounter s;
     pendingWaitEventsById := pendingWaitEventsById s;
     eventsToLog := eventsToLog s;
     storedEventsByType := storedEventsByType s;
     reemitterCountByEventType := reemitterCountByEventType s;
     closures := closures s; promises := v; trace := trace s |}.

Definition set_pending (v : list (nat * PendingWait)) (s : State) : State :=
  {| registry := registry s;
     storeEventsWithoutListeners := storeEventsWithoutListeners s;
     onEventListenerAdded := onEventListenerAdded s; logger := logger s;
     pendingIdCounter := pendingIdCounter s;
     pendingWaitEventsById := v;
     eventsToLog := eventsToLog s;
     storedEventsByType := storedEventsByType s;
     reemitterCountByEventType := reemitterCountByEventType s;
     closures := closures s; promises := promises s; trace := trace s |}.

Definition set_storeEventsWithoutListeners (v : bool) (s : State) : State :=
  {| registry := registry s;
     storeEventsWithoutListeners := v;
     onEventListenerAdded := onEventListenerAdded s; logger := logger s;
     pendingIdCounter := pendingIdCounter s;
     pendingWaitEventsById := pendingWaitEventsById s;
     eventsToLog := eventsToLog s;
     storedEventsByType := storedEventsByType s;
     reemitterCountByEventType := reemitterCountByEventType s;
     closures := closures s; promises := promises s; trace := trace s |}.

Definition set_onEventListenerAdded (v : bool) (s : State) : State :=
  {| registry := registry s;
     storeEventsWithoutListeners := storeEventsWithoutListeners s;
     onEventListenerAdded := v; logger := logger s;
     pendingIdCounter := pendingIdCounter s;
     pendingWaitEventsById := pendingWaitEventsById s;
     eventsToLog := eventsToLog s;
     storedEventsByType := storedEventsByType s;
     reemitterCountByEventType := reemitterCountByEventType s;
     closures := closures s; promises := promises s; trace := trace s |}.

Definition record (e : Effect) (s : State) : State :=
  {| registry := registry s;
     storeEventsWithoutListeners := storeEventsWithoutListeners s;
     onEventListenerAdded := onEventListenerAdded s; logger := logger s;
     pendingIdCounter := pendingIdCounter s;
     pendingWaitEventsById := pendingWaitEventsById s;
     eventsToLog := eventsToLog s;
     storedEventsByType := storedEventsByType s;
     reemitterCountByEventType := reemitterCountByEventType s;
     closures := closures s; promises := promises s;
     trace := trace s ++ [e] |}.

(** [this.#logger?.stats?.(action, ...)] *)
Definition stats (action : string) (s : State) : State :=
  if logger s then record (Stats action) s else s.

(** ** The runtime's EventEmitter *)

Definition listeners (s : State) (eventType : string) : list Registration :=
  default [] (registry s !! eventType).

Definition listenerCount (s : State) (eventType : string) : nat :=
  length (listeners s eventType).

Definition set_listeners (eventType : string) (rs : list Registration)
    (s : State) : State :=
  set_registry (<[eventType := rs]> (registry s)) s.

Definition super_on (eventType : string) (l : Listener) (s : State) : State :=
  set_listeners eventType (listeners s eventType ++ [mkRegistration l false]) s.

(** The runtime's [_addListener] for the once wrapper of [l]: the wrapper
    is what is registered. *)
Definition add_wrapper (eventType : string) (l : Listener) (s : State)
  : State :=
  set_listeners eventType (listeners s eventType ++ [mkRegistration l true]) s.

Definition super_prependListener (eventType : string) (l : Listener)
    (s : State) : State :=
  set_listeners eventType (mkRegistration l false :: listeners s eventType) s.

Definition prepend_wrapper (eventType : string) (l : Listener)
    (s : State) : State :=
  set_listeners eventType (mkRegistration l true :: listeners s eventType) s.

(** Remove the first registration of [l]. *)
Fixpoint remove_first (l : Listener) (rs : list Registration)
  : list Registration :=
  match rs with
  | [] => []
  | r :: rs =>
      if decide (handler r = l) then rs else r :: remove_first l rs
  end.

(** [removeListener] removes the most recently added registration of [l]. *)
Definition remove_last (l : Listener) (rs : list Registration)
  : list Registration :=
  reverse (remove_first l (reverse rs)).

Definition super_off (eventType : string) (l : Listener) (s : State) : State :=
  set_listeners eventType (remove_last l (listeners s eventType)) s.

(** The callback of [waitOn]: resolve the promise if [listenerFn] is absent
    or accepts the event. *)
Definition callbackFn (id : nat) (result : Value) (s : State) : State :=
  match closures s !! id with
  | Some cl =>
      if match cl_listenerFn cl with
         | Some listenerFn => listenerFn result
         | None => true
         end
      then
        let s := stats ("waitOn.resolve:" +:+ cl_event cl) s in
        set_promises
          (<[id := settle_promise (Resolved result)
                     (default Waiting (promises s !! id))]> (promises s)) s
      else s
  | None => s
  end.

(** One listener is called. *)
Definition invoke (eventType : string) (event : Value)
    (sendInitiator : option Value) (s : State) (r : Registration) : State :=
  let s := record (Call (handler r) eventType event sendInitiator) s in
  match handler r with
  | WaitCallback id => callbackFn id event s
  | _ => s
  end.

(** [super.emit]: every listener is called, in order; the [once] listeners
    are removed; an ['error'] without listeners is thrown. *)
Definition super_emit (eventType : string) (event : Value)
    (sendInitiator : option Value) (s : State) : State * Completion bool :=
  match listeners s eventType with
  | [] =>
      if decide (eventType = "error") then (s, Throws (UnhandledError event))
      else (s, Done false)
  | rs =>
      let s := set_listeners eventType
                 (filter (fun r => isOnce r = false) rs) s in
      (foldl (invoke eventType event sendInitiator) s rs, Done true)
  end.

(** ** TypedEventEmitter *)

(** The constructor: the default error logger is the backup listener. *)
Definition new : State :=
  {| registry := {["error" := [mkRegistration DefaultErrorLogger false]]};
     storeEventsWithoutListeners := false;
     onEventListenerAdded := false; logger := false;
     pendingIdCounter := 0;
     pendingWaitEventsById := [];
     eventsToLog := ∅;
     storedEventsByType := ∅;
     reemitterCountByEventType := ∅;
     closures := ∅; promises := ∅; trace := [] |}.

(** [logEvent]: only for the event types of [setEventsToLog].  The data for
    the logger is derived from the event through [toJSON], which [null] does
    not have. *)
Definition logEvent (eventType : string) (event : Value) (s : State)
  : State * Completion unit :=
  if decide (eventType ∈ eventsToLog s) then
    if negb (bool_decide (eventType = "")) && is_object event
       && bool_decide (event = Primitive JNull)
    then (s, Throws NullToJSON)
    else (stats ("emit:" +:+ eventType) s, Done ())
  else (s, Done ()).

(** [emit]: [sendInitiator] is handed on to the listeners only if it is
    truthy. *)
Definition emit (eventType : string) (event : Value)
    (sendInitiator : option Value) (s : State) : State * Completion bool :=
  if storeEventsWithoutListeners s
     && bool_decide (listenerCount s eventType = 0%nat)
  then
    (set_stored
       (<[eventType := default [] (storedEventsByType s !! eventType)
                       ++ [event]]> (storedEventsByType s)) s,
     Done false)
  else
    match logEvent eventType event s with
    | (s, Done _) =>
        super_emit eventType event
          (match sendInitiator with
           | Some i => if truthy i then Some i else None
           | None => None
           end) s
    | (s, Throws t) => (s, Throws t)
    end.

(** The loop of [replayOrClearMissedEvents]. *)
Fixpoint replay (eventType : string) (events : list Value) (s : State)
  : State * Completion unit :=
  match events with
  | [] => (s, Done ())
  | event :: events =>
      match logEvent eventType event s with
      | (s, Done _) =>
          match super_emit eventType event None s with
          | (s, Done _) => replay eventType events s
          | (s, Throws t) => (s, Throws t)
          end
      | (s, Throws t) => (s, Throws t)
      end
  end.

Definition replayOrClearMissedEvents (shouldReplay : bool)
    (eventType : string) (s : State) : State * Completion unit :=
  match storedEventsByType s !! eventType with
  | None | Some [] => (s, Done ())
  | Some events =>
      let s := set_stored (delete eventType (storedEventsByType s)) s in
      if shouldReplay then replay eventType events s else (s, Done ())
  end.

(** [this.onEventListenerAdded?.(eventType)] *)
Definition listener_added (eventType : string) (s : State) : State :=
  if onEventListenerAdded s then record (ListenerAdded eventType) s else s.

Definition on (eventType : string) (listenerFn : Listener)
    (includeUnhandledEvents : bool) (s : State) : State * Completion unit :=
  let s := super_on eventType listenerFn s in
  let s := if bool_decide (eventType = "error")
              && negb (bool_decide (listenerFn = DefaultErrorLogger))
           then super_off "error" DefaultErrorLogger s else s in
  let s := listener_added eventType s in
  replayOrClearMissedEvents includeUnhandledEvents eventType s.

Definition off (eventType : string) (listenerFn : Listener) (s : State)
  : State :=
  let s := if bool_decide (eventType = "error")
              && negb (bool_decide (listenerFn = DefaultErrorLogger))
              && bool_decide (listenerCount s eventType = 1%nat)
           then super_on "error" DefaultErrorLogger s else s in
  super_off eventType listenerFn s.

(** [super.once(eventType, listenerFn)]: the runtime's [once] wraps the
    listener and registers the wrapper with [this.on(eventType, wrapper)].
    That [on] is the one of this class, called without
    [includeUnhandledEvents]: the wrapper is not the default error logger, so
    for ['error'] the default logger is taken off; [onEventListenerAdded] is
    called; the stored events of the type are cleared, not replayed. *)
Definition super_once (eventType : string) (l : Listener) (s : State)
  : State * Completion unit :=
  let s := add_wrapper eventType l s in
  let s := if bool_decide (eventType = "error")
           then super_off "error" DefaultErrorLogger s else s in
  let s := listener_added eventType s in
  replayOrClearMissedEvents false eventType s.

Definition once (eventType : string) (listenerFn : Listener)
    (includeUnhandledEvents : bool) (s : State) : State * Completion unit :=
  match super_once eventType listenerFn s with
  | (s, Done _) =>
      let s := listener_added eventType s in
      replayOrClearMissedEvents includeUnhandledEvents eventType s
  | (s, Throws t) => (s, Throws t)
  end.

Definition addListener := on.

Definition removeListener := super_off.

Definition prependListener (eventType : string) (listenerFn : Listener)
    (includeUnhandledEvents : bool) (s : State) : State * Completion unit :=
  replayOrClearMissedEvents includeUnhandledEvents eventType
    (super_prependListener eventType listenerFn s).

(** [super.prependOnceListener(eventType, listenerFn)]: the runtime
    registers the once wrapper with [this.prependListener(eventType,
    wrapper)], the [prependListener] of this class, which clears the stored
    events of the type. *)
Definition super_prependOnceListener (eventType : string) (l : Listener)
    (s : State) : State * Completion unit :=
  replayOrClearMissedEvents false eventType (prepend_wrapper eventType l s).

Definition prependOnceListener (eventType : string) (listenerFn : Listener)
    (includeUnhandledEvents : bool) (s : State) : State * Completion unit :=
  match super_prependOnceListener eventType listenerFn s with
  | (s, Done _) =>
      replayOrClearMissedEvents includeUnhandledEvents eventType s
  | (s, Throws t) => (s, Throws t)
  end.

(** [waitOn], up to the return of the promise: the id of the wait and the
    state.  The timer of the promise and the [finally] callback run later
    ([finish]). *)
Definition waitOn (eventType : string) (listenerFn : option (Value -> bool))
    (timeoutMillis : option Z) (s : State) : nat * State * Completion unit :=
  let id := S (pendingIdCounter s) in
  let s :=
    {| registry := registry s;
       storeEventsWithoutListeners := storeEventsWithoutListeners s;
       onEventListenerAdded := onEventListenerAdded s; logger := logger s;
       pendingIdCounter := id;
       pendingWaitEventsById :=
         pendingWaitEventsById s
         ++ [(id, mkPendingWait eventType
                    ("Event (" +:+ eventType +:+ ") canceled"))];
       eventsToLog := eventsToLog s;
       storedEventsByType := storedEventsByType s;
       reemitterCountByEventType := reemitterCountByEventType s;
       closures :=
         <[id := mkClosure eventType listenerFn (default 30000 timeoutMillis)]>
           (closures s);
       promises := <[id := Waiting]> (promises s);
       trace := trace s |} in
  let s := stats ("waitOn:" +:+ eventType) s in
  let '(s, c) := on eventType (WaitCallback id) false s in
  (id, s, c).

(** The [finally] callback of the promise that [waitOn] returned. *)
Definition finish (id : nat) (s : State) : State :=
  match closures s !! id with
  | Some cl =>
      let s := off (cl_event cl) (WaitCallback id) s in
      set_pending (filter (fun w => w.1 <> id) (pendingWaitEventsById s)) s
  | None => s
  end.

(** The timer of the promise of wait [id] fires. *)
Definition timeout (id : nat) (s : State) : State :=
  match closures s !! id with
  | Some cl =>
      set_promises
        (<[id := settle_promise
                   (Failed ("Timeout waiting for " +:+ cl_event cl))
                   (default Waiting (promises s !! id))]> (promises s)) s
  | None => s
  end.

(** The loop of [cancelPendingEvents] over the waits that were pending. *)
Fixpoint cancel_loop (message : option string)
    (excludeEvents : option (list string))
    (events : list (nat * PendingWait)) (s : State) : State :=
  match events with
  | [] => s
  | (id, event) :: events =>
      if match excludeEvents with
         | Some ex => bool_decide (pw_event event ∈ ex)
         | None => false
         end
      then
        cancel_loop message excludeEvents events
          (set_pending (pendingWaitEventsById s ++ [(id, event)]) s)
      else
        let text := match message with
                    | Some m => if decide (m = "") then pw_message event else m
                    | None => pw_message event
                    end in
        cancel_loop message excludeEvents events
          (set_promises
             (<[id := settle_promise (Failed text)
                        (default Waiting (promises s !! id))]> (promises s))
             s)
  end.

Definition cancelPendingEvents (message : option string)
    (excludeEvents : option (list string)) (s : State) : State :=
  let s := set_stored ∅ s in
  let events := pendingWaitEventsById s in
  cancel_loop message excludeEvents events (set_pending [] s).

(** [setEventsToLog(logger, events)]; [hasStats] tells whether [logger] is
    there and has a [stats] function. *)
Definition setEventsToLog (hasStats : bool) (events : list string) (s : State)
  : State :=
  {| registry := registry s;
     storeEventsWithoutListeners := storeEventsWithoutListeners s;
     onEventListenerAdded := onEventListenerAdded s; logger := hasStats;
     pendingIdCounter := pendingIdCounter s;
     pendingWaitEventsById := pendingWaitEventsById s;
     eventsToLog := list_to_set events;
     storedEventsByType := storedEventsByType s;
     reemitterCountByEventType := reemitterCountByEventType s;
     closures := closures s; promises := promises s; trace := trace s |}.

(** [addEventEmitter]: for each event type, a handler that emits on
    [emitter] is registered with the runtime's [on]. *)
Definition addEventEmitter (emitter : nat) (eventTypes : list string)
    (s : State) : State :=
  foldl
    (fun s eventName =>
       let s := super_on eventName (Reemit emitter) s in
       {| registry := registry s;
          storeEventsWithoutListeners := storeEventsWithoutListeners s;
          onEventListenerAdded := onEventListenerAdded s; logger := logger s;
          pendingIdCounter := pendingIdCounter s;
          pendingWaitEventsById := pendingWaitEventsById s;
          eventsToLog := eventsToLog s;
          storedEventsByType := storedEventsByType s;
          reemitterCountByEventType :=
            <[eventName :=
                S (default 0%nat (reemitterCountByEventType s !! eventName))]>
              (reemitterCountByEventType s);
          closures := closures s; promises := promises s;
          trace := trace s |})
    s eventTypes.

(** What a user of the emitter does with functions of its own, without
    [once] and without the unguarded [removeListener]. *)
Inductive Op :=
| On (eventType : string) (n : nat) (includeUnhandledEvents : bool)
| Off (eventType : string) (n : nat)
| PrependListener (eventType : string) (n : nat)
    (includeUnhandledEvents : bool)
| Emit (eventType : string) (event : Value) (sendInitiator : option Value)
| WaitOn (eventType : string) (listenerFn : option (Value -> bool))
    (timeoutMillis : option Z)
| Finish (id : nat)
| TimerElapsed (id : nat)
| CancelPendingEvents (message : option string)
    (excludeEvents : option (list string))
| SetEventsToLog (hasStats : bool) (events : list string)
| AddEventEmitter (emitter : nat) (eventTypes : list string)
| SetStoreEventsWithoutListeners (b : bool)
| SetOnEventListenerAdded (b : bool).

Definition apply (s : State) (op : Op) : State :=
  match op with
  | On t n b => (on t (Fn n) b s).1
  | Off t n => off t (Fn n) s
  | PrependListener t n b => (prependListener t (Fn n) b s).1
  | Emit t e i => (emit t e i s).1
  | WaitOn t f ms => (waitOn t f ms s).1.2
  | Finish id => finish id s
  | TimerElapsed id => timeout id s
  | CancelPendingEvents m ex => cancelPendingEvents m ex s
  | SetEventsToLog hasStats events => setEventsToLog hasStats events s
  | AddEventEmitter emitter types => addEventEmitter emitter types s
  | SetStoreEventsWithoutListeners b => set_storeEventsWithoutListeners b s
  | SetOnEventListenerAdded b => set_onEventListenerAdded b s
  end.

(** [excludeEvents && excludeEvents.includes(event.event)] *)
Definition excluded (excludeEvents : option (list string)) (w : PendingWait)
  : bool :=
  match excludeEvents with
  | Some ex => bool_decide (pw_event w ∈ ex)
  | None => false
  end.

(** The message of the error that a cancelled wait is rejected with. *)
Definition cancel_text (message : option string) (w : PendingWait) : string :=
  match message with
  | Some m => if decide (m = "") then pw_message w else m
  | None => pw_message w
  end.


(** Emit [events] one after the other. *)
Definition emit_all (eventType : string) (events : list Value) (s : State)
  : State :=
  foldl (fun s e => (emit eventType e None s).1) s events.

End Emitter.

(** The part of the emitter's state that names the waits: the counter and
    the table of pending waits. *)
Definition waits (s : Emitter.State)
  : nat * list (nat * Emitter.PendingWait) :=
  (Emitter.pendingIdCounter s, Emitter.pendingWaitEventsById s).

(** The ids of the pending waits are pairwise distinct and were all handed
    out by the counter. *)
Definition waits_fresh (s : Emitter.State) : Prop :=
  NoDup ((Emitter.pendingWaitEventsById s).*1)
  /\ Forall (fun iw => (iw.1 <= Emitter.pendingIdCounter s)%nat)
       (Emitter.pendingWaitEventsById s).


(** Emitters and events for examples. *)
Module EmitterSample.

Definition one : Emitter.Value := Emitter.Primitive (JNum 1).

Definition two : Emitter.Value := Emitter.Primitive (JNum 2).


(** A new emitter that stores the events nobody listens to. *)
Definition storing : Emitter.State :=
  Emitter.set_storeEventsWithoutListeners true Emitter.new.

(** The same after two ['data'] events. *)
Definition stored : Emitter.State :=
  Emitter.emit_all "data" [one; two] storing.

(** A new emitter after [waitOn('close')]. *)
Definition one_wait : Emitter.State :=
  (Emitter.waitOn "close" None None Emitter.new).1.2.

(** And after [waitOn('open')] as well. *)
Definition two_waits : Emitter.State :=
  (Emitter.waitOn "open" None None one_wait).1.2.

End EmitterSample.

(** * Logger (lib/Logger.ts)

    The functions that turn log data into what is printed, and the
    subscriptions to log entries. *)

Module Logger.

(** The kinds of values that the logger tells apart.  An [Error] is given by
    what its [toString()] returns and by whether the has-been-logged mark
    can be defined on it ([markable]: it cannot on an [Error] that is not
    extensible, a frozen one for instance, and does not carry the mark yet);
    a [Buffer] by its length, its base64 text and its [toString()], a
    function by its source text, an object by what its [toJSON()] returns,
    if it has one, and by its own enumerable properties in the order of
    [Object.entries]; objects have the [toString] of [Object].  Numbers are
    integers here. *)
#[local] Unset Elimination Schemes.

Inductive Value :=
| VUndefined
| VNull
| VBool (b : bool)
| VNum (z : Z)
| VStr (s : string)
| VBigInt (z : Z)
| VError (text : string) (markable : bool)
| VRegExp (source flags : string)
| VBuffer (length : nat) (base64 : string) (text : string)
| VFunction (text : string)
| VArray (items : list Value)
| VObject (toJSON : option Value) (entries : list (string * Value)).

#[local] Set Elimination Schemes.

(** The key under which a value is found: a property name, or the index in
    an array. *)
Inductive Key :=
| Name (s : string)
| Index (i : nat).

(** [key === 'password' || key === 'suri'] *)
Definition is_secret (key : Key) : bool :=
  match key with
  | Name s => bool_decide (s = "password") || bool_decide (s = "suri")
  | Index _ => false
  end.

Fixpoint translateValueToPrintable (key : Key) (value : Value) (depth : nat)
    {struct value} : Value :=
  match value with
  | VUndefined | VNull => VUndefined
  | _ =>
  if is_secret key then VStr "********" else
  match value with
  | VError text _ => VStr text
  | VRegExp source flags => VStr ("/" +:+ source +:+ "/" +:+ flags)
  | VBigInt z => VStr (pretty z +:+ "n")
  | VBuffer length base64 _ =>
      if (length <=? 256)%nat then VStr ("b64\" +:+ base64)
      else VStr ("<Buffer: " +:+ pretty length +:+ " bytes>")
  | VStr _ | VNum _ | VBool _ => value
  | _ =>
  if (2 <? depth)%nat then value else
  match value with
  | VObject (Some json) _ => json
  | VArray items =>
      VArray
        ((fix map_items (i : nat) (items : list Value) : list Value :=
            match items with
            | [] => []
            | x :: items =>
                translateValueToPrintable (Index i) x (S depth)
                :: map_items (S i) items
            end) 0%nat items)
  | VObject None entries =>
      VObject None
        ((fix map_entries (entries : list (string * Value))
            : list (string * Value) :=
            match entries with
            | [] => []
            | (subKey, subValue) :: entries =>
                if decide (subKey = "__proto__") then map_entries entries
                else
                (subKey,
                 translateValueToPrintable (Name subKey) subValue (S depth))
                :: map_entries entries
            end) entries)
  | _ => VUndefined
  end
  end
  end.

(** [result.error]: the [Error] found in the data, or the one made from the
    object or from the string under the key ['error']. *)
Inductive ErrorOut :=
| TheError (text : string)
| ErrorFromObject (value : Value)
| ErrorFromString (message : string).

Record Printable := mkPrintable {
  error : option ErrorOut;
  printData : list (string * Value);
}.

Inductive Completion (A : Type) :=
| Done (a : A)
| ThrowsTypeError.

Arguments Done {A} a.
Arguments ThrowsTypeError {A}.

(** [typeof value === 'object'] *)
Definition is_object (value : Value) : bool :=
  match value with
  | VNull | VError _ _ | VRegExp _ _ | VBuffer _ _ _ | VArray _
  | VObject _ _ =>
      true
  | _ => false
  end.

(** The property [key] of an object is given the value [value]: it keeps
    its place if it is there, and is added at the end if not. *)
Fixpoint set_property (key : string) (value : Value)
    (object : list (string * Value)) : list (string * Value) :=
  match object with
  | [] => [(key, value)]
  | (k, v) :: object =>
      if decide (k = key) then (k, value) :: object
      else (k, v) :: set_property key value object
  end.

(** [object[key] = value] on an object made by [{}]: the key [__proto__] is
    the accessor of [Object.prototype], so the assignment changes the
    prototype, or nothing, and no property of the object itself. *)
Definition assign_property (key : string) (value : Value)
    (object : list (string * Value)) : list (string * Value) :=
  if decide (key = "__proto__") then object
  else set_property key value object.

(** The loop of [translateToPrintable] over [Object.entries(data)]. *)
Fixpoint translate_entries (entries : list (string * Value))
    (result : Printable) : Completion Printable :=
  match entries with
  | [] => Done result
  | (key, value) :: entries =>
      match value with
      | VError text markable =>
          if markable then
            translate_entries entries
              (mkPrintable (Some (TheError text)) (printData result))
          else ThrowsTypeError
      | _ =>
          if bool_decide (key = "error") then
            if is_object value then
              match value with
              | VNull => ThrowsTypeError
              | _ =>
                  translate_entries entries
                    (mkPrintable (Some (ErrorFromObject value))
                       (printData result))
              end
            else
              match value with
              | VStr message =>
                  translate_entries entries
                    (mkPrintable (Some (ErrorFromString message))
                       (printData result))
              | _ => translate_entries entries result
              end
          else
            match translateValueToPrintable (Name key) value 0 with
            | VUndefined | VNull => translate_entries entries result
            | printable =>
                translate_entries entries
                  (mkPrintable (error result)
                     (assign_property key printable (printData result)))
            end
      end
  end.

Definition translateToPrintable (data : list (string * Value))
    (result : option Printable) : Completion Printable :=
  translate_entries data (default (mkPrintable None []) result).

(** ** LogEvents *)

(** The [Map] of subscriptions: its entries, and the properties that were
    set on the object itself.  Functions are named by numbers. *)
Record Subscriptions := mkSubscriptions {
  map_entries : list (nat * nat);
  properties : gmap nat nat;
}.

(** [new Map()] *)
Definition no_subscriptions : Subscriptions := mkSubscriptions [] ∅.

Definition size (s : Subscriptions) : nat := List.length (map_entries s).

(** [subscriptions.delete(subscriptionId)] *)
Definition unsubscribe (subscriptionId : nat) (s : Subscriptions)
  : Subscriptions :=
  mkSubscriptions
    (filter (fun e => e.1 <> subscriptionId) (map_entries s))
    (properties s).

(** [subscriptions[id] = onLogFn]: a property of the object, not an entry of
    the map. *)
Definition subscribe (onLogFn : nat) (s : Subscriptions)
  : nat * Subscriptions :=
  let id := (size s + 1)%nat in
  (id, mkSubscriptions (map_entries s) (<[id := onLogFn]> (properties s))).

(** [subscriptions.forEach(x => x(entry))]: the functions called, in
    order. *)
Definition broadcast (s : Subscriptions) : list nat := (map_entries s).*2.

(** ** Log *)

Inductive LogLevel :=
| LStats
| LInfo
| LWarn
| LError.

Definition logLevels (level : LogLevel) : Z :=
  match level with
  | LStats => 0
  | LInfo => 1
  | LWarn => 2
  | LError => 3
  end.

(** JavaScript truthiness. *)
Definition truthy (value : Value) : bool :=
  match value with
  | VUndefined | VNull => false
  | VBool b => b
  | VNum z | VBigInt z => negb (z =? 0)
  | VStr s => negb (bool_decide (s = ""))
  | _ => true
  end.

(** The property key of a number. *)
Definition number_key (z : Z) : string := pretty z.

(** The property key that a value is turned into. *)
Fixpoint property_key (value : Value) : string :=
  match value with
  | VUndefined => "undefined"
  | VNull => "null"
  | VBool b => if b then "true" else "false"
  | VNum z => number_key z
  | VStr s => s
  | VBigInt z => pretty z
  | VError text _ => text
  | VRegExp source flags => "/" +:+ source +:+ "/" +:+ flags
  | VBuffer _ _ text => text
  | VFunction text => text
  | VArray items =>
      (fix join (items : list Value) : string :=
         match items with
         | [] => ""
         | x :: items =>
             (match x with
              | VUndefined | VNull => ""
              | _ => property_key x
              end)
             +:+ (match items with
                  | [] => ""
                  | _ => "," +:+ join items
                  end)
         end) items
  | VObject _ _ => "[object Object]"
  end.

(** [object[key]] on the properties of an object. *)
Fixpoint get_property (key : string) (object : list (string * Value))
  : Value :=
  match object with
  | [] => VUndefined
  | (k, v) :: object =>
      if decide (k = key) then v else get_property key object
  end.

(** [{ ...object, ...other }] *)
Definition spread (object other : list (string * Value))
  : list (string * Value) :=
  foldl (fun object kv => set_property kv.1 kv.2 object) object other.

Record LogEntry := mkLogEntry {
  id : nat;
  sessionId : Value;
  parentId : Value;
  timestamp : Z;
  millis : option Z;
  action : string;
  data : list (string * Value);
  level : LogLevel;
  module : string;
}.

(** A [Log] object; [millis] of an entry is [None] for [NaN]. *)
Record Log := mkLog {
  log_level : LogLevel;
  boundContext : list (string * Value);
  log_module : string;
  logtimeById : gmap string Z;
}.

(** What [console.log] is given: the parts of the line, and the parameters
    before [inspect] formats them. *)
Inductive Param :=
| PrintData (printData : list (string * Value))
| PrintError (error : ErrorOut).

Record ConsoleLine := mkConsoleLine {
  line_timestamp : Z;
  line_level : LogLevel;
  printablePath : string;
  line_action : string;
  millisAddon : option Z;
  params : list Param;
}.

(** The state that the [Log] objects share: the id counter, the session
    names, the subscriptions, and what has gone to the console, to
    [LogEvents.broadcast] and to the subscribers so far. *)
Record Globals := mkGlobals {
  logId : nat;
  loggerSessionIdNames : gmap string string;
  subscriptions : Subscriptions;
  console : list ConsoleLine;
  broadcasts : list LogEntry;
  delivered : list (nat * LogEntry);
}.

(** [s.replace(pattern, replacement)] for a string pattern: the first
    occurrence. *)
Fixpoint replace (pattern replacement : string) (s : string) : string :=
  if String.prefix pattern s
  then replacement
       +:+ String.substring (String.length pattern)
             (String.length s - String.length pattern) s
  else
    match s with
    | EmptyString => EmptyString
    | String c rest => String c (replace pattern replacement rest)
    end.

Definition logToConsole (level : LogLevel) (entry : LogEntry) (g : Globals)
  : Completion Globals :=
  let printablePath :=
    replace "build/" "" (replace ".ts" "" (replace ".js" "" (module entry))) in
  match translateToPrintable (data entry) None with
  | ThrowsTypeError => ThrowsTypeError
  | Done result =>
      let printData :=
        match level with
        | LWarn | LError =>
            set_property "sessionName"
              (match sessionId entry with
               | VStr name =>
                   match loggerSessionIdNames g !! name with
                   | Some sessionName => VStr sessionName
                   | None => VUndefined
                   end
               | _ => VUndefined
               end)
              (set_property "sessionId" (sessionId entry) (printData result))
        | _ => printData result
        end in
      let params :=
        (match printData with
         | [] => []
         | _ => [PrintData printData]
         end)
        ++ (match error result with
            | Some error => [PrintError error]
            | None => []
            end) in
      let millisAddon :=
        match millis entry with
        | Some m => if m =? 0 then None else Some m
        | None => None
        end in
      Done
        (mkGlobals (logId g) (loggerSessionIdNames g) (subscriptions g)
           (console g
            ++ [mkConsoleLine (timestamp entry) (level) printablePath
                  (action entry) millisAddon params])
           (broadcasts g) (delivered g))
  end.

(** The loop of [log] over the entries of the merged data. *)
Fixpoint split_data (entries : list (string * Value))
    (parentId sessionId : Value) (logData : list (string * Value))
  : Value * Value * list (string * Value) :=
  match entries with
  | [] => (parentId, sessionId, logData)
  | (key, val) :: entries =>
      if decide (key = "parentLogId")
      then split_data entries val sessionId logData
      else if decide (key = "sessionId")
      then split_data entries parentId val logData
      else split_data entries parentId sessionId
             (assign_property key val logData)
  end.

(** The entry that [log] makes, at the time [now]. *)
Definition make_entry (level : LogLevel) (action : string)
    (data : option (list (string * Value))) (now : Z) (this : Log)
    (id : nat) : LogEntry :=
  let mergedData :=
    set_property "context" (VObject None (boundContext this))
      (default [] data) in
  let '(parentId, sessionId, logData) :=
    split_data mergedData VUndefined
      (get_property "sessionId" (boundContext this)) [] in
  let startTime :=
    if truthy parentId then logtimeById this !! property_key parentId
    else Some now in
  mkLogEntry id sessionId parentId now ((fun start => now - start) <$> startTime)
    action logData level (log_module this).

Definition log (level : LogLevel) (action : string)
    (data : option (list (string * Value))) (now : Z) (this : Log)
    (g : Globals) : Completion nat * Log * Globals :=
  let id := S (logId g) in
  let entry := make_entry level action data now this id in
  let this :=
    mkLog (log_level this) (boundContext this) (log_module this)
      (<[number_key (Z.of_nat id) := now]> (logtimeById this)) in
  let g :=
    mkGlobals id (loggerSessionIdNames g) (subscriptions g) (console g)
      (broadcasts g) (delivered g) in
  match (if logLevels (log_level this) <=? logLevels level
         then logToConsole level entry g else Done g) with
  | ThrowsTypeError => (ThrowsTypeError, this, g)
  | Done g =>
      (Done id, this,
       mkGlobals (logId g) (loggerSessionIdNames g) (subscriptions g)
         (console g) (broadcasts g ++ [entry])
         (delivered g ++ ((fun fn => (fn, entry)) <$> broadcast (subscriptions g))))
  end.

(** The constructor; [module] is the module path that
    [extractPathFromModule] gives, [enabled] the answer of [isEnabled] for
    it. *)
Definition new_Log (module : string)
    (boundContext : option (list (string * Value))) (enabled : bool) : Log :=
  mkLog (if enabled then LStats else LError) (default [] boundContext) module ∅.

Definition createChild (module : string)
    (boundContext : option (list (string * Value))) (enabled : bool)
    (this : Log) : Log :=
  new_Log module
    (Some (spread (Logger.boundContext this) (default [] boundContext)))
    enabled.

(** The [Log] objects of a program, and what they share. *)
Record System := mkSystem {
  objects : list Log;
  globals : Globals;
}.

Inductive Call :=
| NewLog (module : string) (boundContext : option (list (string * Value)))
    (enabled : bool)
| CreateChild (this : nat) (module : string)
    (boundContext : option (list (string * Value))) (enabled : bool)
| LogCall (this : nat) (level : LogLevel) (action : string)
    (data : option (list (string * Value))) (now : Z)
| SubscribeCall (onLogFn : nat)
| UnsubscribeCall (subscriptionId : nat).

Definition with_subscriptions (subs : Subscriptions) (g : Globals)
  : Globals :=
  mkGlobals (logId g) (loggerSessionIdNames g) subs (console g)
    (broadcasts g) (delivered g).

Definition call (s : System) (c : Call) : System :=
  match c with
  | NewLog module boundContext enabled =>
      mkSystem (objects s ++ [new_Log module boundContext enabled])
        (globals s)
  | CreateChild this module boundContext enabled =>
      match objects s !! this with
      | Some log =>
          mkSystem (objects s ++ [createChild module boundContext enabled log])
            (globals s)
      | None => s
      end
  | LogCall this level action data now =>
      match objects s !! this with
      | Some l =>
          let '(_, l, g) := log level action data now l (globals s) in
          mkSystem (<[this := l]> (objects s)) g
      | None => s
      end
  | SubscribeCall onLogFn =>
      mkSystem (objects s)
        (with_subscriptions (subscribe onLogFn (subscriptions (globals s))).2
           (globals s))
  | UnsubscribeCall subscriptionId =>
      mkSystem (objects s)
        (with_subscriptions
           (unsubscribe subscriptionId (subscriptions (globals s)))
           (globals s))
  end.

(** The program starts without [Log] objects, log ids and
    subscriptions. *)
Definition boot : System :=
  mkSystem [] (mkGlobals 0 ∅ no_subscriptions [] [] []).

(** ** What is printed *)

(** The mask, or nothing. *)
Definition is_mask (value : Value) : bool :=
  match value with
  | VUndefined => true
  | VStr s => bool_decide (s = "********")
  | _ => false
  end.

(** Down to [levels] levels of properties, every property named [password]
    or [suri] holds the mask. *)
Fixpoint masked (levels : nat) (value : Value) {struct levels} : bool :=
  match levels with
  | O => true
  | S levels =>
      match value with
      | VObject _ entries =>
          forallb (fun kv => if is_secret (Name kv.1) then is_mask kv.2
                             else masked levels kv.2) entries
      | VArray items => forallb (masked levels) items
      | _ => true
      end
  end.

(** Down to [levels] levels, no object has a [toJSON]. *)
Fixpoint plain (levels : nat) (value : Value) {struct levels} : bool :=
  match levels with
  | O => true
  | S levels =>
      match value with
      | VObject (Some _) _ => false
      | VObject None entries => forallb (fun kv => plain levels kv.2) entries
      | VArray items => forallb (plain levels) items
      | _ => true
      end
  end.

(** What [translateToPrintable] cannot take: the property [error] with the
    value [null], which it tries to take apart, or an [Error] on which the
    has-been-logged mark cannot be defined. *)
Definition unprintable (data : list (string * Value)) : Prop :=
  ("error", VNull) ∈ data \/ exists key text, (key, VError text false) ∈ data.

(** The values that have no properties to go through: neither arrays nor
    objects nor functions. *)
Definition flat (value : Value) : bool :=
  match value with
  | VArray _ | VObject _ _ | VFunction _ => false
  | _ => true
  end.

(** The keys of the data that [log] does not pass on as they are:
    [parentLogId] and [sessionId] are taken out, [context] is replaced by
    the bound context, and [__proto__] is not a property of the log data. *)
Definition reserved_keys : list string :=
  ["context"; "parentLogId"; "sessionId"; "__proto__"].

End Logger.

(** Log data for examples. *)
Module LoggerSample.

Definition user : Logger.Value :=
  Logger.VObject None
    [("name", Logger.VStr "ann"); ("password", Logger.VStr "pw")].

Definition data : list (string * Logger.Value) :=
  [("user", user); ("suri", Logger.VStr "//ann"); ("gone", Logger.VNull);
   ("error", Logger.VStr "boom")].

Definition printed : Logger.Printable :=
  Logger.mkPrintable (Some (Logger.ErrorFromString "boom"))
    [("user",
      Logger.VObject None
        [("name", Logger.VStr "ann"); ("password", Logger.VStr "********")]);
     ("suri", Logger.VStr "********")].

(** Data with an [Error] that is frozen. *)
Definition frozen : list (string * Logger.Value) :=
  [("count", Logger.VNum 1); ("cause", Logger.VError "Error: boom" false)].

End LoggerSample.

(** A program with two [Log] objects for examples. *)
Module LogSample.

(** An enabled [Log] object and a child of it. *)
Definition setup : list Logger.Call :=
  [Logger.NewLog "net/socket" None true;
   Logger.CreateChild 0 "net/child" None true].

(** The child logs something, after the parent entry. *)
Definition between : list Logger.Call :=
  [Logger.LogCall 1 Logger.LInfo "other" None 1005].

Definition after : Logger.System :=
  foldl Logger.call
    (Logger.call (foldl Logger.call Logger.boot setup)
       (Logger.LogCall 0 Logger.LInfo "start" None 1000))
    between.

Definition parent : Logger.Log :=
  default (Logger.new_Log "" None false) (Logger.objects after !! 0%nat).

Definition child : Logger.Log :=
  default (Logger.new_Log "" None false) (Logger.objects after !! 1%nat).

(** A [Log] object of a module that is not enabled. *)
Definition quiet : Logger.Log := Logger.new_Log "other" None false.

End LogSample.

(** * SourceLoader

    The cache of file contents and of source lines.  What the class takes
    from its surroundings is a parameter: the cache key of a path
    ([SourceMapSupport.getCacheKey]), the original position of a code
    location ([SourceMapSupport.getOriginalSourcePosition]), [trim], the
    [URL] constructor, and the file system, which is an argument of each
    call as files change.  The [console.log] lines are left out.

    The two caches are objects made by [{}], used as maps.  Such an object
    inherits the members of [Object.prototype]: under their names something
    is found although nothing was stored, and the name [__proto__] is an
    accessor of the prototype, not a property that an assignment adds.
    [Object.prototype] is taken to be as the runtime provides it. *)

Module SourceLoader.

(** What [fs.readFileSync] is asked for: a path, or a [URL]. *)
Inductive Lookup :=
| AtPath (path : string)
| AtUrl (href : string).

(** The file system: the text of a file, or nothing if reading throws. *)
Definition Files := Lookup -> option string.

Inductive Completion (A : Type) :=
| Done (a : A)
| ThrowsTypeError.

Arguments Done {A} a.
Arguments ThrowsTypeError {A}.

(** The position that the source map gives for a code location, as far as
    [getSource] reads it. *)
Record SourcePosition := mkSourcePosition {
  source : string;
  line : Z;
  content : option string;
}.

(** The names that an object made by [{}] inherits from
    [Object.prototype].  What is found under them is a function, or, under
    [__proto__], the prototype itself: truthy, neither a string nor an
    array, and without properties named by numbers. *)
Definition inherited_names : list string :=
  ["constructor"; "__defineGetter__"; "__defineSetter__"; "hasOwnProperty";
   "__lookupGetter__"; "__lookupSetter__"; "isPrototypeOf";
   "propertyIsEnumerable"; "toString"; "valueOf"; "__proto__";
   "toLocaleString"].

Definition inherited (key : string) : bool :=
  bool_decide (key ∈ inherited_names).

(** The class: the properties of the two cache objects themselves,
    [cachePrototype] telling whether [fileContentsCache] still has
    [Object.prototype] as its prototype (an assignment of [null] to
    [__proto__] takes it away), and the file lookups made so far.
    [sourceLines] always has it: [getSource] assigns to a name only when
    nothing is found under it. *)
Record State := mkState {
  sourceLines : gmap string (list string);
  fileContentsCache : gmap string (option string);
  cachePrototype : bool;
  reads : list Lookup;
}.

(** What is found under a key of [fileContentsCache], and what
    [getFileContents] returns: a string or [null], or a member inherited
    from [Object.prototype]. *)
Inductive Contents :=
| Text (data : option string)
| Inherited (name : string).

(** Truthiness of a string or [null]. *)
Definition filled (data : option string) : bool :=
  match data with
  | Some text => negb (bool_decide (text = ""))
  | None => false
  end.

Definition truthy (contents : Contents) : bool :=
  match contents with
  | Text data => filled data
  | Inherited _ => true
  end.

(** [this.fileContentsCache[key]]; nothing found counts as [null]. *)
Definition cache_get (s : State) (key : string) : Contents :=
  match fileContentsCache s !! key with
  | Some data => Text data
  | None =>
      if cachePrototype s && inherited key then Inherited key else Text None
  end.

(** [this.fileContentsCache[key] = data].  Under the inherited accessor
    [__proto__] a string changes nothing and [null] takes the prototype
    away; every other assignment sets a property of the object. *)
Definition cache_set (key : string) (data : option string) (s : State)
  : State :=
  if cachePrototype s && bool_decide (key = "__proto__")
     && bool_decide (fileContentsCache s !! key = None)
  then
    match data with
    | Some _ => s
    | None => mkState (sourceLines s) (fileContentsCache s) false (reads s)
    end
  else
    mkState (sourceLines s) (<[key := data]> (fileContentsCache s))
      (cachePrototype s) (reads s).

(** The line feed and the carriage return. *)
Definition LF : Ascii.ascii := Ascii.ascii_of_nat 10.

Definition CR : Ascii.ascii := Ascii.ascii_of_nat 13.

Definition is_lf (c : Ascii.ascii) : bool := bool_decide (c = LF).

Definition is_cr (c : Ascii.ascii) : bool := bool_decide (c = CR).

(** Put a character in front of the first line. *)
Definition cons_first (c : Ascii.ascii) (lines : list string) : list string :=
  match lines with
  | [] => [String c ""]
  | first :: lines => String c first :: lines
  end.

(** [file.split(/\r?\n/)] *)
Fixpoint split_lines (file : string) : list string :=
  match file with
  | EmptyString => [""]
  | String c rest =>
      if is_lf c then "" :: split_lines rest
      else
        match rest with
        | String c' rest' =>
            if is_cr c && is_lf c' then "" :: split_lines rest'
            else cons_first c (split_lines rest)
        | EmptyString => cons_first c (split_lines rest)
        end
  end.

(** [filepath.startsWith('file://')] *)
Definition is_file_url (filepath : string) : bool :=
  String.prefix "file://" filepath.

(** [array[line - 1]] *)
Definition line_at (lines : list string) (line : Z) : option string :=
  if 0 <=? line - 1 then lines !! Z.to_nat (line - 1) else None.

Section Runtime.

Context {CodeLocation : Type}.

Variable getCacheKey : string -> string.

Variable getOriginalSourcePosition : CodeLocation -> SourcePosition.

Variable trim : string -> string.

(** [new URL(filepath)]: the URL, or nothing if the constructor throws. *)
Variable URL : string -> option string.

Definition resetCache (s : State) : State :=
  mkState ∅ ∅ true (reads s).

(** [delete this.fileContentsCache[filepath]]: the path itself is the key
    here. *)
Definition clearFileCache (filepath : string) (s : State) : State :=
  mkState (sourceLines s) (delete filepath (fileContentsCache s))
    (cachePrototype s) (reads s).

Definition setFileContents (filepath : string) (data : option string)
    (s : State) : State :=
  cache_set (getCacheKey filepath) data s.

Definition getFileContents (fs : Files) (filepath : string) (cache : bool)
    (s : State) : Completion Contents * State :=
  let cacheKey := getCacheKey filepath in
  if cache && truthy (cache_get s cacheKey) then (Done (cache_get s cacheKey), s)
  else
    match (if is_file_url filepath then AtUrl <$> URL filepath
           else Some (AtPath (trim filepath))) with
    | None => (ThrowsTypeError, s)
    | Some lookupFilepath =>
        let data := fs lookupFilepath in
        let s := mkState (sourceLines s) (fileContentsCache s)
                   (cachePrototype s) (reads s ++ [lookupFilepath]) in
        let s := if cache then cache_set cacheKey data s else s in
        (Done (Text data), s)
    end.

(** [getSource]: the position with the line of code, or [null].  Under a
    name that [sourceLines] inherits, something is found that has no lines:
    nothing is loaded and the code is [undefined].  What [getFileContents]
    returns may be such a member of the file cache, which cannot be
    split. *)
Definition getSource (fs : Files) (codeLocation : option CodeLocation)
    (s : State)
  : Completion (option (SourcePosition * option string)) * State :=
  match codeLocation with
  | None => (Done None, s)
  | Some codeLocation =>
      let sourcePosition := getOriginalSourcePosition codeLocation in
      let code := content sourcePosition in
      let with_code (s : State) :=
        (Done (Some (sourcePosition,
                     line_at (default [] (sourceLines s
                                            !! source sourcePosition))
                       (line sourcePosition))), s) in
      match sourceLines s !! source sourcePosition with
      | Some _ => with_code s
      | None =>
          if inherited (source sourcePosition)
          then (Done (Some (sourcePosition, None)), s)
          else
          let '(file, s) :=
            if filled code then (Done (Text code), s)
            else getFileContents fs (source sourcePosition) true s in
          match file with
          | ThrowsTypeError => (ThrowsTypeError, s)
          | Done (Inherited _) => (ThrowsTypeError, s)
          | Done (Text file) =>
              match file with
              | Some text =>
                  if bool_decide (text = "") then (Done None, s)
                  else
                    with_code
                      (mkState
                         (<[source sourcePosition := split_lines text]>
                            (sourceLines s))
                         (fileContentsCache s) (cachePrototype s) (reads s))
              | None => (Done None, s)
              end
          end
      end
  end.

(** What is called on the class. *)
Inductive Op :=
| ResetCache
| ClearFileCache (filepath : string)
| SetFileContents (filepath : string) (data : option string)
| GetFileContents (fs : Files) (filepath : string) (cache : bool)
| GetSource (fs : Files) (codeLocation : option CodeLocation).

Definition apply (s : State) (op : Op) : State :=
  match op with
  | ResetCache => resetCache s
  | ClearFileCache filepath => clearFileCache filepath s
  | SetFileContents filepath data => setFileContents filepath data s
  | GetFileContents fs filepath cache =>
      (getFileContents fs filepath cache s).2
  | GetSource fs codeLocation => (getSource fs codeLocation s).2
  end.

Definition is_reset (op : Op) : bool :=
  match op with ResetCache => true | _ => false end.

End Runtime.

(** Lines joined with a line terminator. *)
Fixpoint join_lines (terminator : string) (lines : list string) : string :=
  match lines with
  | [] => ""
  | [last] => last
  | l :: lines => l +:+ terminator +:+ join_lines terminator lines
  end.

(** The text has no line feed. *)
Fixpoint no_lf (text : string) : bool :=
  match text with
  | EmptyString => true
  | String c rest => negb (is_lf c) && no_lf rest
  end.

(** The text does not end with a carriage return. *)
Fixpoint no_cr_at_end (text : string) : bool :=
  match text with
  | EmptyString => true
  | String c EmptyString => negb (is_cr c)
  | String _ rest => no_cr_at_end rest
  end.

End SourceLoader.

(** A runtime and files for examples. *)
Module SourceLoaderSample.

Definition getCacheKey (filepath : string) : string := "key:" +:+ filepath.

Definition text : string :=
  SourceLoader.join_lines (String SourceLoader.LF "") ["one"; "two"].

(** Code locations are line numbers of the file [a.ts], whose text the
    source map holds. *)
Definition getOriginalSourcePosition (codeLocation : nat)
  : SourceLoader.SourcePosition :=
  SourceLoader.mkSourcePosition "a.ts" (Z.of_nat codeLocation) (Some text).

Definition trim (filepath : string) : string := filepath.

Definition URL (filepath : string) : option string := Some filepath.

Definition no_files : SourceLoader.Files := fun _ => None.

Definition other_files : SourceLoader.Files := fun _ => Some "else".

Definition empty : SourceLoader.State := SourceLoader.mkState ∅ ∅ true [].

Definition getSource :=
  SourceLoader.getSource getCacheKey getOriginalSourcePosition trim URL.

Definition getFileContents :=
  SourceLoader.getFileContents getCacheKey trim URL.

Definition setFileContents := SourceLoader.setFileContents getCacheKey.

(** The state after [getSource] for line 1. *)
Definition loaded : SourceLoader.State :=
  (getSource no_files (Some 1%nat) empty).2.

End SourceLoaderSample.

(** * Properties *)

(** ** The pending table *)

Section PendingFacts.

Implicit Types (pm : PendingMessages) (id : string) (r : Result).

Lemma resolve_complete id v pm :
  Pending.resolve id v pm = complete id (Ok v) pm.
Proof. reflexivity. Qed.


Lemma settle_same id r (s : gmap string Result) :
  s !! id = None -> Pending.settle id r s !! id = Some r.
Proof.
  intros Hs. unfold Pending.settle. rewrite Hs. apply lookup_insert_eq.
Qed.

Lemma settle_other id id' r (s : gmap string Result) :
  id <> id' -> Pending.settle id r s !! id' = s !! id'.
Proof.
  intros Hne. unfold Pending.settle.
  destruct (s !! id); [done|]. by apply lookup_insert_ne.
Qed.

Lemma complete_entries_same id r pm : entries (complete id r pm) !! id = None.
Proof.
  unfold complete. destruct (entries pm !! id) eqn:E; simpl; [|done].
  apply lookup_delete_eq.
Qed.

Lemma complete_entries_other id id' r pm :
  id <> id' -> entries (complete id r pm) !! id' = entries pm !! id'.
Proof.
  intros Hne. unfold complete. destruct (entries pm !! id); simpl; [|done].
  by apply lookup_delete_ne.
Qed.

Lemma complete_settled_same id r pm pe :
  entries pm !! id = Some pe -> settled pm !! id = None ->
  settled (complete id r pm) !! id = Some r.
Proof.
  intros He Hs. unfold complete. rewrite He. simpl. by apply settle_same.
Qed.

Lemma complete_settled_other id id' r pm :
  id <> id' -> settled (complete id r pm) !! id' = settled pm !! id'.
Proof.
  intros Hne. unfold complete. destruct (entries pm !! id); simpl; [|done].
  by apply settle_other.
Qed.

(** A completion that is already there is never replaced. *)
Lemma complete_settled_keeps id id' r r' pm :
  settled pm !! id' = Some r' -> settled (complete id r pm) !! id' = Some r'.
Proof.
  intros Hs. unfold complete. destruct (entries pm !! id); simpl; [|done].
  unfold Pending.settle. destruct (settled pm !! id) eqn:E; [done|].
  destruct (decide (id = id')) as [->|Hne]; [congruence|].
  by rewrite lookup_insert_ne.
Qed.

(** After a mass cancel the table holds the internal entries only. *)
Lemma cancel_entries e pm id :
  entries (Pending.cancel e pm) !! id
  = match entries pm !! id with
    | Some pe => if pe_internal pe then Some pe else None
    | None => None
    end.
Proof. simpl. rewrite lookup_omap. by destruct (entries pm !! id). Qed.

Lemma cancel_settled_keeps e pm id r :
  settled pm !! id = Some r -> settled (Pending.cancel e pm) !! id = Some r.
Proof. intros Hs. simpl. by apply lookup_union_Some_l. Qed.

Lemma cancel_settled_fails e pm id pe :
  entries pm !! id = Some pe -> pe_internal pe = false ->
  settled pm !! id = None ->
  settled (Pending.cancel e pm) !! id = Some (Err e).
Proof.
  intros He Hi Hs. simpl. rewrite lookup_union_r; [|done].
  by rewrite lookup_omap, He; simpl; rewrite Hi.
Qed.

(** An internal entry is not completed by a mass cancel. *)
Lemma cancel_settled_exempt e pm id pe :
  entries pm !! id = Some pe -> pe_internal pe = true ->
  settled pm !! id = None ->
  settled (Pending.cancel e pm) !! id = None.
Proof.
  intros He Hi Hs. simpl. rewrite lookup_union_r; [|done].
  by rewrite lookup_omap, He; simpl; rewrite Hi.
Qed.

Lemma delete_entries_same id pm : entries (Pending.delete id pm) !! id = None.
Proof. simpl. apply lookup_delete_eq. Qed.

End PendingFacts.

(** ** C1: what the implicit connect of sendRequest records *)

(** [connect] records its [isAutoConnect] argument when it creates the
    connect promise. *)
Lemma connect_records_argument isAutoConnect timeoutMs now c :
  connectPromise c = None ->
  didAutoConnect (connect isAutoConnect timeoutMs now c).1 = isAutoConnect.
Proof.
  intros Hnone. unfold connect. rewrite Hnone.
  destruct (hasConnect _); reflexivity.
Qed.

(** C1, amended: a [sendRequest] entered while neither [isSendingConnect]
    nor [isSendingDisconnect] is true and no [connectPromise] exists starts
    the connect (the promise is created and the transport connect awaited)
    with [connect]'s default [isAutoConnect = false], so it records
    [didAutoConnect = false]; [connect] records true only when it is called
    with [isAutoConnect = true]. *)
Theorem sendRequest_connect_is_not_auto payload timeoutMs now c :
  isSendingConnect c = false ->
  isSendingDisconnect c = false ->
  connectPromise c = None ->
  exists c',
    sendRequest payload timeoutMs now c
    = (c', [ConnectAwaitsTransport (hasConnect (transport c))],
       Suspended (SendAwaitsConnect payload timeoutMs))
    /\ c' = (connect false 30000 now c).1
    /\ connectPromise c' = Some Pending
    /\ didAutoConnect c' = false
    /\ (forall isAutoConnect timeoutMs',
          didAutoConnect (connect isAutoConnect timeoutMs' now c).1
          = isAutoConnect).
Proof.
  intros Hc Hd Hnone. unfold sendRequest. rewrite Hc, Hd. simpl.
  pose proof (fun a t => connect_records_argument a t now c Hnone) as Hrec.
  unfold connect in *. rewrite Hnone in *. simpl.
  destruct (hasConnect (transport c)); eexists; repeat split; apply Hrec.
Qed.

Lemma sendRequest_connect_is_not_auto_witness :
  exists c',
    sendRequest Sample.ping None 0 Sample.fresh
    = (c', [ConnectAwaitsTransport true],
       Suspended (SendAwaitsConnect Sample.ping None))
    /\ c' = (connect false 30000 0 Sample.fresh).1
    /\ connectPromise c' = Some Pending
    /\ didAutoConnect c' = false
    /\ (forall isAutoConnect timeoutMs',
          didAutoConnect (connect isAutoConnect timeoutMs' 0 Sample.fresh).1
          = isAutoConnect).
Proof.
  apply (sendRequest_connect_is_not_auto Sample.ping None 0 Sample.fresh);
    reflexivity.
Defined.

(** C1 as stated fails: on a fresh controller the connect that [sendRequest]
    triggers leaves [didAutoConnect] false. *)
Lemma sendRequest_didAutoConnect_counterexample :
  isSendingConnect Sample.fresh = false
  /\ isSendingDisconnect Sample.fresh = false
  /\ connectPromise Sample.fresh = None
  /\ didAutoConnect (sendRequest Sample.ping None 0 Sample.fresh).1.1 <> true.
Proof. repeat split; vm_compute; discriminate. Qed.

(** ** C3: error remapping in onResponse *)

Lemma scrub_marker e : err_isDisconnecting (scrub e) = None.
Proof. reflexivity. Qed.




Lemma disconnected_kind_DisconnectedError h m :
  disconnected_kind h (DisconnectedError h m).
Proof. split; reflexivity. Qed.





(** ** C4: the error paths of sendRequest *)

Lemma sendRequest_finally_pending ic idc c :
  pendingMessages (sendRequest_finally ic idc c) = pendingMessages c.
Proof. destruct ic, idc; reflexivity. Qed.

Lemma sendRequest_finally_effects ic idc c :
  effects (sendRequest_finally ic idc c) = effects c.
Proof. destruct ic, idc; reflexivity. Qed.

(** C4: when the awaited [Promise.all] of [sendRequest] fails with [error],
    the pending entry is removed with [delete]; if a disconnect is in
    progress and the error is a cancellation-kind error the call returns
    [undefined], and every other error is rethrown. *)
Theorem sendRequest_error_paths id isConnect isDisconnect error c :
  let after := sendRequest_complete id isConnect isDisconnect (Err error) c in
  (is_Some (disconnectPromise c) /\ err_canceled error = true ->
   after.2 = Returned JUndefined)
  /\ (~ (is_Some (disconnectPromise c) /\ err_canceled error = true) ->
      after.2 = Threw error)
  /\ effects after.1 = effects c ++ [PendingOp (PDelete id)]
  /\ entries (pendingMessages after.1) !! id = None.
Proof.
  intros after. subst after. unfold sendRequest_complete.
  change (disconnectPromise (pending_delete id c)) with (disconnectPromise c).
  destruct (bool_decide (is_Some (disconnectPromise c))) eqn:Hd;
    [apply bool_decide_eq_true in Hd | apply bool_decide_eq_false in Hd];
    destruct (err_canceled error) eqn:Hc; simpl;
    rewrite sendRequest_finally_effects, sendRequest_finally_pending.
  all: repeat split; try tauto; try (intros [? ?]; congruence);
    try apply lookup_delete_eq.
Qed.

Lemma sendRequest_error_paths_witness :
  let c :=
    (disconnect None 9
       (sendRequest_send false false Sample.ping None 0 Sample.fresh).1).1 in
  (sendRequest_complete "1" false false
     (Err (DisconnectedError "core:1818" None)) c).2 = Returned JUndefined
  /\ (sendRequest_complete "1" false false (Err Sample.boom) c).2
     = Threw Sample.boom.
Proof.
  intros c. split.
  - apply (sendRequest_error_paths "1" false false
             (DisconnectedError "core:1818" None) c).
    split; [eexists; reflexivity | reflexivity].
  - apply (sendRequest_error_paths "1" false false Sample.boom c).
    intros [_ H]. discriminate H.
Defined.

(** ** C5: the hook flags when a hook throws *)

(** When [afterConnectFn] rejects, [connect] goes to its [catch] handler
    with [isSendingConnect] as the hook left it. *)
Lemma connect_after_hook_throw_flag e c :
  isSendingConnect (connect_after_hook (Err e) c).1 = isSendingConnect c.
Proof.
  unfold connect_after_hook, connect_catch.
  destruct (connectPromise c); reflexivity.
Qed.

(** When [beforeDisconnectFn] rejects, [disconnect] only runs its [finally]
    block. *)
Lemma disconnect_after_hook_throw_flag e c :
  isSendingDisconnect (disconnect_after_hook true (Err e) c).1
  = isSendingDisconnect c.
Proof. reflexivity. Qed.

(** C5 fails on the code: with hooks that reject, [connect()] and then
    [disconnect()] both finish (nothing is left suspended, the connect
    promise is rejected and the disconnect promise resolved) and both
    [isSendingConnect] and [isSendingDisconnect] stay true. *)
Theorem hook_flags_stuck_after_throw :
  let w := run (start Sample.core false)
             [SetHooks Sample.both_hooks;
              CallConnect false 30000 1;
              Resume 0 (Ok JUndefined) 2;
              Resume 0 (Err Sample.boom) 3;
              CallDisconnect None 4;
              Resume 0 (Err Sample.boom) 5] in
  tasks w = []
  /\ connectPromise (conn w) = Some (Rejected Sample.boom)
  /\ disconnectPromise (conn w) = Some Fulfilled
  /\ isSendingConnect (conn w) = true
  /\ isSendingDisconnect (conn w) = true.
Proof. vm_compute. repeat split. Qed.

(** ** C9: the frame of a re-entrant disconnect *)

(** C9: a [disconnect(fatalError)] entered while [disconnectPromise] exists
    returns that promise; it overwrites [disconnectStartTime] and
    [disconnectError] and leaves every other field, the effect log and the
    set of suspended activations as they were. *)
Theorem disconnect_reentry_frame fatalError now p w :
  disconnectPromise (conn w) = Some p ->
  let c := conn w in
  disconnect fatalError now c
  = ({| connectPromise := connectPromise c;
        disconnectPromise := disconnectPromise c;
        connectStartTime := connectStartTime c;
        didAutoConnect := didAutoConnect c;
        disconnectStartTime := Some now;
        disconnectError := fatalError;
        hooks := hooks c;
        connectMessageId := connectMessageId c;
        disconnectMessageId := disconnectMessageId c;
        pendingMessages := pendingMessages c;
        isConnectionTerminated := isConnectionTerminated c;
        isSendingConnect := isSendingConnect c;
        isSendingDisconnect := isSendingDisconnect c;
        transport := transport c;
        terminationListener := terminationListener c;
        hasActiveSessions := hasActiveSessions c;
        effects := effects c |}, ReturnedPromise p)
  /\ tasks (step w (CallDisconnect fatalError now)) = tasks w
  /\ conn (step w (CallDisconnect fatalError now))
     = (disconnect fatalError now c).1.
Proof.
  intros Hp c. subst c.
  assert (Heq : disconnect fatalError now (conn w)
                = (set_disconnectError fatalError
                     (set_disconnectStartTime (Some now) (conn w)),
                   ReturnedPromise p)).
  { unfold disconnect. simpl. rewrite Hp. reflexivity. }
  split; [rewrite Heq; reflexivity|].
  unfold step. rewrite Heq. simpl. rewrite app_nil_r. split; reflexivity.
Qed.

Lemma disconnect_reentry_frame_witness :
  let w := run (start Sample.core false) [CallDisconnect None 4] in
  (disconnect (Some Sample.boom) 7 (conn w)).2 = ReturnedPromise Pending
  /\ disconnectError (disconnect (Some Sample.boom) 7 (conn w)).1
     = Some Sample.boom
  /\ tasks (step w (CallDisconnect (Some Sample.boom) 7))
     = [DisconnectAwaitsHook false].
Proof.
  intros w.
  destruct (disconnect_reentry_frame (Some Sample.boom) 7 Pending w eq_refl)
    as (Heq & Htasks & _).
  rewrite Heq, Htasks. repeat split.
Defined.

(** ** C6: what onConnectionTerminated synthesizes *)

Lemma reply_to_entries slot r pm id pe :
  slot <> Some id -> entries pm !! id = Some pe ->
  entries (reply_to slot r pm) !! id = Some pe.
Proof.
  intros Hne He. destruct slot as [id'|]; simpl; [|done].
  rewrite complete_entries_other; [done | congruence].
Qed.

Lemma reply_to_unsettled slot r pm id :
  slot <> Some id -> settled pm !! id = None ->
  settled (reply_to slot r pm) !! id = None.
Proof.
  intros Hne Hs. destruct slot as [id'|]; simpl; [|done].
  rewrite complete_settled_other; [done | congruence].
Qed.

Lemma reply_to_keeps slot r pm id r' :
  settled pm !! id = Some r' -> settled (reply_to slot r pm) !! id = Some r'.
Proof.
  intros Hs. destruct slot; simpl; [|done]. by apply complete_settled_keeps.
Qed.

Lemma reply_to_gone slot r pm id :
  slot = Some id -> entries (reply_to slot r pm) !! id = None.
Proof. intros ->. simpl. apply complete_entries_same. Qed.

(** Two synthesized replies followed by a mass cancel: each entry that was
    outstanding is completed by the first of the three that applies; the
    mass cancel applies to the entries that are not internal. *)
Lemma replies_then_cancel gone oc rc od rd pm id pe :
  entries pm !! id = Some pe -> settled pm !! id = None ->
  settled (Pending.cancel gone (reply_to od rd (reply_to oc rc pm))) !! id
  = if decide (oc = Some id) then Some rc
    else if decide (od = Some id) then Some rd
    else if pe_internal pe then None
    else Some (Err gone).
Proof.
  intros He Hs.
  destruct (decide (oc = Some id)) as [->|Hc].
  - apply cancel_settled_keeps, reply_to_keeps. simpl.
    by eapply complete_settled_same.
  - destruct (decide (od = Some id)) as [->|Hd].
    + apply cancel_settled_keeps. simpl.
      eapply complete_settled_same;
        eauto using reply_to_entries, reply_to_unsettled.
    + destruct (pe_internal pe) eqn:Hi.
      * eapply cancel_settled_exempt;
          eauto using reply_to_entries, reply_to_unsettled.
      * eapply cancel_settled_fails;
          eauto using reply_to_entries, reply_to_unsettled.
Qed.

(** What is left in the table after them: the internal entries that
    neither reply was for. *)
Lemma replies_then_cancel_entries gone oc rc od rd pm id :
  entries (Pending.cancel gone (reply_to od rd (reply_to oc rc pm))) !! id
  = if decide (oc = Some id) then None
    else if decide (od = Some id) then None
    else match entries pm !! id with
         | Some pe => if pe_internal pe then Some pe else None
         | None => None
         end.
Proof.
  rewrite cancel_entries.
  destruct (decide (oc = Some id)) as [->|Hc].
  - destruct od as [id'|]; simpl.
    + destruct (decide (id' = id)) as [->|Hne].
      * by rewrite complete_entries_same.
      * by rewrite complete_entries_other, complete_entries_same.
    + by rewrite complete_entries_same.
  - destruct (decide (od = Some id)) as [->|Hd].
    + by rewrite reply_to_gone.
    + assert (Hsame : entries (reply_to od rd (reply_to oc rc pm)) !! id
                      = entries pm !! id).
      { destruct od as [id'|], oc as [id''|]; simpl;
          rewrite ?complete_entries_other by congruence; reflexivity. }
      by rewrite Hsame.
Qed.

Lemma delivered_error_gone h c :
  host (transport c) = h ->
  delivered_error c (DisconnectedError h None) = DisconnectedError h None.
Proof. intros <-. unfold delivered_error. destruct (_ && _); reflexivity. Qed.

Lemma onResponse_null id c :
  onResponse id (DVal JNull) c = onResponse_reply id (Ok JNull) c.
Proof. reflexivity. Qed.

Lemma onResponse_gone h id c :
  host (transport c) = h ->
  onResponse id (DErr (DisconnectedError h None)) c
  = onResponse_reply id (Err (DisconnectedError h None)) c.
Proof.
  intros Hh. unfold onResponse. rewrite delivered_error_gone by done.
  reflexivity.
Qed.

(** The first run of [onConnectionTerminated]. *)
Lemma onConnectionTerminated_first x :
  isConnectionTerminated x = false ->
  effects (onConnectionTerminated x).1 = effects x ++ termination_effects x
  /\ pendingMessages (onConnectionTerminated x).1
     = Pending.cancel (DisconnectedError (host (transport x)) None)
         (reply_to (truthy_id (disconnectMessageId x)) (Ok JNull)
            (reply_to (truthy_id (connectMessageId x))
               (if didAutoConnect x then Ok JNull
                else Err (DisconnectedError (host (transport x)) None))
               (pendingMessages x)))
  /\ (onConnectionTerminated x).2
     = Suspended (TerminatedAwaitsHook (beforeDisconnectFn (hooks x))).
Proof.
  intros Hfirst. unfold onConnectionTerminated, termination_effects.
  rewrite Hfirst. cbv zeta.
  cbn [connectMessageId disconnectMessageId didAutoConnect log
       set_isConnectionTerminated set_effects].
  destruct (truthy_id (connectMessageId x)) as [cid|];
    destruct (didAutoConnect x);
    cbn [negb];
    rewrite ?onResponse_null, ?onResponse_gone by reflexivity;
    cbn [connectMessageId disconnectMessageId onResponse_reply log
         set_pendingMessages set_effects set_isConnectionTerminated];
    destruct (truthy_id (disconnectMessageId x)) as [did|];
    rewrite ?onResponse_null;
    destruct (beforeDisconnectFn (hooks x)) eqn:Hhook;
    cbn; rewrite ?Hhook; cbn; rewrite <- ?app_assoc; repeat split.
Qed.

(** C6: on the first transport-level termination [onConnectionTerminated]
    emits [disconnected]; if [connectMessageId] is set it synthesizes a
    response for that id, [null] when the connect was auto-initiated and a
    disconnected-kind error naming the transport host otherwise; if
    [disconnectMessageId] is set it synthesizes a [null] response for it;
    then it cancels the pending table with a disconnected-kind error.  Of
    the entries that were outstanding, the two named by the id slots are
    completed by their synthesized response and every other entry that is
    not internal by the disconnected-kind error; an internal entry that
    neither slot names is exempt from the cancel: it is not completed and
    stays in the table, and nothing else does. *)
Theorem onConnectionTerminated_synthesizes c :
  isConnectionTerminated c = false ->
  let gone := DisconnectedError (host (transport c)) None in
  let reply := if didAutoConnect c then Ok JNull else Err gone in
  let c' := (onConnectionTerminated c).1 in
  disconnected_kind (host (transport c)) gone
  /\ effects c'
     = effects c ++ [Emit disconnected]
       ++ match truthy_id (connectMessageId c) with
          | Some id => [reply_call id reply]
          | None => []
          end
       ++ match truthy_id (disconnectMessageId c) with
          | Some id => [reply_call id (Ok JNull)]
          | None => []
          end
       ++ [PendingOp (PCancel gone)]
       ++ (if beforeDisconnectFn (hooks c) then [BeforeDisconnectFn] else [])
  /\ (forall id pe,
        entries (pendingMessages c) !! id = Some pe ->
        settled (pendingMessages c) !! id = None ->
        settled (pendingMessages c') !! id
        = if decide (truthy_id (connectMessageId c) = Some id)
          then Some reply
          else if decide (truthy_id (disconnectMessageId c) = Some id)
               then Some (Ok JNull)
               else if pe_internal pe then None
               else Some (Err gone))
  /\ (forall id,
        entries (pendingMessages c') !! id
        = if decide (truthy_id (connectMessageId c) = Some id) then None
          else if decide (truthy_id (disconnectMessageId c) = Some id)
               then None
               else match entries (pendingMessages c) !! id with
                    | Some pe => if pe_internal pe then Some pe else None
                    | None => None
                    end).
Proof.
  intros Hfirst gone reply c'.
  destruct (onConnectionTerminated_first c Hfirst) as (Heff & Hpm & _).
  split; [apply disconnected_kind_DisconnectedError|].
  split; [exact Heff|]. subst c'. rewrite Hpm.
  split.
  - intros id pe He Hs. by eapply replies_then_cancel.
  - intros id. apply replies_then_cancel_entries.
Qed.

Lemma onConnectionTerminated_synthesizes_witness :
  let c := conn (run (start Sample.core false)
                   [SetHooks Sample.both_hooks;
                    CallConnect false 30000 1;
                    Resume 0 (Ok JUndefined) 2;
                    CallSendRequest Sample.ping None 3]) in
  let gone := DisconnectedError "core:1818" None in
  connectMessageId c = Some "1"
  /\ effects (onConnectionTerminated c).1
     = effects c ++ [Emit disconnected; PendingOp (PReject "1" gone);
                     PendingOp (PCancel gone); BeforeDisconnectFn]
  /\ settled (pendingMessages (onConnectionTerminated c).1) !! "1"
     = Some (Err gone)
  /\ entries (pendingMessages (onConnectionTerminated c).1) !! "1" = None.
Proof.
  intros c gone.
  destruct (onConnectionTerminated_synthesizes c eq_refl)
    as (_ & Heff & Hsettled & Hentries).
  split; [reflexivity|]. split; [|split].
  - rewrite Heff. reflexivity.
  - rewrite (Hsettled "1" (mkPendingEntry None true)); reflexivity.
  - rewrite (Hentries "1"). reflexivity.
Defined.

(** C6 as stated fails for the internal requests: the mass cancel exempts
    them.  While [afterConnectFn] runs, two requests are sent; both are
    internal and [connectMessageId] names the second.  When the transport
    goes away then, request ["2"] gets the synthesized response, and
    request ["1"], which was outstanding, is not cancelled: it is still in
    the table and its promise is not completed. *)
Lemma onConnectionTerminated_keeps_internal :
  let c := conn (run (start Sample.core false)
                   [SetHooks Sample.both_hooks;
                    CallConnect false 30000 1;
                    Resume 0 (Ok JUndefined) 2;
                    CallSendRequest Sample.ping None 3;
                    CallSendRequest Sample.ping None 4]) in
  let c' := (onConnectionTerminated c).1 in
  isConnectionTerminated c = false
  /\ connectMessageId c = Some "2"
  /\ entries (pendingMessages c) !! "1" = Some (mkPendingEntry None true)
  /\ settled (pendingMessages c) !! "1" = None
  /\ settled (pendingMessages c') !! "2"
     = Some (Err (DisconnectedError "core:1818" None))
  /\ entries (pendingMessages c') !! "1" = Some (mkPendingEntry None true)
  /\ settled (pendingMessages c') !! "1" = None
  /\ settled (pendingMessages c') !! "1"
     <> Some (Err (DisconnectedError "core:1818" None)).
Proof. vm_compute. repeat split; discriminate. Qed.

(** ** What no operation undoes *)

Lemma later_refl c : later c c.
Proof. split; auto. Qed.

Lemma later_trans c1 c2 c3 : later c1 c2 -> later c2 c3 -> later c1 c3.
Proof. intros [] []. split; auto. Qed.

Lemma resolve_not_rejected (o : option Settlement) :
  (forall e, o <> Some (Rejected e)) ->
  forall e, resolve <$> o <> Some (Rejected e).
Proof. intros Ho e. destruct o as [[]|]; simpl; try congruence. Qed.

Ltac later_tac :=
  split; simpl; intros; rewrite ?fmap_is_Some;
  auto using resolve_not_rejected; try done; try congruence.

Ltac later_cases :=
  repeat (case_match; simplify_eq/=); try apply later_refl; later_tac.

Lemma later_onResponse id d c : later c (onResponse id d c).
Proof. unfold onResponse. later_cases. Qed.

Lemma later_onMessage frame c : later c (onMessage frame c).
Proof.
  unfold onMessage. repeat case_match; auto using later_onResponse, later_refl.
  later_tac.
Qed.

Lemma later_onConnectionTerminated c : later c (onConnectionTerminated c).1.
Proof.
  unfold onConnectionTerminated, onResponse. cbv zeta. later_cases.
Qed.

Lemma later_transport_disconnected c : later c (transport_disconnected c).1.
Proof.
  unfold transport_disconnected, onConnectionTerminated, onResponse.
  cbv zeta. later_cases.
Qed.

Lemma later_connect isAutoConnect timeoutMs now c :
  later c (connect isAutoConnect timeoutMs now c).1.
Proof. unfold connect. later_cases. Qed.

Lemma later_connect_catch err c : later c (connect_catch err c).1.
Proof. unfold connect_catch. later_cases. Qed.

Lemma later_connect_finish c : later c (connect_finish c).1.
Proof. unfold connect_finish, connect_catch. later_cases. Qed.

Lemma later_connect_after_transport called r c :
  later c (connect_after_transport called r c).1.
Proof.
  unfold connect_after_transport.
  repeat case_match; auto using later_connect_catch, later_connect_finish.
  later_tac.
Qed.

Lemma later_connect_after_hook r c : later c (connect_after_hook r c).1.
Proof.
  unfold connect_after_hook. destruct r; [|apply later_connect_catch].
  eapply later_trans; [|apply later_connect_finish]. later_tac.
Qed.

Lemma later_disconnect fatalError now c :
  later c (disconnect fatalError now c).1.
Proof. unfold disconnect. cbv zeta. later_cases. Qed.

Lemma later_disconnect_finally c : later c (disconnect_finally c).
Proof. unfold disconnect_finally. later_tac. Qed.

Lemma later_disconnect_after_hook called r c :
  later c (disconnect_after_hook called r c).1.
Proof.
  unfold disconnect_after_hook. cbv zeta.
  repeat case_match; simpl; auto using later_disconnect_finally; later_tac.
Qed.

Lemma later_disconnect_after_transport called r c :
  later c (disconnect_after_transport called r c).1.1.
Proof.
  unfold disconnect_after_transport, transport_emit_disconnected.
  destruct (awaited called r); simpl; [|apply later_disconnect_finally].
  match goal with
  | |- context [transport_disconnected ?c1] =>
      pose proof (later_transport_disconnected c1) as Hl;
      destruct (transport_disconnected c1) as [c2 spawned]
  end.
  simpl in *. destruct Hl. later_tac.
Qed.

Lemma later_sendRequest_send ic idc payload timeoutMs now c :
  later c (sendRequest_send ic idc payload timeoutMs now c).1.
Proof. unfold sendRequest_send, pending_create. cbv zeta. later_cases. Qed.

Lemma later_sendRequest payload timeoutMs now c :
  later c (sendRequest payload timeoutMs now c).1.1.
Proof.
  unfold sendRequest. cbv zeta.
  destruct (negb _ && negb _).
  - pose proof (later_connect false 30000 now c) as Hl.
    destruct (connect false 30000 now c) as [c1 []]; exact Hl.
  - pose proof (later_sendRequest_send (isSendingConnect c)
                  (isSendingDisconnect c) payload timeoutMs now c) as Hl.
    destruct (sendRequest_send _ _ _ _ _ _). exact Hl.
Qed.

Lemma later_sendRequest_complete id ic idc r c :
  later c (sendRequest_complete id ic idc r c).1.
Proof.
  unfold sendRequest_complete, sendRequest_finally. cbv zeta. later_cases.
Qed.

Lemma later_resume t r now c : later c (resume t r now c).1.1.
Proof.
  destruct t; simpl.
  - pose proof (later_connect_after_transport called r c).
    by destruct (connect_after_transport _ _ _).
  - pose proof (later_connect_after_hook r c).
    by destruct (connect_after_hook _ _).
  - pose proof (later_disconnect_after_hook called r c).
    by destruct (disconnect_after_hook _ _ _).
  - apply later_disconnect_after_transport.
  - unfold sendRequest_after_connect. destruct r; simpl; [|apply later_refl].
    pose proof (later_sendRequest_send false false payload timeoutMs now c).
    by destruct (sendRequest_send _ _ _ _ _ _).
  - pose proof (later_sendRequest_complete id isConnect isDisconnect r c).
    by destruct (sendRequest_complete _ _ _ _ _).
  - unfold onConnectionTerminated_resume. later_cases.
Qed.

Lemma later_step w ev : later (conn w) (conn (step w ev)).
Proof.
  destruct ev; simpl.
  - pose proof (later_connect isAutoConnect timeoutMs now (conn w)).
    by destruct (connect _ _ _ _).
  - pose proof (later_disconnect fatalError now (conn w)).
    by destruct (disconnect _ _ _).
  - pose proof (later_sendRequest payload timeoutMs now (conn w)).
    by destruct (sendRequest _ _ _ _) as [[? ?] ?].
  - later_tac.
  - later_tac.
  - apply later_onMessage.
  - pose proof (later_transport_disconnected (conn w)).
    by destruct (transport_disconnected _).
  - later_tac.
  - destruct (tasks w !! i) as [t|]; [|apply later_refl].
    pose proof (later_resume t r now (conn w)).
    by destruct (resume _ _ _ _) as [[? ?] ?].
Qed.

Lemma later_run evs w : later (conn w) (conn (run w evs)).
Proof.
  revert w. induction evs as [|ev evs IH]; intros w; simpl.
  - apply later_refl.
  - eapply later_trans; [apply later_step | apply IH].
Qed.

(** ** C2: the disconnect promise is never cleared *)

Lemma flips_monotone (f : Conn -> bool) :
  (forall w ev, f (conn w) = true -> f (conn (step w ev)) = true) ->
  forall evs w,
    (flips f w evs <= 1)%nat /\ (f (conn w) = true -> flips f w evs = 0%nat).
Proof.
  intros Hmono. induction evs as [|ev evs IH]; intros w; simpl.
  - split; [lia | reflexivity].
  - destruct (IH (step w ev)) as [Hle Hzero].
    destruct (f (conn w)) eqn:Hw; simpl.
    + rewrite Hzero by auto. split; [lia | reflexivity].
    + destruct (f (conn (step w ev))) eqn:Hs.
      * rewrite Hzero by reflexivity. split; [lia | discriminate].
      * split; [lia | discriminate].
Qed.





(** ** C10: the termination handler runs once per controller *)

Lemma transport_disconnected_unlistens c :
  terminationListener (transport_disconnected c).1 = false.
Proof.
  unfold transport_disconnected, onConnectionTerminated. cbv zeta.
  repeat (case_match; simplify_eq/=); done.
Qed.

Lemma start_latched t skip :
  terminationListener (conn (start t skip)) = false ->
  isConnectionTerminated (conn (start t skip)) = true.
Proof. discriminate. Qed.

Lemma isConnectionTerminated_step w ev :
  isConnectionTerminated (conn w) = true ->
  isConnectionTerminated (conn (step w ev)) = true.
Proof. apply later_step. Qed.

(** C10: after the first ['disconnected'] signal of the transport the
    latch [isConnectionTerminated] is set and the once-only listener is gone,
    and both stay so whatever happens next (a completed disconnect and a
    fresh connect included): a further transport termination changes
    neither the controller nor its effect log nor what is suspended,
    [onConnectionTerminated] itself returns at once, and along the whole
    schedule the latch is set at most once. *)
Theorem termination_runs_once t skip evs1 evs2 :
  let first := step (run (start t skip) evs1) TransportDisconnected in
  let w := run first evs2 in
  isConnectionTerminated (conn w) = true
  /\ terminationListener (conn w) = false
  /\ step w TransportDisconnected = w
  /\ onConnectionTerminated (conn w) = (conn w, Returned JUndefined)
  /\ (flips isConnectionTerminated (start t skip)
        (evs1 ++ TransportDisconnected :: evs2 ++ [TransportDisconnected])
      <= 1)%nat.
Proof.
  intros first w.
  assert (Hgone : terminationListener (conn first) = false).
  { subst first. simpl.
    pose proof (transport_disconnected_unlistens
                  (conn (run (start t skip) evs1))) as Hl.
    by destruct (transport_disconnected _). }
  assert (Hlatched : terminationListener (conn first) = false ->
                     isConnectionTerminated (conn first) = true).
  { subst first. eapply later_latched; [apply later_step|].
    eapply later_latched; [apply later_run | apply start_latched]. }
  assert (Hw : terminationListener (conn w) = false).
  { subst w. by apply (later_listener _ _ (later_run evs2 first)). }
  assert (Ht : isConnectionTerminated (conn w) = true).
  { subst w. apply (later_latch _ _ (later_run evs2 first)). auto. }
  split; [exact Ht|]. split; [exact Hw|]. split; [|split].
  - simpl. unfold transport_disconnected. rewrite Hw.
    rewrite app_nil_r. by destruct w.
  - unfold onConnectionTerminated. by rewrite Ht.
  - apply (flips_monotone isConnectionTerminated isConnectionTerminated_step).
Qed.

(** ** C8: the disconnect promise is resolved in the unwind phase *)

Lemma promised_later c c' t : later c c' -> promised c t -> promised c' t.
Proof. intros Hl Hp Ht. apply Hl, Hp, Ht. Qed.

Lemma Forall_promised_later c c' ts :
  later c c' -> Forall (promised c) ts -> Forall (promised c') ts.
Proof.
  intros Hl Hf. eapply Forall_impl; [exact Hf|].
  intros t. by apply promised_later.
Qed.

Lemma promised_other c t : is_disconnect_task t = false -> promised c t.
Proof. intros Ht Hd. congruence. Qed.

Ltac new_tasks :=
  repeat (case_match; simplify_eq/=);
  repeat constructor; try (apply promised_other; reflexivity).

Lemma connect_promised isAuto timeoutMs now c :
  Forall (promised (connect isAuto timeoutMs now c).1)
    (suspended (connect isAuto timeoutMs now c).2).
Proof. unfold connect. new_tasks. Qed.

Lemma disconnect_promised fatalError now c :
  Forall (promised (disconnect fatalError now c).1)
    (suspended (disconnect fatalError now c).2).
Proof. unfold disconnect. cbv zeta. new_tasks; intros _; by eexists. Qed.

Lemma sendRequest_promised payload timeoutMs now c :
  Forall (promised (sendRequest payload timeoutMs now c).1.1)
    ((sendRequest payload timeoutMs now c).1.2
     ++ suspended (sendRequest payload timeoutMs now c).2).
Proof.
  unfold sendRequest, sendRequest_send, pending_create, connect. cbv zeta.
  new_tasks.
Qed.

Lemma transport_disconnected_promised c :
  Forall (promised (transport_disconnected c).1) (transport_disconnected c).2.
Proof.
  unfold transport_disconnected, onConnectionTerminated. cbv zeta. new_tasks.
Qed.

Lemma resume_promised t r now c :
  promised c t ->
  Forall (promised (resume t r now c).1.1)
    ((resume t r now c).1.2 ++ suspended (resume t r now c).2).
Proof.
  intros Hp. destruct t; simpl.
  - unfold connect_after_transport, connect_finish, connect_catch.
    cbv zeta. new_tasks.
  - unfold connect_after_hook, connect_finish, connect_catch.
    cbv zeta. new_tasks.
  - unfold disconnect_after_hook. cbv zeta. new_tasks.
    all: intros _; by apply Hp.
  - unfold disconnect_after_transport, transport_emit_disconnected.
    destruct (awaited called r); simpl; [|constructor].
    match goal with
    | |- context [transport_disconnected ?c1] =>
        pose proof (transport_disconnected_promised c1) as Hn;
        pose proof (later_transport_disconnected c1) as Hl;
        destruct (transport_disconnected c1) as [c2 spawned]
    end.
    simpl in *.
    assert (Hdone : forall o : option Settlement,
               suspended match o with
                         | Some p => ReturnedPromise p
                         | None => Returned JUndefined
                         end = []) by (by intros []).
    rewrite Hdone, app_nil_r.
    eapply Forall_impl; [exact Hn|]. intros t Ht Hd. simpl.
    rewrite fmap_is_Some. by apply Ht.
  - unfold sendRequest_after_connect, sendRequest_send, pending_create.
    cbv zeta. new_tasks.
  - unfold sendRequest_complete. cbv zeta. new_tasks.
  - unfold onConnectionTerminated_resume. new_tasks.
Qed.

Lemma start_teardown_sound t skip : teardown_sound (start t skip).
Proof. split; [discriminate | constructor]. Qed.

Lemma step_teardown_sound w ev : teardown_sound w -> teardown_sound (step w ev).
Proof.
  intros [Hrej Htasks]. split.
  { by apply (later_not_rejected _ _ (later_step w ev)). }
  pose proof (later_step w ev) as Hl.
  destruct ev; simpl in *.
  - pose proof (connect_promised isAutoConnect timeoutMs now (conn w)).
    destruct (connect _ _ _ _). simpl in *.
    apply Forall_app; eauto using Forall_promised_later.
  - pose proof (disconnect_promised fatalError now (conn w)).
    destruct (disconnect _ _ _). simpl in *.
    apply Forall_app; eauto using Forall_promised_later.
  - pose proof (sendRequest_promised payload timeoutMs now (conn w)).
    destruct (sendRequest _ _ _ _) as [[? ?] ?]. simpl in *.
    apply Forall_app; eauto using Forall_promised_later.
  - exact Htasks.
  - exact Htasks.
  - eauto using Forall_promised_later.
  - pose proof (transport_disconnected_promised (conn w)).
    destruct (transport_disconnected _). simpl in *.
    apply Forall_app; eauto using Forall_promised_later.
  - exact Htasks.
  - destruct (tasks w !! i) as [t|] eqn:Hi; [|exact Htasks].
    pose proof (resume_promised t r now (conn w)) as Hn.
    destruct (resume _ _ _ _) as [[? ?] ?]. simpl in *.
    apply Forall_app. split.
    + eauto using Forall_promised_later, Forall_delete.
    + apply Hn. eapply Forall_lookup_1; eauto.
Qed.

Lemma run_teardown_sound evs w : teardown_sound w -> teardown_sound (run w evs).
Proof.
  revert w. induction evs as [|ev evs IH]; intros w Hw; simpl; [done|].
  by apply IH, step_teardown_sound.
Qed.

(** From a suspended [disconnect], the [finally] block fulfils the promise. *)
Lemma disconnect_finally_fulfils w t i :
  teardown_sound w -> tasks w !! i = Some t -> is_disconnect_task t = true ->
  disconnectPromise (disconnect_finally (conn w)) = Some Fulfilled.
Proof.
  intros [Hrej Htasks] Hi Ht.
  destruct (Forall_lookup_1 _ _ _ _ Htasks Hi Ht) as [p Hp].
  unfold disconnect_finally. simpl. rewrite Hp. simpl.
  destruct p as [| |e]; try reflexivity. by destruct (Hrej e).
Qed.

(** C8: in every state that a controller reaches, resuming a suspended
    [disconnect] with a failure of [beforeDisconnectFn] ends the call with
    that error and leaves [disconnectPromise] fulfilled; resuming it after
    the transport's disconnect operation, whether that succeeded or threw,
    ends the call (with the fulfilled promise, or with the error) and
    leaves [disconnectPromise] fulfilled. *)
Theorem disconnect_resolves_in_unwind t skip evs i called r now :
  let w := run (start t skip) evs in
  (tasks w !! i = Some (DisconnectAwaitsHook called) ->
   forall e, awaited called r = Err e ->
     (disconnect_after_hook called r (conn w)).2 = Threw e
     /\ tasks (step w (Resume i r now)) = delete i (tasks w)
     /\ disconnectPromise (conn (step w (Resume i r now))) = Some Fulfilled)
  /\ (tasks w !! i = Some (DisconnectAwaitsTransport called) ->
      (forall e, awaited called r = Err e ->
         (disconnect_after_transport called r (conn w)).2 = Threw e)
      /\ (forall v, awaited called r = Ok v ->
            (disconnect_after_transport called r (conn w)).2
            = ReturnedPromise Fulfilled)
      /\ Forall (fun t => is_disconnect_task t = false)
           (disconnect_after_transport called r (conn w)).1.2
      /\ disconnectPromise (conn (step w (Resume i r now))) = Some Fulfilled).
Proof.
  intros w.
  assert (Hsound : teardown_sound w)
    by apply run_teardown_sound, start_teardown_sound.
  split.
  - intros Hi e He.
    pose proof (disconnect_finally_fulfils w _ i Hsound Hi eq_refl) as Hf.
    simpl. rewrite Hi. simpl. unfold disconnect_after_hook. rewrite He.
    simpl. rewrite app_nil_r. auto.
  - intros Hi.
    pose proof (disconnect_finally_fulfils w _ i Hsound Hi eq_refl) as Hf.
    simpl. rewrite Hi. simpl.
    unfold disconnect_after_transport, transport_emit_disconnected.
    destruct (awaited called r) as [v|e]; simpl.
    + match goal with
      | |- context [transport_disconnected ?c1] =>
          pose proof (later_transport_disconnected c1) as Hl;
          assert (Hsp : Forall (fun t => is_disconnect_task t = false)
                          (transport_disconnected c1).2)
            by (unfold transport_disconnected, onConnectionTerminated;
                cbv zeta; repeat (case_match; simplify_eq/=);
                repeat constructor);
          destruct (transport_disconnected c1) as [c2 spawned]
      end.
      simpl in *.
      assert (Hc2 : resolve <$> disconnectPromise c2 = Some Fulfilled).
      { unfold disconnect_finally in Hf. simpl in Hf.
        destruct Hsound as [Hrej _].
        destruct (later_disconnectPromise _ _ Hl) as [p Hp].
        { simpl. destruct (disconnectPromise (conn w)); [by eexists|done]. }
        rewrite Hp. simpl.
        destruct p as [| |e]; try reflexivity.
        exfalso. eapply (later_not_rejected _ _ Hl); [|exact Hp].
        simpl. exact Hrej. }
      rewrite Hc2. repeat split; try done.
    + split; [by intros e' [= ->]|]. split; [by intros v [=]|].
      split; [constructor | exact Hf].
Qed.

Lemma disconnect_resolves_in_unwind_witness :
  let at_hook := run (start Sample.core false)
                   [SetHooks Sample.both_hooks; CallDisconnect None 1] in
  let at_transport := run (start Sample.core false)
                        [SetHooks Sample.both_hooks; CallDisconnect None 1;
                         Resume 0 (Ok JUndefined) 2] in
  disconnectPromise (conn at_hook) = Some Pending
  /\ disconnectPromise (conn (step at_hook (Resume 0 (Err Sample.boom) 3)))
     = Some Fulfilled
  /\ disconnectPromise
       (conn (step at_transport (Resume 0 (Err Sample.boom) 3)))
     = Some Fulfilled.
Proof.
  intros at_hook at_transport. split; [reflexivity|]. split.
  - destruct (proj1 (disconnect_resolves_in_unwind Sample.core false
                       [SetHooks Sample.both_hooks; CallDisconnect None 1]
                       0 true (Err Sample.boom) 3)
                eq_refl Sample.boom eq_refl) as (_ & _ & Hdone).
    exact Hdone.
  - destruct (proj2 (disconnect_resolves_in_unwind Sample.core false
                       [SetHooks Sample.both_hooks; CallDisconnect None 1;
                        Resume 0 (Ok JUndefined) 2]
                       0 true (Err Sample.boom) 3)
                eq_refl) as (_ & _ & _ & Hdone).
    exact Hdone.
Defined.

(** ** C7: disconnect is idempotent *)

Lemma awaited_ok called v : exists v', awaited called (Ok v) = Ok v'.
Proof. destruct called; simpl; eauto. Qed.

Lemma disconnect_after_hook_ok called v x :
  disconnect_after_hook called (Ok v) x
  = (let x' := set_isSendingDisconnect false x in
     if hasDisconnect (transport x) then log TransportDisconnect x' else x',
     Suspended (DisconnectAwaitsTransport (hasDisconnect (transport x)))).
Proof.
  unfold disconnect_after_hook.
  destruct (awaited_ok called v) as [v' ->]. reflexivity.
Qed.

Lemma disconnect_after_transport_ok called v x :
  disconnect_after_transport called (Ok v) x
  = disconnect_after_transport true (Ok JUndefined) x.
Proof.
  unfold disconnect_after_transport.
  destruct (awaited_ok called v) as [v' ->]. reflexivity.
Qed.

Lemma onConnectionTerminated_resume_ok called v x :
  onConnectionTerminated_resume called (Ok v) x
  = (set_isSendingDisconnect false x, Returned JUndefined).
Proof.
  unfold onConnectionTerminated_resume.
  destruct (awaited_ok called v) as [v' ->]. reflexivity.
Qed.

Lemma disconnect_reenters fatalError now t e x p :
  disconnectPromise x = Some p ->
  disconnect fatalError now (retime t e x)
  = (retime (Some now) fatalError x, ReturnedPromise p).
Proof. intros Hp. unfold disconnect. cbn. rewrite Hp. reflexivity. Qed.

Lemma onConnectionTerminated_retime t e x :
  onConnectionTerminated (retime t e x)
  = (retime t e (onConnectionTerminated x).1, (onConnectionTerminated x).2).
Proof.
  unfold onConnectionTerminated, onResponse, delivered_error, isDisconnected.
  cbv zeta. cbn.
  repeat (case_match; simplify_eq/=); try reflexivity; congruence.
Qed.

Lemma transport_disconnected_retime t e x :
  transport_disconnected (retime t e x)
  = (retime t e (transport_disconnected x).1, (transport_disconnected x).2).
Proof.
  unfold transport_disconnected. cbn.
  destruct (terminationListener x); [|reflexivity].
  change (set_terminationListener false (retime t e x))
    with (retime t e (set_terminationListener false x)).
  rewrite onConnectionTerminated_retime.
  destruct (onConnectionTerminated _) as [x' []]; reflexivity.
Qed.

Lemma disconnect_after_transport_retime t e x :
  disconnect_after_transport true (Ok JUndefined) (retime t e x)
  = (retime t e (disconnect_after_transport true (Ok JUndefined) x).1.1,
     (disconnect_after_transport true (Ok JUndefined) x).1.2,
     (disconnect_after_transport true (Ok JUndefined) x).2).
Proof.
  unfold disconnect_after_transport, transport_emit_disconnected. cbn.
  match goal with
  | |- context [transport_disconnected (?f (?g (retime t e x)))] =>
      change (f (g (retime t e x))) with (retime t e (f (g x)))
  end.
  rewrite transport_disconnected_retime.
  destruct (transport_disconnected _) as [x' spawned]. reflexivity.
Qed.

(** The listeners of the transport's ['disconnected']: the termination
    handler runs if this is the first termination. *)
Lemma transport_disconnected_fires x :
  fires x = true ->
  effects (transport_disconnected x).1 = effects x ++ termination_effects x
  /\ (transport_disconnected x).2
     = [TerminatedAwaitsHook (beforeDisconnectFn (hooks x))]
  /\ disconnectPromise (transport_disconnected x).1 = disconnectPromise x.
Proof.
  unfold fires. intros [Hl Ht]%andb_true_iff. apply negb_true_iff in Ht.
  unfold transport_disconnected. rewrite Hl.
  destruct (onConnectionTerminated_first (set_terminationListener false x) Ht)
    as (Heff & _ & Hout).
  assert (Hdp : disconnectPromise
                  (onConnectionTerminated (set_terminationListener false x)).1
                = disconnectPromise x).
  { unfold onConnectionTerminated, onResponse. cbv zeta. cbn.
    repeat (case_match; simplify_eq/=); reflexivity. }
  destruct (onConnectionTerminated _) as [x' o]. simpl in *. subst o.
  auto.
Qed.

Lemma transport_disconnected_quiet x :
  fires x = false ->
  effects (transport_disconnected x).1 = effects x
  /\ (transport_disconnected x).2 = []
  /\ disconnectPromise (transport_disconnected x).1 = disconnectPromise x.
Proof.
  unfold fires, transport_disconnected, onConnectionTerminated.
  destruct (terminationListener x); [|done].
  destruct (isConnectionTerminated x) eqn:Ht; [|done]. cbn. rewrite Ht. done.
Qed.

Section Teardown.

Variable c : Conn.
Hypothesis fresh : disconnectPromise c = None.

Lemma teardown_entered_eq :
  teardown_entered c
  = let x := set_isSendingDisconnect true
               (pending_cancel (DisconnectedError (host (transport c)) None)
                  (set_disconnectPromise (Some Pending)
                     (retime (Some 0) None c))) in
    if beforeDisconnectFn (hooks c) then log BeforeDisconnectFn x else x.
Proof.
  unfold teardown_entered, disconnect. cbn. rewrite fresh.
  destruct (beforeDisconnectFn (hooks c)); reflexivity.
Qed.

Lemma disconnect_enters fatalError now :
  disconnect fatalError now c
  = (retime (Some now) fatalError (teardown_entered c),
     Suspended (DisconnectAwaitsHook (beforeDisconnectFn (hooks c)))).
Proof.
  rewrite teardown_entered_eq. unfold disconnect. cbn. rewrite fresh.
  destruct (beforeDisconnectFn (hooks c)); reflexivity.
Qed.

Lemma teardown_entered_promise :
  disconnectPromise (teardown_entered c) = Some Pending.
Proof.
  rewrite teardown_entered_eq.
  destruct (beforeDisconnectFn (hooks c)); reflexivity.
Qed.

Lemma teardown_entered_transport :
  transport (teardown_entered c) = transport c.
Proof.
  rewrite teardown_entered_eq.
  destruct (beforeDisconnectFn (hooks c)); reflexivity.
Qed.

Lemma teardown_hooked_eq :
  teardown_hooked c
  = let x := set_isSendingDisconnect false (teardown_entered c) in
    if hasDisconnect (transport c) then log TransportDisconnect x else x.
Proof.
  unfold teardown_hooked. rewrite disconnect_after_hook_ok. cbn.
  rewrite teardown_entered_transport. reflexivity.
Qed.

Lemma teardown_hooked_promise :
  disconnectPromise (teardown_hooked c) = Some Pending.
Proof.
  rewrite teardown_hooked_eq.
  destruct (hasDisconnect _); cbn; apply teardown_entered_promise.
Qed.

Lemma hook_resumes t e called v :
  disconnect_after_hook called (Ok v) (retime t e (teardown_entered c))
  = (retime t e (teardown_hooked c),
     Suspended (DisconnectAwaitsTransport (hasDisconnect (transport c)))).
Proof.
  rewrite disconnect_after_hook_ok, teardown_hooked_eq. cbn.
  rewrite teardown_entered_transport.
  destruct (hasDisconnect (transport c)); reflexivity.
Qed.

Lemma teardown_emitting_facts :
  fires (teardown_emitting c) = fires c
  /\ termination_effects (teardown_emitting c) = termination_effects c
  /\ hooks (teardown_emitting c) = hooks c
  /\ disconnectPromise (teardown_emitting c) = Some Pending
  /\ effects (teardown_emitting c)
     = effects c
       ++ [PendingOp (PCancel (DisconnectedError (host (transport c)) None))]
       ++ (if beforeDisconnectFn (hooks c) then [BeforeDisconnectFn] else [])
       ++ (if hasDisconnect (transport c) then [TransportDisconnect] else [])
       ++ [TransportEmit disconnected].
Proof.
  unfold teardown_emitting. rewrite teardown_hooked_eq, teardown_entered_eq.
  unfold fires, termination_effects.
  destruct (beforeDisconnectFn (hooks c)) eqn:Hh;
    destruct (hasDisconnect (transport c)) eqn:Hc;
    cbn; rewrite ?Hh; cbn; rewrite <- ?app_assoc; repeat split.
Qed.

Lemma teardown_closed_eq :
  teardown_closed c
  = (disconnect_finally
       (set_connectPromise None
          (log (Emit disconnected)
             (transport_disconnected (teardown_emitting c)).1)),
     (transport_disconnected (teardown_emitting c)).2).
Proof.
  unfold teardown_closed. rewrite disconnect_after_transport_ok.
  unfold disconnect_after_transport, transport_emit_disconnected. cbn.
  fold (teardown_emitting c).
  destruct (transport_disconnected (teardown_emitting c)). reflexivity.
Qed.

Lemma teardown_closed_facts :
  (teardown_closed c).2
  = (if fires c
     then [TerminatedAwaitsHook (beforeDisconnectFn (hooks c))] else [])
  /\ disconnectPromise (teardown_closed c).1 = Some Fulfilled
  /\ effects (teardown_closed c).1 = effects c ++ teardown_effects c.
Proof.
  rewrite teardown_closed_eq. unfold teardown_effects.
  destruct teardown_emitting_facts as (Hf & Ht & Hh & Hp & He).
  destruct (fires c) eqn:Hfires.
  - destruct (transport_disconnected_fires (teardown_emitting c))
      as (He' & Hs' & Hp'); [congruence|].
    cbn. rewrite Hs', Hp', Hp, He', He, Ht, Hh.
    rewrite <- !app_assoc. repeat split.
    unfold termination_effects. cbn. rewrite <- ?app_assoc. reflexivity.
  - destruct (transport_disconnected_quiet (teardown_emitting c))
      as (He' & Hs' & Hp'); [congruence|].
    cbn. rewrite Hs', Hp', Hp, He', He.
    rewrite <- !app_assoc. repeat split.
Qed.

Lemma transport_resumes t e called v :
  disconnect_after_transport called (Ok v) (retime t e (teardown_hooked c))
  = (retime t e (teardown_closed c).1, (teardown_closed c).2,
     ReturnedPromise Fulfilled).
Proof.
  rewrite disconnect_after_transport_ok, disconnect_after_transport_retime.
  unfold teardown_closed at 1 2.
  rewrite (disconnect_after_transport_ok (hasDisconnect (transport c))).
  f_equal.
  destruct teardown_closed_facts as (_ & Hp & _).
  unfold teardown_closed in Hp.
  rewrite disconnect_after_transport_ok in Hp.
  unfold disconnect_after_transport in *. cbn in *.
  destruct (transport_emit_disconnected _) as [x sp]. cbn in *.
  rewrite Hp. reflexivity.
Qed.

Lemma listener_resumes t e called v :
  fires c = true ->
  onConnectionTerminated_resume called (Ok v)
    (retime t e (teardown_closed c).1)
  = (retime t e (teardown_done c), Returned JUndefined).
Proof.
  intros Hf. rewrite onConnectionTerminated_resume_ok.
  unfold teardown_done. rewrite Hf. reflexivity.
Qed.

Lemma teardown_done_facts :
  disconnectPromise (teardown_done c) = Some Fulfilled
  /\ effects (teardown_done c) = effects c ++ teardown_effects c.
Proof.
  destruct teardown_closed_facts as (_ & Hp & He).
  unfold teardown_done. destruct (fires c); auto.
Qed.

(** Every event of a teardown schedule moves a started teardown on, or
    leaves it where it is. *)
Lemma started_step w ev :
  started c w -> teardown_event ev = true -> started c (step w ev).
Proof.
  destruct teardown_closed_facts as (Hsp & Hp & _).
  destruct teardown_done_facts as (Hp' & _).
  intros Hw Hev. destruct ev as [| fatalError now | | | | | | | i r now];
    try discriminate; destruct Hw; simpl.
  - erewrite disconnect_reenters by apply teardown_entered_promise.
    apply at_hook.
  - erewrite disconnect_reenters by apply teardown_hooked_promise.
    apply at_transport.
  - erewrite disconnect_reenters by apply Hp. by apply at_listener.
  - erewrite disconnect_reenters by apply Hp'. apply at_end.
  - destruct r as [v|]; [|discriminate].
    destruct i as [|i]; simpl; [|apply at_hook].
    rewrite hook_resumes. apply at_transport.
  - destruct r as [v|]; [|discriminate].
    destruct i as [|i]; simpl; [|apply at_transport].
    rewrite transport_resumes. simpl. rewrite Hsp.
    destruct (fires c) eqn:Hf; simpl.
    + by apply at_listener.
    + replace (teardown_closed c).1 with (teardown_done c)
        by (unfold teardown_done; by rewrite Hf).
      apply at_end.
  - destruct r as [v|]; [|discriminate].
    destruct i as [|i]; simpl; [|by apply at_listener].
    rewrite listener_resumes by done. apply at_end.
  - destruct i; apply at_end.
Qed.

Lemma started_run evs w :
  started c w -> Forall (fun ev => teardown_event ev = true) evs ->
  started c (run w evs).
Proof.
  revert w. induction evs as [|ev evs IH]; intros w Hw Hevs; simpl; [done|].
  inversion Hevs; subst. apply IH; [|done]. by apply started_step.
Qed.

(** Before the first call nothing happens; the first call starts the
    teardown. *)
Lemma rest_run evs :
  Forall (fun ev => teardown_event ev = true) evs ->
  Exists (fun ev => is_call ev = true) evs ->
  started c (run (mkSystem c []) evs).
Proof.
  induction evs as [|ev evs IH]; intros Hevs Hcall.
  - inversion Hcall.
  - inversion Hevs as [|? ? Hev Hevs']; subst.
    destruct ev as [| fatalError now | | | | | | | i r now];
      try discriminate.
    + simpl. rewrite disconnect_enters. simpl.
      apply started_run; [apply at_hook | done].
    + inversion Hcall as [? ? Hc | ? ? Hc]; subst; [discriminate|].
      simpl. by apply IH.
Qed.

End Teardown.

Lemma teardown_effects_counts c :
  let k := if fires c then 2%nat else 1%nat in
  count is_transport_disconnect (teardown_effects c)
  = (if hasDisconnect (transport c) then 1 else 0)%nat
  /\ count is_transport_emit_disconnected (teardown_effects c) = 1%nat
  /\ count is_cancel (teardown_effects c) = k
  /\ count is_beforeDisconnectFn (teardown_effects c)
     = (if beforeDisconnectFn (hooks c) then k else 0)%nat
  /\ count is_emit_disconnected (teardown_effects c) = k.
Proof.
  unfold teardown_effects, termination_effects.
  destruct (fires c), (beforeDisconnectFn (hooks c)),
    (hasDisconnect (transport c)), (truthy_id (connectMessageId c)),
    (truthy_id (disconnectMessageId c)), (didAutoConnect c);
    repeat split.
Qed.

(** C7, amended: a [disconnect] call made while [disconnectPromise] exists
    returns that promise and has no effect.  So, from a controller with
    nothing suspended and no [disconnectPromise], any schedule of N >= 1
    [disconnect] calls and successful resumptions that runs to the end
    performs the effects of one teardown: one transport disconnect (if the
    transport has the operation) and one transport-level ['disconnected']
    emission.  That emission runs [onConnectionTerminated] if the
    termination had not been observed before; the pending-message
    cancellations, the [beforeDisconnectFn] invocations (if the hook is set)
    and the controller-level ['disconnected'] emissions are therefore two of
    each in that case, and one of each otherwise. *)
Theorem disconnect_idempotent c evs :
  disconnectPromise c = None ->
  Forall (fun ev => teardown_event ev = true) evs ->
  Exists (fun ev => is_call ev = true) evs ->
  tasks (run (mkSystem c []) evs) = [] ->
  let c' := conn (run (mkSystem c []) evs) in
  let k := if fires c then 2%nat else 1%nat in
  (forall x p fatalError now,
      disconnectPromise x = Some p ->
      disconnect fatalError now x
      = (retime (Some now) fatalError x, ReturnedPromise p)
      /\ effects (disconnect fatalError now x).1 = effects x)
  /\ disconnectPromise c' = Some Fulfilled
  /\ effects c' = effects c ++ teardown_effects c
  /\ count is_transport_disconnect (teardown_effects c)
     = (if hasDisconnect (transport c) then 1 else 0)%nat
  /\ count is_transport_emit_disconnected (teardown_effects c) = 1%nat
  /\ count is_cancel (teardown_effects c) = k
  /\ count is_beforeDisconnectFn (teardown_effects c)
     = (if beforeDisconnectFn (hooks c) then k else 0)%nat
  /\ count is_emit_disconnected (teardown_effects c) = k.
Proof.
  intros Hfresh Hevs Hcall Hidle c' k. split.
  { intros x p fatalError now Hp.
    unfold disconnect. cbn. rewrite Hp. split; reflexivity. }
  pose proof (rest_run c Hfresh evs Hevs Hcall) as Hs.
  destruct (teardown_done_facts c Hfresh) as [Hp He].
  subst c'. destruct Hs; simpl in *; try discriminate.
  split; [exact Hp|]. split; [exact He|].
  apply teardown_effects_counts.
Qed.

Lemma disconnect_idempotent_witness :
  let c := set_hooks Sample.both_hooks Sample.fresh in
  let evs := [CallDisconnect None 1; CallDisconnect (Some Sample.boom) 2;
              Resume 0 (Ok JUndefined) 3; CallDisconnect None 4;
              Resume 0 (Ok JUndefined) 5; Resume 0 (Ok JUndefined) 6;
              CallDisconnect None 7] in
  effects (conn (run (mkSystem c []) evs)) = effects c ++ teardown_effects c
  /\ count is_transport_disconnect (teardown_effects c) = 1%nat
  /\ count is_emit_disconnected (teardown_effects c) = 2%nat.
Proof.
  intros c evs.
  destruct (disconnect_idempotent c evs)
    as (_ & _ & Heff & Hclose & _ & _ & _ & Hemit).
  - reflexivity.
  - repeat constructor.
  - constructor. reflexivity.
  - reflexivity.
  - split; [exact Heff|]. split; [exact Hclose | exact Hemit].
Defined.

(** C7 as stated fails: one [disconnect] call on a fresh controller, run to
    the end, cancels the pending messages twice, invokes
    [beforeDisconnectFn] twice and emits the controller-level
    ['disconnected'] twice. *)
Lemma disconnect_emits_twice :
  let w := run (start Sample.core false)
             [SetHooks Sample.both_hooks; CallDisconnect None 1;
              Resume 0 (Ok JUndefined) 2; Resume 0 (Ok JUndefined) 3;
              Resume 0 (Ok JUndefined) 4] in
  tasks w = []
  /\ effects (conn w)
     = [PendingOp (PCancel (DisconnectedError "core:1818" None));
        BeforeDisconnectFn; TransportDisconnect; TransportEmit disconnected;
        Emit disconnected;
        PendingOp (PCancel (DisconnectedError "core:1818" None));
        BeforeDisconnectFn; Emit disconnected]
  /\ count is_transport_disconnect (effects (conn w)) = 1%nat
  /\ count is_cancel (effects (conn w)) <> 1%nat
  /\ count is_beforeDisconnectFn (effects (conn w)) <> 1%nat
  /\ count is_emit_disconnected (effects (conn w)) <> 1%nat.
Proof. vm_compute. repeat split; discriminate. Qed.

(** * Further properties of the controller *)

(** ** Bounds on the teardown effects over the lifetime of a controller *)

Lemma sum_list_delete (f : Task -> nat) l i t :
  l !! i = Some t ->
  (sum_list (f <$> delete i l) + f t)%nat = sum_list (f <$> l).
Proof.
  revert i. induction l as [|x l IH]; intros [|i] Hi; simplify_eq/=.
  - lia.
  - specialize (IH i Hi). lia.
Qed.

Lemma count_snoc p l e :
  count p (l ++ [e]) = (count p l + (if p e then 1 else 0))%nat.
Proof.
  unfold count. rewrite filter_app, length_app. f_equal.
  rewrite filter_cons, filter_nil. destruct (p e); reflexivity.
Qed.

Section Budget.

Variable a : Allowance.
Hypothesis Ha : affordable a.

Ltac free :=
  rewrite ?(free_connect a Ha), ?(free_send a Ha), ?(free_connected a Ha),
    ?(free_emit_connected a Ha), ?(free_event a Ha),
    ?(free_afterConnectFn a Ha), ?(free_create a Ha), ?(free_resolve a Ha),
    ?(free_reject a Ha), ?(free_delete a Ha).

Ltac paid :=
  let gone := fresh "gone" in
  match goal with
  | c : Conn |- _ =>
      pose proof (pays_entry a Ha (DisconnectedError (host (transport c)) None));
      pose proof (pays_listener a Ha
                    (DisconnectedError (host (transport c)) None))
  end;
  pose proof (pays_hook a Ha); pose proof (pays_transport a Ha);
  unfold weight in *.

Ltac booleans :=
  repeat match goal with
         | H : context [terminationListener ?x] |- _ =>
             destruct (terminationListener x) eqn:?; simplify_eq/=
         | H : context [isConnectionTerminated ?x] |- _ =>
             destruct (isConnectionTerminated x) eqn:?; simplify_eq/=
         end.

Ltac spend :=
  unfold conn_budget, fires, log; cbv zeta; simpl;
  repeat (case_match; simplify_eq/=);
  rewrite ?count_snoc; free; paid; simpl in *; try lia; try done;
  try (booleans; lia).

Lemma budget_onResponse id d c :
  conn_budget a (onResponse id d c) = conn_budget a c.
Proof. unfold onResponse, pending_resolve, pending_reject. spend. Qed.

Lemma budget_onMessage frame c :
  conn_budget a (onMessage frame c) = conn_budget a c.
Proof.
  unfold onMessage, onEvent. repeat case_match; auto using budget_onResponse.
  spend.
Qed.

Lemma budget_connect isAutoConnect timeoutMs now c :
  conn_budget a (connect isAutoConnect timeoutMs now c).1 = conn_budget a c
  /\ sum_list (task_budget a
               <$> suspended (connect isAutoConnect timeoutMs now c).2) = 0%nat.
Proof. unfold connect. split; spend. Qed.

Lemma budget_connect_catch err c :
  conn_budget a (connect_catch err c).1 = conn_budget a c
  /\ suspended (connect_catch err c).2 = [].
Proof. unfold connect_catch. split; spend. Qed.

Lemma budget_connect_finish c :
  conn_budget a (connect_finish c).1 = conn_budget a c
  /\ suspended (connect_finish c).2 = [].
Proof. unfold connect_finish, connect_catch. split; spend. Qed.

Lemma budget_connect_after_transport called r c :
  conn_budget a (connect_after_transport called r c).1 = conn_budget a c
  /\ sum_list (task_budget a
               <$> suspended (connect_after_transport called r c).2) = 0%nat.
Proof.
  unfold connect_after_transport, connect_finish, connect_catch.
  split; spend.
Qed.

Lemma budget_connect_after_hook r c :
  conn_budget a (connect_after_hook r c).1 = conn_budget a c
  /\ suspended (connect_after_hook r c).2 = [].
Proof.
  unfold connect_after_hook, connect_finish, connect_catch. split; spend.
Qed.

Lemma budget_disconnect fatalError now c :
  (conn_budget a (disconnect fatalError now c).1
   + sum_list (task_budget a <$> suspended (disconnect fatalError now c).2)
   <= conn_budget a c)%nat.
Proof. unfold disconnect, pending_cancel. spend. Qed.

Lemma budget_disconnect_after_hook called r c :
  (conn_budget a (disconnect_after_hook called r c).1
   + sum_list (task_budget a
               <$> suspended (disconnect_after_hook called r c).2)
   <= conn_budget a c + al_at_hook a)%nat.
Proof. unfold disconnect_after_hook, disconnect_finally. spend. Qed.

Lemma budget_transport_disconnected c :
  (conn_budget a (transport_disconnected c).1
   + sum_list (task_budget a <$> (transport_disconnected c).2)
   <= conn_budget a c)%nat.
Proof.
  unfold transport_disconnected, onConnectionTerminated, onResponse,
    pending_resolve, pending_reject, pending_cancel.
  spend.
Qed.

Lemma budget_after_listeners c :
  conn_budget a (disconnect_finally
                   (set_connectPromise None (log (Emit disconnected) c)))
  = (conn_budget a c + weight a (Emit disconnected))%nat.
Proof.
  unfold conn_budget, disconnect_finally, fires, log. simpl.
  rewrite count_snoc. unfold weight.
  destruct (disconnectPromise c); simpl; lia.
Qed.

Lemma budget_disconnect_after_transport called r c :
  (conn_budget a (disconnect_after_transport called r c).1.1
   + sum_list (task_budget a
               <$> ((disconnect_after_transport called r c).1.2
                    ++ suspended (disconnect_after_transport called r c).2))
   <= conn_budget a c + al_at_transport a)%nat.
Proof.
  unfold disconnect_after_transport, transport_emit_disconnected.
  destruct (awaited called r); simpl;
    [|unfold disconnect_finally; spend].
  match goal with
  | |- context [transport_disconnected ?c1] =>
      pose proof (budget_transport_disconnected c1) as Hl;
      assert (Hc1 : conn_budget a c1
                    = (conn_budget a c
                       + weight a (TransportEmit disconnected))%nat)
        by (unfold conn_budget, fires, log; simpl; rewrite count_snoc;
            unfold weight; lia);
      destruct (transport_disconnected c1) as [c2 spawned]
  end.
  simpl in *. rewrite budget_after_listeners.
  assert (Hdone : forall o : option Settlement,
             suspended match o with
                       | Some p => ReturnedPromise p
                       | None => Returned JUndefined
                       end = []) by (by intros []).
  rewrite Hdone, app_nil_r.
  pose proof (pays_transport a Ha). lia.
Qed.

Lemma budget_sendRequest_send ic idc payload timeoutMs now c :
  conn_budget a (sendRequest_send ic idc payload timeoutMs now c).1
  = conn_budget a c
  /\ sum_list (task_budget a
               <$> suspended
                     (sendRequest_send ic idc payload timeoutMs now c).2)
     = 0%nat.
Proof. unfold sendRequest_send, pending_create. split; spend. Qed.

Lemma budget_sendRequest payload timeoutMs now c :
  conn_budget a (sendRequest payload timeoutMs now c).1.1 = conn_budget a c
  /\ sum_list (task_budget a
               <$> ((sendRequest payload timeoutMs now c).1.2
                    ++ suspended (sendRequest payload timeoutMs now c).2))
     = 0%nat.
Proof.
  unfold sendRequest, sendRequest_send, pending_create, connect.
  split; spend.
Qed.

Lemma budget_sendRequest_complete id ic idc r c :
  conn_budget a (sendRequest_complete id ic idc r c).1 = conn_budget a c
  /\ suspended (sendRequest_complete id ic idc r c).2 = [].
Proof.
  unfold sendRequest_complete, sendRequest_finally, pending_delete.
  split; spend.
Qed.

Lemma budget_resume t r now c :
  (conn_budget a (resume t r now c).1.1
   + sum_list (task_budget a
               <$> ((resume t r now c).1.2 ++ suspended (resume t r now c).2))
   <= conn_budget a c + task_budget a t)%nat.
Proof.
  destruct t; simpl.
  - destruct (budget_connect_after_transport called r c) as [He Hs].
    destruct (connect_after_transport _ _ _); simpl in *. lia.
  - destruct (budget_connect_after_hook r c) as [He Hs].
    destruct (connect_after_hook _ _); simpl in *. rewrite Hs. simpl. lia.
  - pose proof (budget_disconnect_after_hook called r c).
    destruct (disconnect_after_hook _ _ _); simpl in *. lia.
  - apply budget_disconnect_after_transport.
  - unfold sendRequest_after_connect. destruct r; [|simpl; lia].
    destruct (budget_sendRequest_send false false payload timeoutMs now c)
      as [He Hs].
    destruct (sendRequest_send _ _ _ _ _ _); simpl in *. lia.
  - destruct (budget_sendRequest_complete id isConnect isDisconnect r c)
      as [He Hs].
    destruct (sendRequest_complete _ _ _ _ _); simpl in *.
    rewrite Hs. simpl. lia.
  - unfold onConnectionTerminated_resume. spend.
Qed.

(** No step raises the budget. *)
Lemma budget_step w ev : (budget a (step w ev) <= budget a w)%nat.
Proof.
  unfold budget. destruct ev; simpl.
  - destruct (budget_connect isAutoConnect timeoutMs now (conn w)) as [He Hs].
    destruct (connect _ _ _ _); simpl in *.
    rewrite fmap_app, sum_list_with_app. simpl. lia.
  - pose proof (budget_disconnect fatalError now (conn w)).
    destruct (disconnect _ _ _); simpl in *.
    rewrite fmap_app, sum_list_with_app. lia.
  - destruct (budget_sendRequest payload timeoutMs now (conn w)) as [He Hs].
    destruct (sendRequest _ _ _ _) as [[? ?] ?]; simpl in *.
    rewrite fmap_app, sum_list_with_app. lia.
  - reflexivity.
  - reflexivity.
  - rewrite budget_onMessage. reflexivity.
  - pose proof (budget_transport_disconnected (conn w)).
    destruct (transport_disconnected _); simpl in *.
    rewrite fmap_app, sum_list_with_app. lia.
  - reflexivity.
  - destruct (tasks w !! i) as [t|] eqn:Hi; [|reflexivity].
    pose proof (budget_resume t r now (conn w)).
    pose proof (sum_list_delete (task_budget a) _ _ _ Hi).
    destruct (resume _ _ _ _) as [[? ?] ?]; simpl in *.
    rewrite fmap_app, sum_list_with_app. lia.
Qed.

Lemma budget_run evs w : (budget a (run w evs) <= budget a w)%nat.
Proof.
  revert w. induction evs as [|ev evs IH]; intros w; simpl; [lia|].
  etransitivity; [apply IH | apply budget_step].
Qed.

End Budget.

Lemma transport_disconnects_affordable : affordable transport_disconnects.
Proof. split; intros; simpl; try reflexivity; lia. Qed.

Lemma transport_emissions_affordable : affordable transport_emissions.
Proof. split; intros; simpl; try reflexivity; lia. Qed.

Lemma cancellations_affordable : affordable cancellations.
Proof. split; intros; simpl; try reflexivity; lia. Qed.

Lemma hook_invocations_affordable : affordable hook_invocations.
Proof. split; intros; simpl; try reflexivity; lia. Qed.

Lemma emissions_affordable : affordable emissions.
Proof. split; intros; simpl; try reflexivity; lia. Qed.

Lemma count_le_budget a w :
  (count (al_kind a) (effects (conn w)) <= budget a w)%nat.
Proof. unfold budget, conn_budget. lia. Qed.

(** X1: over the whole lifetime of a controller, whatever is called and however
    the suspended calls are resumed, [transport.disconnect] is called at
    most once and the controller emits the transport-level ['disconnected']
    at most once; the pending messages are cancelled at most twice,
    [beforeDisconnectFn] is invoked at most twice and the controller-level
    ['disconnected'] is emitted at most twice (once by [disconnect], once by
    [onConnectionTerminated]). *)
Theorem lifetime_teardown_bounds t skipConnect evs :
  let l := effects (conn (run (start t skipConnect) evs)) in
  (count is_transport_disconnect l <= 1)%nat
  /\ (count is_transport_emit_disconnected l <= 1)%nat
  /\ (count is_cancel l <= 2)%nat
  /\ (count is_beforeDisconnectFn l <= 2)%nat
  /\ (count is_emit_disconnected l <= 2)%nat.
Proof.
  intros l. subst l.
  pose proof (fun a Ha =>
    Nat.le_trans _ _ _
      (count_le_budget a (run (start t skipConnect) evs))
      (budget_run a Ha evs (start t skipConnect))) as Hb.
  pose proof (Hb _ transport_disconnects_affordable).
  pose proof (Hb _ transport_emissions_affordable).
  pose proof (Hb _ cancellations_affordable).
  pose proof (Hb _ hook_invocations_affordable).
  pose proof (Hb _ emissions_affordable).
  repeat split; assumption.
Qed.

(** ** One transport connect for many callers *)

(** Once a connect promise exists, an opening call changes nothing in the
    controller; [sendRequest] is left waiting for that promise. *)
Lemma opens_existing w ev p :
  connectPromise (conn w) = Some p ->
  isSendingConnect (conn w) = false ->
  isSendingDisconnect (conn w) = false ->
  opens ev = true ->
  step w ev = mkSystem (conn w) (tasks w ++ waits_for_connect ev).
Proof.
  intros Hp Hc Hd Hev. destruct ev; try discriminate; simpl.
  - unfold connect. rewrite Hp. simpl. reflexivity.
  - unfold sendRequest, connect. rewrite Hc, Hd, Hp. simpl. reflexivity.
Qed.

Lemma run_cons w ev evs : run w (ev :: evs) = run (step w ev) evs.
Proof. reflexivity. Qed.

Lemma opens_existing_run evs w p :
  connectPromise (conn w) = Some p ->
  isSendingConnect (conn w) = false ->
  isSendingDisconnect (conn w) = false ->
  Forall (fun ev => opens ev = true) evs ->
  run w evs = mkSystem (conn w) (tasks w ++ (evs ≫= waits_for_connect)).
Proof.
  revert w. induction evs as [|ev evs IH]; intros w Hp Hc Hd Hevs.
  - simpl. rewrite app_nil_r. by destruct w.
  - inversion Hevs as [|? ? Hev Hevs']; subst.
    rewrite run_cons, (opens_existing w ev p) by done.
    rewrite (IH (mkSystem (conn w) (tasks w ++ waits_for_connect ev))
               Hp Hc Hd Hevs').
    simpl. by rewrite <- app_assoc.
Qed.

(** X2: however many [connect] and [sendRequest] calls are made on an idle
    controller before the transport answers, the transport connect is
    started once, by the first of them and with its arguments; every other
    call only waits: no further effect, one [connect] activation, and one
    waiting activation per [sendRequest]. *)
Theorem connect_coalesced c ev evs :
  connectPromise c = None ->
  isSendingConnect c = false ->
  isSendingDisconnect c = false ->
  Forall (fun ev => opens ev = true) (ev :: evs) ->
  let w := run (mkSystem c []) (ev :: evs) in
  effects (conn w)
  = effects c
    ++ (if hasConnect (transport c)
        then [TransportConnect (connect_timeout ev)] else [])
  /\ (count is_transport_connect (effects (conn w))
      = count is_transport_connect (effects c)
        + (if hasConnect (transport c) then 1 else 0))%nat
  /\ connectPromise (conn w) = Some Pending
  /\ didAutoConnect (conn w) = connect_auto ev
  /\ tasks w
     = ConnectAwaitsTransport (hasConnect (transport c))
       :: ((ev :: evs) ≫= waits_for_connect).
Proof.
  intros Hnone Hc Hd Hevs w. inversion Hevs as [|? ? Hev Hevs']; subst.
  assert (Hfirst :
    exists now,
      step (mkSystem c []) ev
      = mkSystem (connect (connect_auto ev) (connect_timeout ev) now c).1
          (ConnectAwaitsTransport (hasConnect (transport c))
           :: waits_for_connect ev)).
  { destruct ev; try discriminate; simpl; exists now.
    - unfold connect. rewrite Hnone. simpl. reflexivity.
    - unfold sendRequest, connect. rewrite Hc, Hd, Hnone. simpl.
      reflexivity. }
  destruct Hfirst as [now Hfirst]. subst w.
  rewrite run_cons, Hfirst.
  assert (Hc1 : connect (connect_auto ev) (connect_timeout ev) now c
                = (let c' := set_connectPromise (Some Pending)
                               (set_connectStartTime (Some now)
                                  (set_didAutoConnect (connect_auto ev) c)) in
                   if hasConnect (transport c)
                   then log (TransportConnect (connect_timeout ev)) c'
                   else c',
                   Suspended
                     (ConnectAwaitsTransport (hasConnect (transport c))))).
  { unfold connect. rewrite Hnone. simpl.
    destruct (hasConnect (transport c)); reflexivity. }
  rewrite Hc1. simpl.
  rewrite (opens_existing_run evs _ Pending);
    [|destruct (hasConnect (transport c)); simpl; done..|done].
  simpl. destruct (hasConnect (transport c)); simpl;
    rewrite ?count_snoc, ?app_nil_r; simpl; repeat split; lia.
Qed.

Lemma connect_coalesced_witness :
  let evs := [CallSendRequest Sample.ping None 1;
              CallSendRequest Sample.ping (Some 50) 2;
              CallConnect true 10 3] in
  let w := run (mkSystem Sample.fresh []) evs in
  effects (conn w) = [TransportConnect 30000]
  /\ didAutoConnect (conn w) = false
  /\ tasks w = [ConnectAwaitsTransport true;
                SendAwaitsConnect Sample.ping None;
                SendAwaitsConnect Sample.ping (Some 50)].
Proof.
  intros evs w.
  destruct (connect_coalesced Sample.fresh
              (CallSendRequest Sample.ping None 1)
              [CallSendRequest Sample.ping (Some 50) 2; CallConnect true 10 3])
    as (Heff & _ & _ & Hauto & Htasks);
    [reflexivity | reflexivity | reflexivity | repeat constructor |].
  split; [exact Heff|]. split; [exact Hauto | exact Htasks].
Defined.

Ltac preconnected_done :=
  constructor; simpl; rewrite ?Forall_app; try done;
  repeat split; try done; repeat constructor.

Lemma preconnected_step t w ev :
  preconnected t w -> calls_disconnect ev = false -> preconnected t (step w ev).
Proof.
  intros [Hp Ht He Hs Ha Hc Hm Hk] Hev.
  destruct ev; try discriminate Hev; simpl.
  - unfold connect. rewrite Hp. simpl. preconnected_done.
  - unfold sendRequest, connect, sendRequest_send, pending_create.
    rewrite Hc, Hp. simpl.
    destruct (isSendingDisconnect (conn w)); simpl; preconnected_done.
  - preconnected_done.
  - preconnected_done.
  - unfold onMessage, onEvent, onResponse, pending_reject, pending_resolve.
    repeat case_match; preconnected_done.
  - unfold transport_disconnected, onConnectionTerminated, onResponse,
      pending_reject, pending_resolve, pending_cancel.
    cbv zeta. simpl. rewrite Hm. simpl.
    repeat (case_match; simplify_eq/=); preconnected_done.
  - preconnected_done.
  - destruct (tasks w !! i) as [task|] eqn:Hi; [|preconnected_done].
    assert (Ho : outside_connect task = true).
    { by apply (proj1 (Forall_lookup _ _) Hk i task). }
    assert (Hd : Forall (fun t => outside_connect t = true)
                   (base.delete i (tasks w))) by by apply Forall_delete.
    destruct task
      as [| | | | payload timeoutMs | id [|] isDisconnect | called];
      try discriminate Ho; simpl.
    + unfold sendRequest_after_connect, sendRequest_send, pending_create.
      destruct r; simpl; preconnected_done.
    + unfold sendRequest_complete, sendRequest_finally, pending_delete.
      repeat (case_match; simplify_eq/=); preconnected_done.
    + unfold onConnectionTerminated_resume.
      repeat (case_match; simplify_eq/=); preconnected_done.
Qed.

Lemma preconnected_run t evs w :
  preconnected t w -> Forall (fun ev => calls_disconnect ev = false) evs ->
  preconnected t (run w evs).
Proof.
  revert w. induction evs as [|ev evs IH]; intros w Hw Hevs; [done|].
  inversion Hevs; subst. rewrite run_cons.
  apply IH; [by apply preconnected_step | done].
Qed.

(** X3: with [skipConnect] on a connected transport the controller is connected
    from the start, and as long as [disconnect] is not called it never
    connects, under every schedule of calls, transport signals, timers and
    resumed activations: the connect promise stays the fulfilled one, so
    that [isConnectedToTransport] is what the transport's flag says, which
    the controller does not write; the transport's connect is never called,
    [afterConnectFn] never runs, ['connected'] is never emitted, the connect
    bookkeeping ([connectStartTime], [didAutoConnect], [isSendingConnect],
    [connectMessageId]) stays as the constructor left it, and no [connect]
    is ever suspended. *)
Theorem skipConnect_never_connects t evs :
  isConnected t = true ->
  Forall (fun ev => calls_disconnect ev = false) evs ->
  let w := run (start t true) evs in
  isConnectedToTransport (conn (start t true)) = true
  /\ connectPromise (conn w) = Some Fulfilled
  /\ transport (conn w) = t
  /\ isConnectedToTransport (conn w) = isConnected (transport (conn w))
  /\ Forall (fun e => is_connecting e = false) (effects (conn w))
  /\ connectStartTime (conn w) = None
  /\ didAutoConnect (conn w) = false
  /\ isSendingConnect (conn w) = false
  /\ connectMessageId (conn w) = None
  /\ Forall (fun t => outside_connect t = true) (tasks w).
Proof.
  intros Ht Hevs w.
  assert (Hw : preconnected t w).
  { apply preconnected_run; [|done].
    constructor; simpl; rewrite ?Ht; by try constructor. }
  destruct Hw as [Hp Htr He Hs Ha Hc Hm Hk].
  unfold isConnectedToTransport. rewrite Hp, Htr. simpl.
  rewrite Ht, andb_true_r. done.
Qed.

Lemma skipConnect_never_connects_witness :
  let t := set_isConnected true Sample.core in
  let w := run (start t true)
             [CallSendRequest Sample.ping None 1; CallConnect false 10 2;
              Resume 0 (Ok JUndefined) 3;
              TransportMessage
                {| responseId := Some "1"; data := DVal JNull;
                   listenerId := None; eventType := None |};
              Resume 0 (Ok JNull) 4; TransportDisconnected] in
  connectPromise (conn w) = Some Fulfilled
  /\ isConnectedToTransport (conn w) = isConnected (transport (conn w))
  /\ Forall (fun e => is_connecting e = false) (effects (conn w))
  /\ length (effects (conn w)) = 5%nat /\ tasks w = [TerminatedAwaitsHook false].
Proof.
  intros t w.
  destruct (skipConnect_never_connects t
              [CallSendRequest Sample.ping None 1; CallConnect false 10 2;
               Resume 0 (Ok JUndefined) 3;
               TransportMessage
                 {| responseId := Some "1"; data := DVal JNull;
                    listenerId := None; eventType := None |};
               Resume 0 (Ok JNull) 4; TransportDisconnected])
    as (_ & Hp & _ & Hconn & Heff & _);
    [reflexivity | repeat constructor |].
  split; [exact Hp|]. split; [exact Hconn|]. split; [exact Heff|].
  split; reflexivity.
Defined.

(** ** A settled connect promise *)

Lemma resolve_settled p : isResolved p = true -> resolve p = p.
Proof. by destruct p. Qed.

Lemma reject_settled e p : isResolved p = true -> reject e p = p.
Proof. by destruct p. Qed.

Section Settled.

Variable p : Settlement.
Hypothesis Hp : isResolved p = true.

Ltac kept :=
  cbv zeta; repeat (case_match; simplify_eq/=);
  rewrite ?resolve_settled, ?reject_settled by done; try done.

Lemma kept_onResponse id d c :
  connectPromise c = Some p -> connectPromise (onResponse id d c) = Some p.
Proof. unfold onResponse. kept. Qed.

Lemma kept_transport_disconnected c :
  connectPromise (transport_disconnected c).1 = connectPromise c.
Proof.
  unfold transport_disconnected, onConnectionTerminated, onResponse. kept.
Qed.

Lemma kept_resume t r now c :
  connectPromise c = Some p ->
  connectPromise (resume t r now c).1.1 = Some p
  \/ (connectPromise (resume t r now c).1.1 = None
      /\ exists called, t = DisconnectAwaitsTransport called).
Proof.
  intros Hc. destruct t; simpl.
  - left. unfold connect_after_transport, connect_finish, connect_catch.
    rewrite Hc. kept.
  - left. unfold connect_after_hook, connect_finish, connect_catch.
    destruct r; simpl; rewrite Hc; simpl;
      rewrite ?resolve_settled, ?reject_settled by done; done.
  - left. unfold disconnect_after_hook. kept.
  - unfold disconnect_after_transport, transport_emit_disconnected.
    destruct (awaited called r); simpl; [|by left].
    destruct (transport_disconnected _). simpl. right. eauto.
  - left. unfold sendRequest_after_connect, sendRequest_send, pending_create.
    kept.
  - left. unfold sendRequest_complete, sendRequest_finally. kept.
  - left. unfold onConnectionTerminated_resume. kept.
Qed.

End Settled.

(** X4: A connect promise that is settled, fulfilled or rejected, is never
    settled again and never replaced: after any step it is the same promise,
    unless the step is the end of a [disconnect], which clears it.  In
    particular a failed connect stays failed: [connect] and [sendRequest]
    keep returning the rejected promise and do not try the transport
    again. *)
Theorem connectPromise_settled_once w ev p :
  connectPromise (conn w) = Some p ->
  isResolved p = true ->
  connectPromise (conn (step w ev)) = Some p
  \/ (connectPromise (conn (step w ev)) = None
      /\ exists i r now called,
           ev = Resume i r now
           /\ tasks w !! i = Some (DisconnectAwaitsTransport called)).
Proof.
  intros Hc Hp. destruct ev; simpl.
  - left. unfold connect. by rewrite Hc.
  - left. unfold disconnect. cbv zeta. repeat (case_match; simplify_eq/=); done.
  - left. unfold sendRequest, connect, sendRequest_send, pending_create.
    rewrite Hc. cbv zeta. repeat (case_match; simplify_eq/=); done.
  - by left.
  - by left.
  - left. unfold onMessage, onEvent.
    repeat case_match; simpl; auto using kept_onResponse.
  - left. pose proof (kept_transport_disconnected (conn w)) as Hk.
    destruct (transport_disconnected _). simpl in *. congruence.
  - by left.
  - destruct (tasks w !! i) as [t|] eqn:Hi; [|by left].
    destruct (kept_resume p Hp t r now (conn w) Hc) as [Hk|[Hk [called ->]]];
      destruct (resume _ _ _ _) as [[? ?] ?]; simpl in *; [by left|].
    right. split; [done|]. eauto 10.
Qed.

Lemma connectPromise_settled_once_witness :
  let failed := run (start Sample.core false)
                  [CallConnect false 30000 1; Resume 0 (Err Sample.boom) 2] in
  connectPromise (conn failed) = Some (Rejected Sample.boom)
  /\ connectPromise (conn (step failed (CallSendRequest Sample.ping None 3)))
     = Some (Rejected Sample.boom)
  /\ effects (conn (step failed (CallSendRequest Sample.ping None 3)))
     = [TransportConnect 30000].
Proof.
  intros failed. split; [reflexivity|]. split; [|reflexivity].
  destruct (connectPromise_settled_once failed
              (CallSendRequest Sample.ping None 3) (Rejected Sample.boom))
    as [Hkept|[_ (i & r & now & called & Hev & _)]];
    [reflexivity | reflexivity | exact Hkept | discriminate Hev].
Defined.

(** ** A connect that outlives a disconnect *)

(** X5: when a [disconnect] has completed while [connect] was suspended, the
    connect promise is gone ([connectPromise] is null): whatever the
    transport or the hook answered, [connect] then fails with a [TypeError]
    (the error of the transport or of the hook is lost), emits no
    ['connected'] and leaves the transport flag and the cleared promise as
    they are. *)
Theorem connect_after_cleared_promise c :
  connectPromise c = None ->
  (forall called r, connect_after_transport called r c = (c, Threw TypeError))
  /\ (forall e, connect_after_hook (Err e) c = (c, Threw TypeError))
  /\ (forall v, connect_after_hook (Ok v) c
                = (set_isSendingConnect false c, Threw TypeError)).
Proof.
  intros Hnone. repeat split; intros.
  - unfold connect_after_transport, connect_catch. rewrite Hnone.
    repeat case_match; reflexivity.
  - unfold connect_after_hook, connect_catch. by rewrite Hnone.
  - unfold connect_after_hook, connect_finish, connect_catch. simpl.
    by rewrite Hnone.
Qed.

Lemma connect_after_cleared_promise_witness :
  let w := run (start Sample.core false)
             [CallConnect false 30000 1; CallDisconnect None 2;
              Resume 1 (Ok JUndefined) 3; Resume 1 (Ok JUndefined) 4] in
  tasks w !! 0%nat = Some (ConnectAwaitsTransport true)
  /\ connectPromise (conn w) = None
  /\ connect_after_transport true (Ok JUndefined) (conn w)
     = (conn w, Threw TypeError).
Proof.
  intros w. split; [reflexivity|]. split; [reflexivity|].
  destruct (connect_after_cleared_promise (conn w)) as (Hthrows & _);
    [reflexivity|].
  exact (Hthrows true (Ok JUndefined)).
Defined.

(** ** Inbound frames *)

Lemma onMessage_event f c :
  no_response f ->
  onMessage f c
  = set_effects (effects c ++ (if has_event_tag f then [EmitEvent f] else []))
      c.
Proof.
  unfold no_response, onMessage, onEvent, has_event_tag, log. intros ->.
  destruct (_ || _); [reflexivity|]. rewrite app_nil_r. by destruct c.
Qed.

(** X6: frames without a [responseId] never touch the controller state: those
    that carry a [listenerId] or an [eventType] are emitted as ['event'],
    verbatim, once each and in arrival order; all others are dropped.
    Nothing is resumed or suspended. *)
Theorem events_forwarded_in_order frames w :
  Forall no_response frames ->
  run w (TransportMessage <$> frames)
  = mkSystem
      (set_effects
         (effects (conn w)
          ++ (EmitEvent <$> filter (fun f => has_event_tag f = true) frames))
         (conn w))
      (tasks w).
Proof.
  revert w. induction frames as [|f frames IH]; intros w Hfs.
  - simpl. rewrite app_nil_r. by destruct w as [[] ?].
  - inversion Hfs as [|? ? Hf Hfs']; subst.
    rewrite fmap_cons, run_cons. simpl step. rewrite onMessage_event by done.
    rewrite IH by done. simpl. rewrite filter_cons.
    case_decide as Htag.
    + rewrite Htag. simpl. by rewrite <- app_assoc.
    + apply not_true_is_false in Htag. rewrite Htag. by rewrite app_nil_r.
Qed.

Lemma events_forwarded_in_order_witness :
  let e1 := mkFrame None (DVal (JNum 1)) (Some "7") None in
  let junk := mkFrame None (DVal JNull) None None in
  let e2 := mkFrame None (DVal (JNum 2)) None (Some "close") in
  effects (conn (run (start Sample.core false)
                   (TransportMessage <$> [e1; junk; e2])))
  = [EmitEvent e1; EmitEvent e2].
Proof.
  intros e1 junk e2.
  rewrite (events_forwarded_in_order [e1; junk; e2]
             (start Sample.core false)).
  - reflexivity.
  - repeat constructor.
Defined.

(** ** Requests sent from inside a hook *)

(** X7: while [afterConnectFn] runs ([isSendingConnect] is true), [sendRequest]
    does not wait for the connection: it creates an internal pending entry
    and sends the frame at once, and [connectMessageId] holds the id of the
    latest such request only.  When two of them overlap, the completion of
    the first, with a response or an error, clears the slot although the
    second is still waiting. *)
Theorem handshake_requests_share_slot c p1 t1 now1 p2 t2 now2 r now3 :
  isSendingConnect c = true ->
  isSendingDisconnect c = false ->
  let w := run (mkSystem c [])
             [CallSendRequest p1 t1 now1; CallSendRequest p2 t2 now2] in
  exists id1 id2,
    id1 <> id2
    /\ tasks w = [SendAwaitsResponse id1 true false;
                  SendAwaitsResponse id2 true false]
    /\ effects (conn w)
       = effects c
         ++ [PendingOp (PCreate t1 true);
             TransportSend (mkRequestFrame p1 id1 now1);
             PendingOp (PCreate t2 true);
             TransportSend (mkRequestFrame p2 id2 now2)]
    /\ connectPromise (conn w) = connectPromise c
    /\ connectMessageId (conn w) = Some id2
    /\ connectMessageId (conn (step w (Resume 0 r now3))) = None
    /\ tasks (step w (Resume 0 r now3)) = [SendAwaitsResponse id2 true false].
Proof.
  intros Hc Hd w.
  exists (pretty (N.succ (lastId (pendingMessages c)))),
         (pretty (N.succ (N.succ (lastId (pendingMessages c))))).
  split. { intros Heq. apply (inj pretty) in Heq. lia. }
  subst w. unfold run. simpl foldl.
  unfold sendRequest, sendRequest_send, pending_create.
  repeat (simpl; rewrite ?Hc, ?Hd).
  rewrite <- ?app_assoc. simpl.
  destruct r; simpl; repeat split;
    destruct (bool_decide (is_Some (disconnectPromise c)) && err_canceled e);
    reflexivity.
Qed.

Lemma handshake_requests_share_slot_witness :
  let c := conn (run (start Sample.core false)
                   [SetHooks Sample.both_hooks; CallConnect false 30000 1;
                    Resume 0 (Ok JUndefined) 2]) in
  let w := run (mkSystem c [])
             [CallSendRequest Sample.ping None 3;
              CallSendRequest Sample.ping None 4] in
  isSendingConnect c = true
  /\ exists id1 id2,
       id1 <> id2
       /\ tasks w = [SendAwaitsResponse id1 true false;
                     SendAwaitsResponse id2 true false]
       /\ connectMessageId (conn (step w (Resume 0 (Ok JNull) 5))) = None.
Proof.
  intros c w. split; [reflexivity|].
  destruct (handshake_requests_share_slot c Sample.ping None 3
              Sample.ping None 4 (Ok JNull) 5)
    as (id1 & id2 & Hne & Htasks & _ & _ & _ & Hslot & _);
    [reflexivity | reflexivity |].
  exists id1, id2. split; [exact Hne|]. split; [exact Htasks | exact Hslot].
Defined.

(** * Properties of TypedEventEmitter *)

Section EmitterFacts.

Import Emitter.

Implicit Types (s : State) (t : string) (l : Listener).

Lemma listeners_set_listeners t rs s :
  listeners (set_listeners t rs s) t = rs.
Proof. unfold listeners. simpl. by rewrite lookup_insert_eq. Qed.

Lemma listeners_set_listeners_ne t t' rs s :
  t <> t' -> listeners (set_listeners t rs s) t' = listeners s t'.
Proof. intros Hne. unfold listeners. simpl. by rewrite lookup_insert_ne. Qed.

Lemma remove_first_absent l rs :
  Forall (fun r => handler r <> l) rs -> remove_first l rs = rs.
Proof.
  induction 1 as [|r rs Hr _ IH]; simpl; [done|].
  rewrite decide_False by done. by rewrite IH.
Qed.

Lemma remove_last_absent l rs :
  Forall (fun r => handler r <> l) rs -> remove_last l rs = rs.
Proof.
  intros Hrs. unfold remove_last.
  rewrite remove_first_absent by (by apply Forall_reverse).
  apply reverse_involutive.
Qed.

(** [removeListener] takes away the registration that was added last. *)
Lemma remove_last_snoc l rs r :
  handler r = l -> remove_last l (rs ++ [r]) = rs.
Proof.
  intros Hr. unfold remove_last. rewrite reverse_snoc. simpl.
  rewrite decide_True by done. apply reverse_involutive.
Qed.

Lemma logEvent_unlogged t e s :
  t ∉ eventsToLog s -> logEvent t e s = (s, Done ()).
Proof. intros Ht. unfold logEvent. by rewrite decide_False. Qed.

(** ** Events stored while nobody listens *)

Lemma emit_stores t e i s :
  storeEventsWithoutListeners s = true ->
  listeners s t = [] ->
  emit t e i s
  = (set_stored
       (<[t := default [] (storedEventsByType s !! t) ++ [e]]>
          (storedEventsByType s)) s,
     Done false).
Proof.
  intros Hstore Hnone. unfold emit, listenerCount. rewrite Hstore, Hnone.
  reflexivity.
Qed.

Lemma emit_all_stores t events s :
  storeEventsWithoutListeners s = true ->
  listeners s t = [] ->
  events <> [] ->
  emit_all t events s
  = set_stored
      (<[t := default [] (storedEventsByType s !! t) ++ events]>
         (storedEventsByType s)) s.
Proof.
  revert s. induction events as [|e events IH]; intros s Hstore Hnone Hne;
    [done|].
  unfold emit_all in *. simpl. rewrite emit_stores by done. simpl.
  destruct events as [|e' events]; [done|].
  rewrite IH by done. simpl. rewrite lookup_insert_eq. simpl.
  rewrite insert_insert_eq, <- app_assoc. reflexivity.
Qed.

(** Replaying to a single listener that stays registered. *)
Lemma replay_single t events s n :
  listeners s t = [mkRegistration (Fn n) false] ->
  t ∉ eventsToLog s ->
  exists s',
    replay t events s = (s', Done ())
    /\ trace s' = trace s ++ ((fun e => Call (Fn n) t e None) <$> events)
    /\ listeners s' t = [mkRegistration (Fn n) false]
    /\ storedEventsByType s' = storedEventsByType s
    /\ promises s' = promises s
    /\ pendingWaitEventsById s' = pendingWaitEventsById s.
Proof.
  revert s. induction events as [|e events IH]; intros s Hl Hlog; simpl.
  - exists s. by rewrite app_nil_r.
  - rewrite logEvent_unlogged by done. unfold super_emit. rewrite Hl. simpl.
    match goal with
    | |- context [replay t events ?s1] => destruct (IH s1) as (s' & -> & Ht & ?)
    end.
    + apply listeners_set_listeners.
    + done.
    + exists s'. split; [done|]. rewrite Ht. simpl.
      rewrite <- app_assoc. done.
Qed.

(** The state in which [on] and [once] turn to the stored events. *)
Lemma on_registers t n s :
  listeners s t = [] ->
  exists s',
    (let s := super_on t (Fn n) s in
     let s := if bool_decide (t = "error")
                 && negb (bool_decide (Fn n = DefaultErrorLogger))
              then super_off "error" DefaultErrorLogger s else s in
     listener_added t s) = s'
    /\ listeners s' t = [mkRegistration (Fn n) false]
    /\ trace s'
       = trace s ++ (if onEventListenerAdded s then [ListenerAdded t] else [])
    /\ eventsToLog s' = eventsToLog s
    /\ storedEventsByType s' = storedEventsByType s.
Proof.
  intros Hnone. eexists. split; [reflexivity|]. cbv zeta.
  unfold listener_added, super_on. rewrite Hnone. simpl.
  destruct (bool_decide (t = "error")) eqn:Ht; simpl.
  - apply bool_decide_eq_true in Ht. subst t.
    unfold super_off. rewrite listeners_set_listeners.
    rewrite remove_last_absent by (repeat constructor; done).
    destruct (onEventListenerAdded s); simpl;
      rewrite ?app_nil_r; repeat split;
      unfold listeners; simpl; by rewrite lookup_insert_eq.
  - destruct (onEventListenerAdded s); simpl;
      rewrite ?app_nil_r; repeat split;
      unfold listeners; simpl; by rewrite lookup_insert_eq.
Qed.

(** X8: with [storeEventsWithoutListeners], events emitted for a type without
    listeners are kept instead of delivered ([emit] answers false and calls
    nobody).  The first listener added with [includeUnhandledEvents]
    receives all of them, once each and in the order of emission, and the
    store of that type is then empty; a listener added without it receives
    none, and the stored events are gone all the same. *)
Theorem stored_events_replayed s t e events n :
  storeEventsWithoutListeners s = true ->
  listeners s t = [] ->
  t ∉ eventsToLog s ->
  let kept := default [] (storedEventsByType s !! t) ++ e :: events in
  let added := if onEventListenerAdded s then [ListenerAdded t] else [] in
  let s1 := emit_all t (e :: events) s in
  (emit t e None s).2 = Done false
  /\ trace s1 = trace s
  /\ storedEventsByType s1 !! t = Some kept
  /\ (exists s2,
        on t (Fn n) true s1 = (s2, Done ())
        /\ trace s2
           = trace s ++ added ++ ((fun e => Call (Fn n) t e None) <$> kept)
        /\ listeners s2 t = [mkRegistration (Fn n) false]
        /\ storedEventsByType s2 !! t = None)
  /\ (exists s3,
        on t (Fn n) false s1 = (s3, Done ())
        /\ trace s3 = trace s ++ added
        /\ storedEventsByType s3 !! t = None).
Proof.
  intros Hstore Hnone Hlog kept added s1.
  assert (Hs1 : s1 = set_stored (<[t := kept]> (storedEventsByType s)) s)
    by (by apply emit_all_stores).
  split; [by rewrite emit_stores|].
  split; [by rewrite Hs1|].
  split; [rewrite Hs1; simpl; apply lookup_insert_eq|].
  assert (Hnone1 : listeners s1 t = []) by (by rewrite Hs1).
  assert (Hkept : kept <> []) by (subst kept; by destruct (default _ _)).
  destruct (on_registers t n s1 Hnone1) as (sA & HsA & Hl & Htr & Hlg & Hst).
  rewrite Hs1 in Htr, Hlg, Hst. simpl in Htr, Hlg, Hst.
  split.
  - unfold on. cbv zeta in HsA. rewrite HsA.
    unfold replayOrClearMissedEvents. rewrite Hst, lookup_insert_eq.
    destruct kept as [|k kept']; [done|].
    match goal with
    | |- context [replay t ?evs ?s0] =>
        destruct (replay_single t evs s0 n) as (s2 & -> & Ht2 & Hl2 & Hs2 & _)
    end; [done | simpl; by rewrite Hlg |].
    exists s2. split; [done|]. simpl in Ht2, Hs2. rewrite Ht2, Htr, Hs2.
    rewrite <- app_assoc. repeat split; [done|]. apply lookup_delete_eq.
  - unfold on. cbv zeta in HsA. rewrite HsA.
    unfold replayOrClearMissedEvents. rewrite Hst, lookup_insert_eq.
    destruct kept as [|k kept']; [done|].
    eexists. split; [reflexivity|]. simpl. split; [done|].
    apply lookup_delete_eq.
Qed.

Lemma replay_nobody t events s :
  listeners s t = [] -> t <> "error" -> t ∉ eventsToLog s ->
  replay t events s = (s, Done ()).
Proof.
  intros Hnone Ht Hlog. induction events as [|e events IH]; simpl; [done|].
  rewrite logEvent_unlogged by done. unfold super_emit. rewrite Hnone.
  by rewrite decide_False.
Qed.

(** Without replay, [replayOrClearMissedEvents] only drops the stored
    events of the type. *)
Lemma replayOrClear_clears t s :
  exists s',
    replayOrClearMissedEvents false t s = (s', Done ())
    /\ registry s' = registry s
    /\ trace s' = trace s
    /\ onEventListenerAdded s' = onEventListenerAdded s
    /\ default [] (storedEventsByType s' !! t) = [].
Proof.
  unfold replayOrClearMissedEvents.
  destruct (storedEventsByType s !! t) as [[|e events]|] eqn:Hst;
    eexists; (split; [reflexivity|]); simpl; rewrite ?Hst;
    rewrite ?lookup_delete_eq; done.
Qed.

(** With nothing stored for the type it does nothing, whatever
    [shouldReplay] says. *)
Lemma replayOrClear_nothing b t s :
  default [] (storedEventsByType s !! t) = [] ->
  replayOrClearMissedEvents b t s = (s, Done ()).
Proof.
  unfold replayOrClearMissedEvents.
  by destruct (storedEventsByType s !! t) as [[|e events]|].
Qed.

Lemma trace_listener_added t s :
  trace (listener_added t s)
  = trace s ++ (if onEventListenerAdded s then [ListenerAdded t] else []).
Proof.
  unfold listener_added.
  destruct (onEventListenerAdded s); simpl; by rewrite ?app_nil_r.
Qed.

Lemma flag_listener_added t s :
  onEventListenerAdded (listener_added t s) = onEventListenerAdded s.
Proof. unfold listener_added. by destruct (onEventListenerAdded s) eqn:E. Qed.

(** X9: [once] and [prependOnceListener] never replay: the runtime registers
    their wrapper through [on] and [prependListener] of this class, which
    clear the stored events of the type before [includeUnhandledEvents] is
    looked at.  So whatever [includeUnhandledEvents] says, no listener is
    called, the stored events of the type are lost, and the listener is
    registered as a once listener, last ([once]; for ['error'] the default
    error logger is taken off) or first ([prependOnceListener]);
    [onEventListenerAdded], if set, is called twice by [once] and not at
    all by [prependOnceListener]. *)
Theorem once_replays_nothing s t l b :
  exists s1 s2,
    once t l b s = (s1, Done ())
    /\ prependOnceListener t l b s = (s2, Done ())
    /\ trace s1
       = trace s
         ++ (if onEventListenerAdded s
             then [ListenerAdded t; ListenerAdded t] else [])
    /\ trace s2 = trace s
    /\ listeners s1 t
       = (if decide (t = "error")
          then remove_last DefaultErrorLogger
                 (listeners s t ++ [mkRegistration l true])
          else listeners s t ++ [mkRegistration l true])
    /\ listeners s2 t = mkRegistration l true :: listeners s t
    /\ default [] (storedEventsByType s1 !! t) = []
    /\ default [] (storedEventsByType s2 !! t) = [].
Proof.
  unfold once, prependOnceListener, super_once, super_prependOnceListener.
  cbv zeta.
  match goal with
  | |- context [replayOrClearMissedEvents false t ?x] =>
      destruct (replayOrClear_clears t x) as (s1 & -> & Hr1 & Ht1 & Ha1 & Hs1)
  end.
  match goal with
  | |- context [replayOrClearMissedEvents false t ?x] =>
      destruct (replayOrClear_clears t x) as (s2 & -> & Hr2 & Ht2 & _ & Hs2)
  end.
  assert (Hs1' : default [] (storedEventsByType (listener_added t s1) !! t)
                 = []).
  { unfold listener_added. by destruct (onEventListenerAdded s1). }
  rewrite (replayOrClear_nothing b t (listener_added t s1)) by done.
  rewrite (replayOrClear_nothing b t s2) by done.
  exists (listener_added t s1), s2.
  split; [done|]. split; [done|].
  assert (Hl : forall x, listeners (listener_added t x) t = listeners x t).
  { intros x. unfold listener_added. by destruct (onEventListenerAdded x). }
  assert (Ho : forall x,
             onEventListenerAdded
               (if bool_decide (t = "error")
                then super_off "error" DefaultErrorLogger x else x)
             = onEventListenerAdded x).
  { intros x. by destruct (bool_decide (t = "error")). }
  assert (Hc : forall x,
             trace
               (if bool_decide (t = "error")
                then super_off "error" DefaultErrorLogger x else x)
             = trace x).
  { intros x. by destruct (bool_decide (t = "error")). }
  split; [|split; [|split; [|split; [|split; [done|done]]]]].
  - rewrite trace_listener_added, Ht1, Ha1, trace_listener_added,
      flag_listener_added, Ho, Hc. simpl.
    destruct (onEventListenerAdded s); simpl;
      rewrite <- ?app_assoc, ?app_nil_r; done.
  - by rewrite Ht2.
  - rewrite Hl. unfold listeners at 1. rewrite Hr1.
    change (default [] (registry ?x !! t)) with (listeners x t).
    rewrite Hl.
    destruct (decide (t = "error")) as [->|Hne].
    + rewrite bool_decide_eq_true_2 by done. unfold super_off.
      rewrite listeners_set_listeners. unfold add_wrapper.
      by rewrite listeners_set_listeners.
    + rewrite bool_decide_eq_false_2 by done. unfold add_wrapper.
      by rewrite listeners_set_listeners.
  - unfold listeners at 1. rewrite Hr2.
    change (default [] (registry ?x !! t)) with (listeners x t).
    unfold prepend_wrapper. by rewrite listeners_set_listeners.
Qed.























Lemma registry_cancel_loop m ex ws s :
  registry (cancel_loop m ex ws s) = registry s.
Proof.
  revert s. induction ws as [|[id w] ws IH]; intros s; simpl; [done|].
  case_match; by rewrite IH.
Qed.





(** ** cancelPendingEvents *)

Lemma cancel_loop_cons m ex id w ws s :
  cancel_loop m ex ((id, w) :: ws) s
  = if excluded ex w
    then cancel_loop m ex ws
           (set_pending (pendingWaitEventsById s ++ [(id, w)]) s)
    else cancel_loop m ex ws
           (set_promises
              (<[id := settle_promise (Failed (cancel_text m w))
                         (default Waiting (promises s !! id))]> (promises s))
              s).
Proof. reflexivity. Qed.

Lemma cancel_loop_spec m ex ws s :
  NoDup (ws.*1) ->
  pendingWaitEventsById (cancel_loop m ex ws s)
  = pendingWaitEventsById s ++ filter (fun iw => excluded ex iw.2 = true) ws
  /\ storedEventsByType (cancel_loop m ex ws s) = storedEventsByType s
  /\ trace (cancel_loop m ex ws s) = trace s
  /\ (forall id w, (id, w) ∈ ws ->
        promises (cancel_loop m ex ws s) !! id
        = if excluded ex w then promises s !! id
          else Some (settle_promise (Failed (cancel_text m w))
                       (default Waiting (promises s !! id))))
  /\ (forall id, id ∉ ws.*1 ->
        promises (cancel_loop m ex ws s) !! id = promises s !! id).
Proof.
  revert s. induction ws as [|[id w] ws IH]; intros s Hnd.
  { cbn [cancel_loop]. rewrite filter_nil, app_nil_r.
    repeat split; try done.
    intros id w Hin. by apply elem_of_nil in Hin. }
  rewrite fmap_cons in Hnd. cbn [fst] in Hnd.
  apply NoDup_cons in Hnd as [Hid Hnd].
  rewrite cancel_loop_cons, filter_cons. cbn [snd].
  destruct (excluded ex w) eqn:Hex.
  - rewrite decide_True by done.
    destruct (IH (set_pending (pendingWaitEventsById s ++ [(id, w)]) s) Hnd)
      as (Hp & Hs & Ht & Hin & Hout).
    cbn [pendingWaitEventsById storedEventsByType trace promises
         set_pending set_promises] in *.
    rewrite Hp, Hs, Ht, <- app_assoc. repeat split; try done.
    + intros id' w' Hel. apply elem_of_cons in Hel as [Heq|Hin'].
      * injection Heq as -> ->. rewrite Hex. by apply Hout.
      * by apply Hin.
    + intros id' Hid'. apply Hout. intros Hel. apply Hid'.
      rewrite fmap_cons. apply elem_of_cons. by right.
  - rewrite decide_False by done.
    destruct (IH (set_promises
                    (<[id := settle_promise (Failed (cancel_text m w))
                         (default Waiting (promises s !! id))]> (promises s))
                    s) Hnd)
      as (Hp & Hs & Ht & Hin & Hout).
    cbn [pendingWaitEventsById storedEventsByType trace promises
         set_pending set_promises] in *.
    rewrite Hp, Hs, Ht. repeat split; try done.
    + intros id' w' Hel. apply elem_of_cons in Hel as [Heq|Hin'].
      * injection Heq as -> ->. rewrite Hex, Hout by done.
        apply lookup_insert_eq.
      * rewrite (Hin id' w' Hin').
        assert (id' <> id).
        { intros ->. apply Hid. apply list_elem_of_fmap. by exists (id, w'). }
        by rewrite lookup_insert_ne.
    + intros id' Hid'.
      assert (id' <> id /\ id' ∉ ws.*1) as [Hne Hnot].
      { rewrite fmap_cons in Hid'. cbn [fst] in Hid'.
        rewrite not_elem_of_cons in Hid'. exact Hid'. }
      rewrite Hout by done. by apply lookup_insert_ne.
Qed.

(** X11: [cancelPendingEvents] keeps exactly the waits for the excluded event
    types, in their order, and rejects every other wait that is still
    pending, with the given message or else with the wait's own
    cancellation message; a wait that was already settled stays as it was.
    All stored events are dropped.  No listener is called or removed. *)
Theorem cancelPendingEvents_rejects_the_rest message excludeEvents s :
  NoDup ((pendingWaitEventsById s).*1) ->
  let s' := cancelPendingEvents message excludeEvents s in
  pendingWaitEventsById s'
  = filter (fun iw => excluded excludeEvents iw.2 = true)
      (pendingWaitEventsById s)
  /\ storedEventsByType s' = ∅
  /\ registry s' = registry s
  /\ trace s' = trace s
  /\ (forall id w, (id, w) ∈ pendingWaitEventsById s ->
        promises s' !! id
        = if excluded excludeEvents w then promises s !! id
          else Some (settle_promise (Failed (cancel_text message w))
                       (default Waiting (promises s !! id))))
  /\ (forall id, id ∉ (pendingWaitEventsById s).*1 ->
        promises s' !! id = promises s !! id).
Proof.
  intros Hnd s'.
  destruct (cancel_loop_spec message excludeEvents (pendingWaitEventsById s)
              (set_pending [] (set_stored ∅ s)) Hnd)
    as (Hp & Hs & Ht & Hin & Hout).
  subst s'. unfold cancelPendingEvents. cbv zeta.
  change (pendingWaitEventsById (set_stored ∅ s))
    with (pendingWaitEventsById s).
  split; [exact Hp|]. split; [exact Hs|].
  split; [by rewrite registry_cancel_loop|].
  split; [exact Ht|]. split; [exact Hin|exact Hout].
Qed.

End EmitterFacts.
(** ** Waiting for an event *)

Section EmitterWaits.

Import Emitter.

Implicit Types (s : State) (t : string) (l : Listener).




Lemma callbackFn_waits id e s : waits (callbackFn id e s) = waits s.
Proof. unfold callbackFn, stats. repeat case_match; done. Qed.





Lemma invoke_waits t e i s r : waits (invoke t e i s r) = waits s.
Proof.
  unfold invoke. cbv zeta. case_match; try done.
  by rewrite callbackFn_waits.
Qed.




Lemma foldl_invoke_waits t e i rs s :
  waits (foldl (invoke t e i) s rs) = waits s.
Proof.
  revert s. induction rs as [|r rs IH]; intros s; simpl; [done|].
  by rewrite IH, invoke_waits.
Qed.


Lemma logEvent_fields t e s :
  closures (logEvent t e s).1 = closures s
  /\ eventsToLog (logEvent t e s).1 = eventsToLog s
  /\ promises (logEvent t e s).1 = promises s
  /\ waits (logEvent t e s).1 = waits s.
Proof. unfold logEvent, stats. repeat case_match; done. Qed.





(** The state that [waitOn] leaves behind. *)
Lemma waitOn_fields t f ms s :
  (waitOn t f ms s).1.1 = S (pendingIdCounter s)
  /\ (waitOn t f ms s).2 = Done ()
  /\ closures (waitOn t f ms s).1.2
     = <[S (pendingIdCounter s) := mkClosure t f (default 30000 ms)]>
         (closures s)
  /\ promises (waitOn t f ms s).1.2
     = <[S (pendingIdCounter s) := Waiting]> (promises s)
  /\ waits (waitOn t f ms s).1.2
     = (S (pendingIdCounter s),
        pendingWaitEventsById s
        ++ [(S (pendingIdCounter s),
             mkPendingWait t ("Event (" +:+ t +:+ ") canceled"))])
  /\ eventsToLog (waitOn t f ms s).1.2 = eventsToLog s
  /\ registry (waitOn t f ms s).1.2
     = registry
         (if bool_decide (t = "error")
          then super_off "error" DefaultErrorLogger
                 (super_on t (WaitCallback (S (pendingIdCounter s))) s)
          else super_on t (WaitCallback (S (pendingIdCounter s))) s)
  /\ storedEventsByType (waitOn t f ms s).1.2
     = match storedEventsByType s !! t with
       | Some (_ :: _) => delete t (storedEventsByType s)
       | _ => storedEventsByType s
       end.
Proof.
  unfold waitOn, on, replayOrClearMissedEvents, listener_added, stats.
  cbv zeta.
  destruct (logger s), (onEventListenerAdded s),
    (bool_decide (t = "error")); simpl;
    destruct (storedEventsByType s !! t) as [[|? ?]|]; simpl;
    repeat split; reflexivity.
Qed.


(** X13: when the promise of a wait is settled, its [finally] callback takes the
    wait's callback and table entry away again: for an event type other
    than ['error'], the listeners of every event type and the table of
    pending waits are as they were before [waitOn]. *)
Theorem waitOn_finish_restores s t f ms :
  t <> "error" ->
  Forall (fun iw => (iw.1 <= pendingIdCounter s)%nat)
    (pendingWaitEventsById s) ->
  let s2 := finish (waitOn t f ms s).1.1 (waitOn t f ms s).1.2 in
  (forall t', listeners s2 t' = listeners s t')
  /\ pendingWaitEventsById s2 = pendingWaitEventsById s
  /\ pendingIdCounter s2 = S (pendingIdCounter s).
Proof.
  intros Ht Hids s2. subst s2.
  destruct (waitOn_fields t f ms s)
    as (Hid & _ & Hcl & _ & Hw & _ & Hreg & _).
  rewrite Hid. unfold finish. rewrite Hcl, lookup_insert_eq. cbv zeta.
  cbn [cl_event]. unfold off.
  rewrite (bool_decide_eq_false_2 (t = "error")) in * by done.
  cbn [andb].
  injection Hw as Hcounter Hpending.
  assert (forall t', listeners (waitOn t f ms s).1.2 t'
                     = listeners (super_on t (WaitCallback
                                    (S (pendingIdCounter s))) s) t') as Hl
    by (intros t'; unfold listeners; by rewrite Hreg).
  split; [|split].
  - intros t'. unfold super_off, listeners at 1. simpl.
    destruct (decide (t = t')) as [<-|Hne].
    + rewrite lookup_insert_eq. simpl. rewrite Hl. unfold super_on.
      rewrite listeners_set_listeners. by apply remove_last_snoc.
    + rewrite lookup_insert_ne by done.
      fold (listeners (waitOn t f ms s).1.2 t'). rewrite Hl.
      unfold super_on. by rewrite listeners_set_listeners_ne.
  - simpl. rewrite Hpending, filter_app.
    rewrite filter_cons, decide_False by (simpl; auto).
    rewrite filter_nil, app_nil_r.
    clear -Hids. induction Hids as [|[id w] ws Hle _ IH]; [done|].
    rewrite filter_cons, decide_True by (simpl in *; lia).
    by rewrite IH.
  - simpl. exact Hcounter.
Qed.

(** ** The ids of the waits *)

Lemma waits_logEvent t e s : waits (logEvent t e s).1 = waits s.
Proof. apply logEvent_fields. Qed.

Lemma waits_super_emit t e i s : waits (super_emit t e i s).1 = waits s.
Proof.
  unfold super_emit. destruct (listeners s t) as [|r rs].
  - by case_decide.
  - cbv zeta. cbn [fst]. by rewrite foldl_invoke_waits.
Qed.

Lemma waits_replay t events s : waits (replay t events s).1 = waits s.
Proof.
  revert s. induction events as [|e events IH]; intros s; simpl; [done|].
  pose proof (waits_logEvent t e s) as Hl.
  destruct (logEvent t e s) as [s1 [[]|]]; simpl in *; [|done].
  pose proof (waits_super_emit t e None s1) as He.
  destruct (super_emit t e None s1) as [s2 [b|]]; simpl in *; [|congruence].
  rewrite IH. congruence.
Qed.

Lemma waits_replayOrClear b t s :
  waits (replayOrClearMissedEvents b t s).1 = waits s.
Proof.
  unfold replayOrClearMissedEvents.
  destruct (storedEventsByType s !! t) as [[|e events]|]; try done.
  cbv zeta. destruct b; [|done]. by rewrite waits_replay.
Qed.

Lemma waits_on t l b s : waits (on t l b s).1 = waits s.
Proof.
  unfold on. cbv zeta. rewrite waits_replayOrClear.
  unfold listener_added. repeat case_match; done.
Qed.

Lemma waits_off t l s : waits (off t l s) = waits s.
Proof. unfold off. cbv zeta. by case_match. Qed.

Lemma waits_emit t e i s : waits (emit t e i s).1 = waits s.
Proof.
  unfold emit. case_match; [done|].
  pose proof (waits_logEvent t e s) as Hl.
  destruct (logEvent t e s) as [s1 [[]|]]; simpl in *; [|done].
  by rewrite waits_super_emit.
Qed.

Lemma waits_addEventEmitter emitter types s :
  waits (addEventEmitter emitter types s) = waits s.
Proof.
  unfold addEventEmitter. induction types as [|t types IH] using rev_ind;
    [done|].
  by rewrite foldl_snoc.
Qed.

Lemma counter_cancel_loop m ex ws s :
  pendingIdCounter (cancel_loop m ex ws s) = pendingIdCounter s.
Proof.
  revert s. induction ws as [|[id w] ws IH]; intros s; [done|].
  rewrite cancel_loop_cons. case_match; by rewrite IH.
Qed.

Lemma waits_fresh_sub s s' :
  pendingIdCounter s' = pendingIdCounter s ->
  sublist (pendingWaitEventsById s') (pendingWaitEventsById s) ->
  waits_fresh s -> waits_fresh s'.
Proof.
  intros Hc Hsub [Hnd Hle]. split.
  - eapply sublist_NoDup; [exact Hnd|by apply fmap_sublist].
  - rewrite Hc. rewrite Forall_forall in *. intros iw Hin. apply Hle.
    eapply elem_of_sublist; [exact Hin|exact Hsub].
Qed.

Lemma waits_fresh_same s s' :
  waits s' = waits s -> waits_fresh s -> waits_fresh s'.
Proof.
  intros [= Hc Hp]. apply waits_fresh_sub; [done|]. by rewrite Hp.
Qed.

Lemma waits_fresh_apply s op : waits_fresh s -> waits_fresh (apply s op).
Proof.
  intros Hs.
  destruct op as [t n b|t n|t n b|t e i|t f ms|id|id|m ex|hasStats events
                 |emitter types|b|b]; simpl.
  - apply (waits_fresh_same s); [apply waits_on|done].
  - apply (waits_fresh_same s); [apply waits_off|done].
  - apply (waits_fresh_same s); [|done].
    unfold prependListener. by rewrite waits_replayOrClear.
  - apply (waits_fresh_same s); [apply waits_emit|done].
  - destruct (waitOn_fields t f ms s)
      as (_ & _ & _ & _ & [= Hc Hp] & _).
    destruct Hs as [Hnd Hle]. split.
    + rewrite Hp, fmap_app. apply NoDup_app. split; [done|]. split.
      * intros id Hin Hnew. apply list_elem_of_singleton in Hnew.
        apply list_elem_of_fmap in Hin as ([id' w] & -> & Hin).
        rewrite Forall_forall in Hle. apply Hle in Hin. simpl in *. lia.
      * apply NoDup_singleton.
    + rewrite Hp, Hc. apply Forall_app. split.
      * eapply Forall_impl; [exact Hle|]. simpl. intros; lia.
      * repeat constructor.
  - unfold finish. destruct (closures s !! id) as [cl|]; [|done]. cbv zeta.
    pose proof (waits_off (cl_event cl) (WaitCallback id) s) as [= Hc Hp].
    apply (waits_fresh_sub s); [exact Hc| |done].
    simpl. rewrite Hp. apply sublist_filter.
  - apply (waits_fresh_same s); [|done]. unfold timeout. by case_match.
  - destruct Hs as [Hnd Hle].
    apply (waits_fresh_sub s); [| |done].
    + unfold cancelPendingEvents. cbv zeta. by rewrite counter_cancel_loop.
    + unfold cancelPendingEvents. cbv zeta.
      destruct (cancel_loop_spec m ex
                  (pendingWaitEventsById (set_stored ∅ s))
                  (set_pending [] (set_stored ∅ s)) Hnd) as (-> & _).
      simpl. apply sublist_filter.
  - by apply (waits_fresh_same s).
  - apply (waits_fresh_same s); [apply waits_addEventEmitter|done].
  - by apply (waits_fresh_same s).
  - by apply (waits_fresh_same s).
Qed.

(** X14: however the emitter is used, the ids of the pending waits are pairwise
    distinct and none is ahead of [pendingIdCounter]: the id that the next
    [waitOn] hands out is not in use. *)
Theorem wait_ids_never_reused ops :
  waits_fresh (foldl apply new ops)
  /\ S (pendingIdCounter (foldl apply new ops))
     ∉ (pendingWaitEventsById (foldl apply new ops)).*1.
Proof.
  assert (waits_fresh (foldl apply new ops)) as Hfresh.
  { induction ops as [|op ops IH] using rev_ind.
    - split; [constructor|constructor].
    - rewrite foldl_snoc. by apply waits_fresh_apply. }
  split; [done|]. destruct Hfresh as [_ Hle]. intros Hin.
  apply list_elem_of_fmap in Hin as ([id w] & Hid & Hin).
  rewrite Forall_forall in Hle. apply Hle in Hin. simpl in *. lia.
Qed.

End EmitterWaits.

(** ** Examples *)

Lemma stored_events_replayed_witness :
  Emitter.trace
    (Emitter.on "data" (Emitter.Fn 7) true EmitterSample.stored).1
  = [Emitter.Call (Emitter.Fn 7) "data" EmitterSample.one None;
     Emitter.Call (Emitter.Fn 7) "data" EmitterSample.two None].
Proof.
  destruct (stored_events_replayed EmitterSample.storing "data"
              EmitterSample.one [EmitterSample.two] 7)
    as (_ & _ & _ & (s2 & Hon & Htr & _) & _);
    [reflexivity | reflexivity | compute_done |].
  unfold EmitterSample.stored. rewrite Hon. exact Htr.
Defined.

Lemma once_replays_nothing_witness :
  exists s',
    Emitter.once "data" (Emitter.Fn 7) true EmitterSample.stored
    = (s', Emitter.Done ())
    /\ Emitter.storedEventsByType EmitterSample.stored !! "data"
       = Some [EmitterSample.one; EmitterSample.two]
    /\ Emitter.trace s' = []
    /\ Emitter.listeners s' "data"
       = [Emitter.mkRegistration (Emitter.Fn 7) true]
    /\ default [] (Emitter.storedEventsByType s' !! "data") = [].
Proof.
  destruct (once_replays_nothing EmitterSample.stored "data"
              (Emitter.Fn 7) true)
    as (s1 & s2 & Hon & _ & Htr & _ & Hl & _ & Hst & _).
  exists s1. split; [exact Hon|]. split; [reflexivity|].
  split; [exact Htr|]. split; [exact Hl | exact Hst].
Defined.

Lemma cancelPendingEvents_rejects_the_rest_witness :
  Emitter.pendingWaitEventsById
    (Emitter.cancelPendingEvents (Some "bye") (Some ["close"])
       EmitterSample.two_waits)
  = [(1%nat, Emitter.mkPendingWait "close" "Event (close) canceled")]
  /\ Emitter.promises
       (Emitter.cancelPendingEvents (Some "bye") (Some ["close"])
          EmitterSample.two_waits) !! 2%nat
     = Some (Emitter.Failed "bye").
Proof.
  destruct (cancelPendingEvents_rejects_the_rest (Some "bye")
              (Some ["close"]) EmitterSample.two_waits)
    as (Hp & _ & _ & _ & Hin & _); [compute_done|].
  split; [exact Hp|].
  apply (Hin 2%nat (Emitter.mkPendingWait "open" "Event (open) canceled")).
  apply list_elem_of_further, list_elem_of_here.
Defined.


Lemma waitOn_finish_restores_witness :
  Emitter.pendingWaitEventsById
    (Emitter.finish 2 EmitterSample.two_waits)
  = Emitter.pendingWaitEventsById EmitterSample.one_wait
  /\ Emitter.listeners (Emitter.finish 2 EmitterSample.two_waits) "open"
     = [].
Proof.
  destruct (waitOn_finish_restores EmitterSample.one_wait "open" None None)
    as (Hl & Hp & _); [compute_done | compute_done |].
  split; [exact Hp|exact (Hl "open")].
Defined.

(** * Properties of the logger *)

Section LoggerFacts.

Import Logger.

(** ** Secrets in the printed data *)

Lemma map_items_masked n depth items i :
  (forall j x, x ∈ items ->
     masked n (translateValueToPrintable (Index j) x (S depth)) = true) ->
  forallb (masked n)
    ((fix map_items (i : nat) (items : list Value) : list Value :=
        match items with
        | [] => []
        | x :: items =>
            translateValueToPrintable (Index i) x (S depth)
            :: map_items (S i) items
        end) i items) = true.
Proof.
  revert i. induction items as [|x items IH]; intros i Hall; [done|].
  cbn [forallb]. rewrite Hall by (apply elem_of_cons; by left).
  rewrite IH; [done|]. intros j y Hy. apply Hall. apply elem_of_cons.
  by right.
Qed.

Lemma secret_is_mask key value depth :
  is_secret key = true ->
  is_mask (translateValueToPrintable key value depth) = true.
Proof. intros Hkey. destruct value; simpl; rewrite ?Hkey; done. Qed.

Lemma map_entries_masked n depth entries :
  (forall k x, (k, x) ∈ entries ->
     masked n (translateValueToPrintable (Name k) x (S depth)) = true) ->
  forallb (fun kv => if is_secret (Name kv.1) then is_mask kv.2
                     else masked n kv.2)
    ((fix map_entries (entries : list (string * Value))
        : list (string * Value) :=
        match entries with
        | [] => []
        | (subKey, subValue) :: entries =>
            if decide (subKey = "__proto__") then map_entries entries
            else
            (subKey,
             translateValueToPrintable (Name subKey) subValue (S depth))
            :: map_entries entries
        end) entries) = true.
Proof.
  induction entries as [|[k x] entries IH]; intros Hall; [done|].
  destruct (decide (k = "__proto__")) as [Hproto|Hproto].
  { apply IH. intros k' y Hy. apply Hall, elem_of_cons. by right. }
  cbn [forallb fst snd].
  rewrite IH by (intros k' y Hy; apply Hall, elem_of_cons; by right).
  rewrite andb_true_r.
  destruct (is_secret (Name k)) eqn:Hk; [by apply secret_is_mask|].
  apply Hall, elem_of_cons. by left.
Qed.

Lemma forallb_elem_of {A} (f : A -> bool) (l : list A) x :
  forallb f l = true -> x ∈ l -> f x = true.
Proof.
  intros Hall Hx. rewrite forallb_forall in Hall. apply Hall.
  by apply list_elem_of_In.
Qed.

(** At depth [depth] the properties of the next [3 - depth] levels are
    masked. *)
Lemma translateValueToPrintable_masked n depth key value :
  (n + depth = 3)%nat ->
  plain n value = true ->
  masked n (translateValueToPrintable key value depth) = true.
Proof.
  revert depth key value.
  induction n as [|n IH]; intros depth key value Hn Hplain; [done|].
  assert ((2 <? depth)%nat = false) as Hdepth by (apply Nat.ltb_ge; lia).
  destruct value as [| | | | | | | | | |items|[json|] entries];
    cbn [translateValueToPrintable];
    try done; destruct (is_secret key); try done;
    try (case_match; done); rewrite ?Hdepth; try done.
  - cbn [masked]. apply map_items_masked. intros j x Hx.
    apply IH; [lia|]. cbn [plain] in Hplain.
    apply (forallb_elem_of _ _ _ Hplain Hx).
  - cbn [masked]. apply map_entries_masked. intros k x Hx.
    apply IH; [lia|]. cbn [plain] in Hplain.
    apply (forallb_elem_of _ _ _ Hplain Hx).
Qed.

(** X15: [translateValueToPrintable] masks the properties named [password] and
    [suri] down to the third level of properties below the value it is
    given, in objects and arrays without [toJSON]: each holds the mask or
    nothing.  A value reached at depth 3 is passed on as it is, so the bound
    is tight: there is a value whose fourth level comes out unmasked. *)
Theorem secrets_masked_three_levels key :
  (forall value,
     plain 3 value = true ->
     masked 3 (translateValueToPrintable key value 0) = true)
  /\ (is_secret key = false ->
      exists value,
        plain 4 value = true
        /\ masked 4 (translateValueToPrintable key value 0) = false).
Proof.
  split.
  - intros value Hplain. by apply translateValueToPrintable_masked.
  - intros Hkey.
    exists (VObject None
              [("a", VObject None
                       [("b", VObject None
                                [("c", VObject None
                                         [("password", VStr "x")])])])]).
    split; [reflexivity|]. cbn [translateValueToPrintable]. rewrite Hkey.
    reflexivity.
Qed.

(** ** translateToPrintable *)

Lemma set_property_forallb (f : string * Value -> bool) key value object :
  forallb f object = true -> f (key, value) = true ->
  forallb f (set_property key value object) = true.
Proof.
  intros Hall Hnew. induction object as [|[k v] object IH]; simpl.
  - by rewrite Hnew.
  - simpl in Hall. apply andb_true_iff in Hall as [Hkv Hall].
    case_decide as Hk; simpl.
    + subst k. by rewrite Hnew, Hall.
    + by rewrite Hkv, IH.
Qed.

Lemma set_property_keys key value object k :
  k ∈ (set_property key value object).*1 -> k = key \/ k ∈ object.*1.
Proof.
  induction object as [|[k' v] object IH]; simpl.
  - intros Hk%list_elem_of_singleton. by left.
  - case_decide as Hk'; simpl.
    + intros Hk. by right.
    + intros [->|Hk]%elem_of_cons.
      * right. apply elem_of_cons. by left.
      * destruct (IH Hk) as [?|?]; [by left|].
        right. apply elem_of_cons. by right.
Qed.

Lemma set_property_values key value object kv :
  kv ∈ set_property key value object -> kv.2 = value \/ kv ∈ object.
Proof.
  induction object as [|[k' v] object IH]; simpl.
  - intros ->%list_elem_of_singleton. by left.
  - case_decide as Hk'; simpl.
    + intros [->|Hk]%elem_of_cons; [by left|].
      right. apply elem_of_cons. by right.
    + intros [->|Hk]%elem_of_cons.
      * right. apply elem_of_cons. by left.
      * destruct (IH Hk) as [?|?]; [by left|].
        right. apply elem_of_cons. by right.
Qed.

Lemma assign_property_forallb (f : string * Value -> bool) key value object :
  forallb f object = true -> f (key, value) = true ->
  forallb f (assign_property key value object) = true.
Proof.
  intros Ho Hf. unfold assign_property.
  destruct (decide (key = "__proto__")); [done|].
  by apply set_property_forallb.
Qed.

Lemma assign_property_keys key value object k :
  k ∈ (assign_property key value object).*1 -> k = key \/ k ∈ object.*1.
Proof.
  unfold assign_property. destruct (decide (key = "__proto__")); [by right|].
  apply set_property_keys.
Qed.

Lemma assign_property_values key value object kv :
  kv ∈ assign_property key value object -> kv.2 = value \/ kv ∈ object.
Proof.
  unfold assign_property. destruct (decide (key = "__proto__")); [by right|].
  apply set_property_values.
Qed.

Lemma masked_object n toJSON entries :
  masked (S n) (VObject toJSON entries)
  = forallb (fun kv => if is_secret (Name kv.1) then is_mask kv.2
                       else masked n kv.2) entries.
Proof. reflexivity. Qed.

(** What the loop keeps true of [printData]. *)
Lemma translate_entries_printData entries result r :
  forallb (fun kv => plain 3 kv.2) entries = true ->
  translate_entries entries result = Done r ->
  masked 4 (VObject None (printData result)) = true ->
  masked 4 (VObject None (printData r)) = true
  /\ (forall k, k ∈ (printData r).*1 ->
        k ∈ (printData result).*1 \/ (k ∈ entries.*1 /\ k <> "error"))
  /\ (forall kv, kv ∈ printData r ->
        kv ∈ printData result \/ (kv.2 <> VUndefined /\ kv.2 <> VNull)).
Proof.
  revert result.
  induction entries as [|[key value] entries IH]; intros result Hplain Hr Hm.
  { injection Hr as <-. split; [done|]. split; intros; by left. }
  cbn [forallb snd] in Hplain. apply andb_true_iff in Hplain as [Hv Hplain].
  assert (forall result',
    translate_entries entries result' = Done r ->
    printData result' = printData result ->
    masked 4 (VObject None (printData r)) = true
    /\ (forall k, k ∈ (printData r).*1 ->
          k ∈ (printData result).*1
          \/ (k ∈ ((key, value) :: entries).*1 /\ k <> "error"))
    /\ (forall kv, kv ∈ printData r ->
          kv ∈ printData result \/ (kv.2 <> VUndefined /\ kv.2 <> VNull)))
    as Hskip.
  { intros result' Hr' Hsame.
    destruct (IH result' Hplain Hr') as (Hm' & Hk' & Hv');
      [by rewrite Hsame|].
    rewrite Hsame in Hk', Hv'. split; [done|]. split; [|done].
    intros k Hk. destruct (Hk' k Hk) as [?|[? ?]]; [by left|].
    right. split; [|done]. rewrite fmap_cons. apply elem_of_cons. by right. }
  assert (forall printable,
    key <> "error" ->
    printable = translateValueToPrintable (Name key) value 0 ->
    printable <> VUndefined -> printable <> VNull ->
    translate_entries entries
      (mkPrintable (error result)
         (assign_property key printable (printData result))) = Done r ->
    masked 4 (VObject None (printData r)) = true
    /\ (forall k, k ∈ (printData r).*1 ->
          k ∈ (printData result).*1
          \/ (k ∈ ((key, value) :: entries).*1 /\ k <> "error"))
    /\ (forall kv, kv ∈ printData r ->
          kv ∈ printData result \/ (kv.2 <> VUndefined /\ kv.2 <> VNull)))
    as Hput.
  { intros printable Hkey Hdef Hu Hn Hr'.
    destruct (IH _ Hplain Hr') as (Hm' & Hk' & Hv').
    - cbn [printData]. rewrite masked_object in Hm |- *.
      apply assign_property_forallb; [done|].
      cbn [fst snd].
      destruct (is_secret (Name key)) eqn:Hsecret.
      + rewrite Hdef. by apply secret_is_mask.
      + rewrite Hdef. by apply translateValueToPrintable_masked.
    - cbn [printData] in *. split; [done|]. split.
      + intros k Hk. destruct (Hk' k Hk) as [Hin|[? ?]].
        * apply assign_property_keys in Hin as [->|?]; [|by left].
          right. split; [|done]. rewrite fmap_cons. apply elem_of_cons.
          by left.
        * right. split; [|done]. rewrite fmap_cons. apply elem_of_cons.
          by right.
      + intros kv Hin. destruct (Hv' kv Hin) as [Hold|?]; [|by right].
        apply assign_property_values in Hold as [->|?]; [by right|by left]. }
  cbn [translate_entries] in Hr.
  destruct value as [| | | | | |text [|]| | | |items|json fields];
    try (by apply (Hskip _ Hr));
    destruct (bool_decide (key = "error")) eqn:Hkey;
    try apply bool_decide_eq_false in Hkey;
    cbn [is_object] in Hr; try done; try (by apply (Hskip _ Hr)).
  all: match type of Hr with
       | context [translateValueToPrintable ?k ?v ?d] =>
           destruct (translateValueToPrintable k v d) eqn:Hp
       end;
    try (by apply (Hskip _ Hr));
    eapply Hput; try exact Hr; try done.
Qed.

(** X16: the data that [translateToPrintable] hands to the console has the
    properties named [password] and [suri] masked down to the fourth level
    (in objects and arrays without [toJSON]); it holds no property named
    [error], only properties of the data, and none that is [undefined] or
    [null]. *)
Theorem translateToPrintable_masks data r :
  forallb (fun kv => plain 3 kv.2) data = true ->
  translateToPrintable data None = Done r ->
  masked 4 (VObject None (printData r)) = true
  /\ (forall k, k ∈ (printData r).*1 -> k ∈ data.*1 /\ k <> "error")
  /\ (forall kv, kv ∈ printData r -> kv.2 <> VUndefined /\ kv.2 <> VNull).
Proof.
  intros Hplain Hr. unfold translateToPrintable in Hr.
  destruct (translate_entries_printData data _ r Hplain Hr)
    as (Hm & Hk & Hv); [done|].
  split; [done|]. split.
  - intros k Hin. destruct (Hk k Hin) as [Hnil|?]; [|done].
    by apply elem_of_nil in Hnil.
  - intros kv Hin. destruct (Hv kv Hin) as [Hnil|?]; [|done].
    by apply elem_of_nil in Hnil.
Qed.

Lemma translate_entries_throws entries result :
  translate_entries entries result = ThrowsTypeError <-> unprintable entries.
Proof.
  revert result. induction entries as [|[key value] entries IH];
    intros result.
  { split; [done|].
    intros [Hin|(k & text & Hin)]; by apply elem_of_nil in Hin. }
  assert (Hnext : forall result',
             (key, value) <> ("error", VNull) ->
             (forall text, value <> VError text false) ->
             translate_entries entries result' = ThrowsTypeError
             <-> unprintable ((key, value) :: entries)).
  { intros result' Hn He. rewrite IH. unfold unprintable.
    setoid_rewrite elem_of_cons. split.
    - intros [?|(k & text & ?)]; [left; by right|].
      right. exists k, text. by right.
    - intros [[?|?]|(k & text & [Heq|?])]; [congruence|by left| |].
      + injection Heq as -> Hv. by destruct (He text).
      + right. by exists k, text. }
  assert (Hnow : (key, value) = ("error", VNull)
                 \/ (exists text, value = VError text false) ->
                 ThrowsTypeError = @ThrowsTypeError Printable
                 <-> unprintable ((key, value) :: entries)).
  { intros Hcase. split; [|done]. intros _.
    destruct Hcase as [->|[text ->]].
    - left. apply elem_of_cons. by left.
    - right. exists key, text. apply elem_of_cons. by left. }
  cbn [translate_entries].
  destruct value as [| | | | | |text [|]| | | |items|json fields];
    try (apply Hnow; right; by eexists);
    try (apply Hnext; [congruence|congruence]);
    destruct (bool_decide (key = "error")) eqn:Hkey;
    try apply bool_decide_eq_true in Hkey;
    try apply bool_decide_eq_false in Hkey;
    cbn [is_object];
    try (match goal with
         | |- context [translateValueToPrintable ?k ?v ?d] =>
             destruct (translateValueToPrintable k v d)
         end);
    try (apply Hnext; [congruence|congruence]).
  subst key. apply Hnow. by left.
Qed.

(** X17: [translateToPrintable] throws a [TypeError] when the data has the
    property [error] with the value [null], which it tries to take apart,
    and when the data holds an [Error] on which the has-been-logged mark
    cannot be defined.  For data whose values are neither arrays nor objects
    nor functions these are the only cases: it returns for all other such
    data. *)
Theorem translateToPrintable_throws data result :
  (unprintable data -> translateToPrintable data result = ThrowsTypeError)
  /\ (Forall (fun kv => flat kv.2 = true) data ->
      ~ unprintable data ->
      exists r, translateToPrintable data result = Done r).
Proof.
  unfold translateToPrintable.
  generalize (default (mkPrintable None []) result) as start.
  intros start. split.
  - apply translate_entries_throws.
  - intros _ Hfine.
    destruct (translate_entries data start) as [r|] eqn:Hr; [by exists r|].
    by apply translate_entries_throws in Hr.
Qed.

(** ** Subscriptions *)

(** The two ways [logToConsole] ends. *)
Lemma logToConsole_shape level entry g :
  (translateToPrintable (data entry) None = ThrowsTypeError
   /\ logToConsole level entry g = ThrowsTypeError)
  \/ (translateToPrintable (data entry) None <> ThrowsTypeError
      /\ exists line,
           logToConsole level entry g
           = Done (mkGlobals (logId g) (loggerSessionIdNames g)
                     (subscriptions g) (console g ++ [line]) (broadcasts g)
                     (delivered g))).
Proof.
  unfold logToConsole.
  destruct (translateToPrintable (data entry) None) as [result|].
  - right. split; [done|]. cbv zeta. eexists. reflexivity.
  - left. done.
Qed.

(** The two ways [log] ends. *)
Lemma log_shape level action data now this g :
  let entry := make_entry level action data now this (S (logId g)) in
  let this' :=
    mkLog (log_level this) (boundContext this) (log_module this)
      (<[number_key (Z.of_nat (S (logId g))) := now]> (logtimeById this)) in
  let printed := logLevels (log_level this) <=? logLevels level in
  (printed = true
   /\ translateToPrintable (Logger.data entry) None = ThrowsTypeError
   /\ log level action data now this g
      = (ThrowsTypeError, this',
         mkGlobals (S (logId g)) (loggerSessionIdNames g) (subscriptions g)
           (console g) (broadcasts g) (delivered g)))
  \/ ((printed = false
       \/ translateToPrintable (Logger.data entry) None <> ThrowsTypeError)
      /\ exists lines,
           length lines = (if printed then 1 else 0)%nat
           /\ log level action data now this g
              = (Done (S (logId g)), this',
                 mkGlobals (S (logId g)) (loggerSessionIdNames g)
                   (subscriptions g) (console g ++ lines)
                   (broadcasts g ++ [entry])
                   (delivered g
                    ++ ((fun fn => (fn, entry))
                        <$> broadcast (subscriptions g))))).
Proof.
  intros entry this' printed. unfold log. cbv zeta.
  fold entry. fold this'. change (log_level this') with (log_level this).
  subst printed.
  destruct (logLevels (log_level this) <=? logLevels level).
  - destruct (logToConsole_shape level entry
                (mkGlobals (S (logId g)) (loggerSessionIdNames g)
                   (subscriptions g) (console g) (broadcasts g)
                   (delivered g)))
      as [[Hthrows ->]|[Hprints [line ->]]].
    + left. done.
    + right. split; [by right|]. exists [line]. done.
  - right. split; [by left|]. exists []. cbn. by rewrite app_nil_r.
Qed.

Lemma log_fields level action data now this g :
  logId (log level action data now this g).2 = S (logId g)
  /\ subscriptions (log level action data now this g).2 = subscriptions g
  /\ logtimeById (log level action data now this g).1.2
     = <[number_key (Z.of_nat (S (logId g))) := now]> (logtimeById this)
  /\ (map_entries (subscriptions g) = [] ->
      delivered (log level action data now this g).2 = delivered g).
Proof.
  destruct (log_shape level action data now this g)
    as [(_ & _ & ->)|(_ & lines & _ & ->)]; cbn; [done|].
  repeat split. intros Hnone. unfold broadcast. rewrite Hnone. cbn.
  by rewrite app_nil_r.
Qed.

Lemma call_unsubscribed s c :
  map_entries (subscriptions (globals s)) = [] ->
  delivered (globals s) = [] ->
  map_entries (subscriptions (globals (call s c))) = []
  /\ delivered (globals (call s c)) = [].
Proof.
  intros Hnone Hquiet.
  destruct c as [m ctx en|i m ctx en|i lv act dat now|fn|k]; cbn [call].
  - done.
  - by destruct (objects s !! i).
  - destruct (objects s !! i) as [l|]; [|done].
    destruct (log_fields lv act dat now l (globals s))
      as (_ & Hsub & _ & Hdel).
    destruct (log lv act dat now l (globals s)) as [[r l'] g'].
    cbn [globals snd] in *. by rewrite Hsub, Hdel.
  - done.
  - cbn. by rewrite Hnone.
Qed.

(** X18: [LogEvents.subscribe] never adds an entry to the map of subscriptions:
    whatever is logged, subscribed and unsubscribed in a program, the map
    stays empty, no subscriber is ever called with a log entry, and every
    [subscribe] returns the id 1 and overwrites the property 1 of the map
    object. *)
Theorem subscribe_never_registers calls onLogFn :
  let g := globals (foldl call boot calls) in
  map_entries (subscriptions g) = []
  /\ delivered g = []
  /\ broadcast (subscriptions g) = []
  /\ (subscribe onLogFn (subscriptions g)).1 = 1%nat
  /\ properties (subscribe onLogFn (subscriptions g)).2 !! 1%nat
     = Some onLogFn.
Proof.
  intros g.
  assert (map_entries (subscriptions g) = [] /\ delivered g = [])
    as [Hnone Hquiet].
  { subst g. induction calls as [|c calls IH] using rev_ind; [done|].
    rewrite foldl_snoc. destruct IH. by apply call_unsubscribed. }
  split; [done|]. split; [done|].
  unfold broadcast, subscribe, size. rewrite Hnone. cbn.
  split; [done|]. split; [done|]. apply lookup_insert_eq.
Qed.

(** ** Log entries *)

Lemma set_property_get key value object k :
  get_property k (set_property key value object)
  = if decide (k = key) then value else get_property k object.
Proof.
  induction object as [|[k' v] object IH]; cbn.
  - repeat case_decide; congruence.
  - repeat (case_decide; cbn); try congruence.
Qed.

Lemma set_property_keys_in key value object k :
  k ∈ (set_property key value object).*1 <-> k = key \/ k ∈ object.*1.
Proof.
  induction object as [|[k' v] object IH]; cbn.
  - rewrite list_elem_of_singleton. split; [by left|].
    intros [?|Hin]; [done|]. by apply elem_of_nil in Hin.
  - case_decide as Hk; cbn; rewrite !elem_of_cons, ?IH; subst; tauto.
Qed.

Lemma set_property_fresh key value object :
  key ∉ object.*1 -> set_property key value object = object ++ [(key, value)].
Proof.
  induction object as [|[k v] object IH]; cbn; [done|].
  rewrite not_elem_of_cons. intros [Hne Hin].
  rewrite decide_False by done. by rewrite IH.
Qed.

Lemma set_property_elem_of key value object kv :
  NoDup (object.*1) ->
  kv ∈ set_property key value object
  <-> kv = (key, value) \/ (kv ∈ object /\ kv.1 <> key).
Proof.
  induction object as [|[k v] object IH]; cbn.
  - intros _. rewrite list_elem_of_singleton. split; [by left|].
    intros [?|[Hin _]]; [done|]. by apply elem_of_nil in Hin.
  - intros [Hk Hnd]%NoDup_cons. case_decide as Hkey; cbn.
    + subst k. rewrite !elem_of_cons. split.
      * intros [->|Hin]; [by left|]. right. split; [by right|].
        intros Heq. apply Hk. apply list_elem_of_fmap. exists kv. by rewrite Heq.
      * intros [->|[[->|Hin] Hne]]; [by left|done|by right].
    + rewrite !elem_of_cons, (IH Hnd). split.
      * intros [->|[->|[Hin Hne]]]; [|by left|].
        -- right. split; [by left|done].
        -- right. split; [by right|done].
      * intros [->|[[->|Hin] Hne]]; [right; by left|by left|].
        right. right. done.
Qed.

Lemma set_property_NoDup key value object :
  NoDup (object.*1) -> NoDup ((set_property key value object).*1).
Proof.
  induction object as [|[k v] object IH]; cbn.
  - intros _. apply NoDup_singleton.
  - intros [Hk Hnd]%NoDup_cons. case_decide as Hkey; cbn.
    + subst. by apply NoDup_cons.
    + apply NoDup_cons. split; [|by apply IH].
      rewrite set_property_keys_in. intros [?|?]; congruence.
Qed.

(** What the loop of [log] finds. *)
Lemma split_data_parentId entries parentId sessionId logData :
  "parentLogId" ∉ entries.*1 ->
  (split_data entries parentId sessionId logData).1.1 = parentId.
Proof.
  revert parentId sessionId logData.
  induction entries as [|[k v] entries IH]; intros p sid acc; cbn; [done|].
  rewrite not_elem_of_cons. intros [Hne Hin].
  rewrite decide_False by done. case_decide; by rewrite IH.
Qed.

Lemma split_data_logData entries parentId sessionId logData :
  NoDup (entries.*1) ->
  (forall k, k ∈ entries.*1 -> k ∉ logData.*1) ->
  (split_data entries parentId sessionId logData).2
  = logData
    ++ filter (fun kv => kv.1 <> "parentLogId" /\ kv.1 <> "sessionId"
                         /\ kv.1 <> "__proto__")
         entries.
Proof.
  revert parentId sessionId logData.
  induction entries as [|[k v] entries IH]; intros p sid acc Hnd Hfresh.
  { cbn. by rewrite app_nil_r. }
  cbn in Hnd. apply NoDup_cons in Hnd as [Hk Hnd].
  assert (forall k', k' ∈ entries.*1 -> k' ∉ acc.*1) as Hrest.
  { intros k' Hin. apply Hfresh. cbn. apply elem_of_cons. by right. }
  cbn [split_data]. rewrite filter_cons. cbn [fst].
  case_decide as Hp.
  { rewrite decide_False by tauto. by apply IH. }
  case_decide as Hs.
  { rewrite decide_False by tauto. by apply IH. }
  unfold assign_property. case_decide as Hproto.
  { rewrite decide_False by tauto. by apply IH. }
  rewrite decide_True by done.
  rewrite set_property_fresh
    by (apply Hfresh; cbn; apply elem_of_cons; by left).
  rewrite IH; [by rewrite <- app_assoc|done|].
  intros k' Hin. rewrite fmap_app, elem_of_app. cbn.
  rewrite list_elem_of_singleton. intros [Hacc| ->]; [by apply (Hrest k')|].
  done.
Qed.

(** The times of the entries that a [Log] object has logged are filed under
    ids that the counter has handed out. *)
Lemma call_logtime_keys s c :
  (forall j l key,
     objects s !! j = Some l -> is_Some (logtimeById l !! key) ->
     exists k, (k <= logId (globals s))%nat
               /\ key = number_key (Z.of_nat k)) ->
  (logId (globals s) <= logId (globals (call s c)))%nat
  /\ (forall j l key,
        objects (call s c) !! j = Some l -> is_Some (logtimeById l !! key) ->
        exists k, (k <= logId (globals (call s c)))%nat
                  /\ key = number_key (Z.of_nat k)).
Proof.
  intros Hkeys.
  destruct c as [m ctx en|i m ctx en|i lv act dat now|fn|k]; cbn [call].
  - split; [done|]. intros j l key Hj Hkey. cbn in *.
    apply lookup_app_Some in Hj as [Hj|[_ Hj]]; [by eapply Hkeys|].
    apply list_lookup_singleton_Some in Hj as [_ <-].
    cbn in Hkey. rewrite lookup_empty in Hkey. by destruct Hkey.
  - destruct (objects s !! i) as [l0|]; [|done].
    split; [done|]. intros j l key Hj Hkey. cbn in *.
    apply lookup_app_Some in Hj as [Hj|[_ Hj]]; [by eapply Hkeys|].
    apply list_lookup_singleton_Some in Hj as [_ <-].
    cbn in Hkey. rewrite lookup_empty in Hkey. by destruct Hkey.
  - destruct (objects s !! i) as [l0|] eqn:Hi; [|done].
    assert (exists l' g',
      log lv act dat now l0 (globals s)
      = ((log lv act dat now l0 (globals s)).1.1, l', g')
      /\ logId g' = S (logId (globals s))
      /\ logtimeById l'
         = <[number_key (Z.of_nat (S (logId (globals s)))) := now]>
             (logtimeById l0)) as (l' & g' & Hlog & Hid & Htimes).
    { destruct (log_fields lv act dat now l0 (globals s))
        as (Hnext & _ & Htimes & _).
      destruct (log lv act dat now l0 (globals s)) as [[r l'] g'].
      by exists l', g'. }
    rewrite Hlog. cbn [globals objects]. rewrite Hid. split; [lia|].
    intros j l key Hj Hkey.
    destruct (decide (i = j)) as [<-|Hne].
    + rewrite list_lookup_insert_eq in Hj
        by (by apply lookup_lt_Some in Hi).
      injection Hj as <-. rewrite Htimes in Hkey.
      destruct (decide (key = number_key (Z.of_nat (S (logId (globals s))))))
        as [->|Hother].
      * exists (S (logId (globals s))). done.
      * rewrite lookup_insert_ne in Hkey by done.
        destruct (Hkeys i l0 key Hi Hkey) as (k & Hk & ->).
        exists k. split; [lia|done].
    + rewrite list_lookup_insert_ne in Hj by done.
      destruct (Hkeys j l key Hj Hkey) as (k & Hk & ->).
      exists k. split; [lia|done].
  - done.
  - done.
Qed.

(** The time of one entry stays with the object that logged it. *)
Lemma call_logtime_kept s c i id0 now0 :
  (id0 <= logId (globals s))%nat ->
  (i < length (objects s))%nat ->
  (forall j l, objects s !! j = Some l ->
     logtimeById l !! number_key (Z.of_nat id0)
     = if decide (i = j) then Some now0 else None) ->
  (id0 <= logId (globals (call s c)))%nat
  /\ (i < length (objects (call s c)))%nat
  /\ (forall j l, objects (call s c) !! j = Some l ->
        logtimeById l !! number_key (Z.of_nat id0)
        = if decide (i = j) then Some now0 else None).
Proof.
  intros Hid Hi Hkept.
  destruct c as [m ctx en|k m ctx en|k lv act dat now|fn|k]; cbn [call].
  - cbn. rewrite length_app. cbn. split; [done|]. split; [lia|].
    intros j l Hj.
    apply lookup_app_Some in Hj as [Hj|[Hlen Hj]]; [by apply Hkept|].
    apply list_lookup_singleton_Some in Hj as [_ <-].
    rewrite decide_False by lia. apply lookup_empty.
  - destruct (objects s !! k) as [l0|]; [|done].
    cbn. rewrite length_app. cbn. split; [done|]. split; [lia|].
    intros j l Hj.
    apply lookup_app_Some in Hj as [Hj|[Hlen Hj]]; [by apply Hkept|].
    apply list_lookup_singleton_Some in Hj as [_ <-].
    rewrite decide_False by lia. apply lookup_empty.
  - destruct (objects s !! k) as [l0|] eqn:Hk; [|done].
    assert (exists l' g',
      log lv act dat now l0 (globals s)
      = ((log lv act dat now l0 (globals s)).1.1, l', g')
      /\ logId g' = S (logId (globals s))
      /\ logtimeById l'
         = <[number_key (Z.of_nat (S (logId (globals s)))) := now]>
             (logtimeById l0)) as (l' & g' & Hlog & Hnext & Htimes).
    { destruct (log_fields lv act dat now l0 (globals s))
        as (Hnext & _ & Htimes & _).
      destruct (log lv act dat now l0 (globals s)) as [[r l'] g'].
      by exists l', g'. }
    rewrite Hlog. cbn [globals objects]. rewrite Hnext.
    rewrite length_insert. split; [lia|]. split; [done|].
    intros j l Hj.
    assert (number_key (Z.of_nat id0)
            <> number_key (Z.of_nat (S (logId (globals s))))) as Hfresh.
    { unfold number_key. intros Heq. apply (inj pretty) in Heq. lia. }
    destruct (decide (k = j)) as [<-|Hne].
    + rewrite list_lookup_insert_eq in Hj
        by (by apply lookup_lt_Some in Hk).
      injection Hj as <-. rewrite Htimes, lookup_insert_ne by done.
      by apply Hkept.
    + rewrite list_lookup_insert_ne in Hj by done. by apply Hkept.
  - done.
  - done.
Qed.

Lemma make_entry_parent level action value rest now this id :
  "parentLogId" ∉ rest.*1 ->
  parentId (make_entry level action (Some (("parentLogId", value) :: rest))
              now this id) = value
  /\ millis (make_entry level action (Some (("parentLogId", value) :: rest))
               now this id)
     = (fun start => now - start)
       <$> (if truthy value then logtimeById this !! property_key value
            else Some now).
Proof.
  intros Hrest. unfold make_entry. simpl (default _ _).
  cbn [set_property]. rewrite decide_False by done.
  cbn [split_data]. rewrite decide_True by done.
  assert ("parentLogId"
          ∉ (set_property "context" (VObject None (boundContext this))
               rest).*1) as Hnone.
  { rewrite set_property_keys_in. intros [?|?]; [done|by apply Hrest]. }
  pose proof (split_data_parentId _ value
                (get_property "sessionId" (boundContext this)) [] Hnone)
    as Hp.
  destruct (split_data _ _ _ _) as [[p sid] logData]. cbn in Hp. subst p.
  done.
Qed.

Lemma boot_logtime_keys calls j l key :
  objects (foldl call boot calls) !! j = Some l ->
  is_Some (logtimeById l !! key) ->
  exists k, (k <= logId (globals (foldl call boot calls)))%nat
            /\ key = number_key (Z.of_nat k).
Proof.
  revert j l key. induction calls as [|c calls IH] using rev_ind.
  - intros j l key Hj. cbn in Hj. by rewrite lookup_nil in Hj.
  - rewrite foldl_snoc. apply call_logtime_keys. exact IH.
Qed.

Lemma calls_logtime_kept s calls i id0 now0 :
  (id0 <= logId (globals s))%nat ->
  (i < length (objects s))%nat ->
  (forall j l, objects s !! j = Some l ->
     logtimeById l !! number_key (Z.of_nat id0)
     = if decide (i = j) then Some now0 else None) ->
  forall j l, objects (foldl call s calls) !! j = Some l ->
    logtimeById l !! number_key (Z.of_nat id0)
    = if decide (i = j) then Some now0 else None.
Proof.
  intros Hid Hi Hkept.
  assert ((id0 <= logId (globals (foldl call s calls)))%nat
          /\ (i < length (objects (foldl call s calls)))%nat
          /\ (forall j l, objects (foldl call s calls) !! j = Some l ->
                logtimeById l !! number_key (Z.of_nat id0)
                = if decide (i = j) then Some now0 else None))
    as (_ & _ & Hall); [|exact Hall].
  induction calls as [|c calls IH] using rev_ind; [done|].
  rewrite foldl_snoc. destruct IH as (? & ? & ?).
  by apply call_logtime_kept.
Qed.

(** X19: an entry logged with [parentLogId] has its duration since the parent
    entry in [millis] if the parent was logged by the same [Log] object,
    whatever was logged in between, by this and by other objects.  The times
    are kept per object: on any other [Log] object, such as one made by
    [createChild], the same [parentLogId] gives [NaN]. *)
Theorem millis_since_parent calls1 calls2 i j level0 action0 data0 now0
    this level1 action1 rest now1 :
  let s1 := foldl call boot calls1 in
  let id0 := S (logId (globals s1)) in
  let s2 := foldl call (call s1 (LogCall i level0 action0 data0 now0))
              calls2 in
  (i < length (objects s1))%nat ->
  objects s2 !! j = Some this ->
  "parentLogId" ∉ rest.*1 ->
  let entry :=
    make_entry level1 action1
      (Some (("parentLogId", VNum (Z.of_nat id0)) :: rest)) now1 this
      (S (logId (globals s2))) in
  parentId entry = VNum (Z.of_nat id0)
  /\ millis entry = (if decide (i = j) then Some (now1 - now0) else None)
  /\ (forall id1,
        (log level1 action1
           (Some (("parentLogId", VNum (Z.of_nat id0)) :: rest)) now1 this
           (globals s2)).1.1 = Done id1 ->
        id1 = S (logId (globals s2))
        /\ broadcasts
             (log level1 action1
                (Some (("parentLogId", VNum (Z.of_nat id0)) :: rest)) now1
                this (globals s2)).2
           = broadcasts (globals s2) ++ [entry]).
Proof.
  intros s1 id0 s2 Hi Hj Hrest entry.
  pose proof (boot_logtime_keys calls1) as Hkeys. fold s1 in Hkeys.
  destruct (lookup_lt_is_Some_2 _ _ Hi) as [l0 Hl0].
  assert (forall j l, objects s2 !! j = Some l ->
            logtimeById l !! number_key (Z.of_nat id0)
            = if decide (i = j) then Some now0 else None) as Hkept.
  { assert (exists l' g',
      log level0 action0 data0 now0 l0 (globals s1)
      = ((log level0 action0 data0 now0 l0 (globals s1)).1.1, l', g')
      /\ logId g' = id0
      /\ logtimeById l'
         = <[number_key (Z.of_nat id0) := now0]> (logtimeById l0))
      as (l' & g' & Hlog & Hnext & Htimes).
    { destruct (log_fields level0 action0 data0 now0 l0 (globals s1))
        as (Hnext & _ & Htimes & _).
      destruct (log level0 action0 data0 now0 l0 (globals s1))
        as [[r l'] g'].
      by exists l', g'. }
    subst s2. apply calls_logtime_kept.
    - cbn [call]. rewrite Hl0, Hlog. cbn [globals]. by rewrite Hnext.
    - cbn [call]. rewrite Hl0, Hlog. cbn [objects].
      by rewrite length_insert.
    - cbn [call]. rewrite Hl0, Hlog. cbn [objects]. intros k l Hk.
      destruct (decide (i = k)) as [<-|Hne].
      + rewrite list_lookup_insert_eq in Hk by done.
        injection Hk as <-. rewrite Htimes. apply lookup_insert_eq.
      + rewrite list_lookup_insert_ne in Hk by done.
        destruct (logtimeById l !! number_key (Z.of_nat id0)) eqn:Hold;
          [|done].
        destruct (Hkeys k l _ Hk (mk_is_Some _ _ Hold)) as (n & Hn & Heq).
        unfold number_key in Heq. apply (inj pretty) in Heq.
        subst id0. lia. }
  destruct (make_entry_parent level1 action1 (VNum (Z.of_nat id0)) rest now1
              this (S (logId (globals s2))) Hrest) as [Hparent Hmillis].
  fold entry in Hparent, Hmillis.
  cbn [truthy property_key] in Hmillis.
  replace (Z.of_nat id0 =? 0) with false in Hmillis
    by (symmetry; apply Z.eqb_neq; subst id0; lia).
  cbn [negb] in Hmillis. rewrite (Hkept j this Hj) in Hmillis.
  assert (millis entry
          = (if decide (i = j) then Some (now1 - now0) else None))
    as Hmillis' by (rewrite Hmillis; by case_decide).
  split; [done|]. split; [done|].
  intros id1.
  destruct (log_shape level1 action1
              (Some (("parentLogId", VNum (Z.of_nat id0)) :: rest)) now1 this
              (globals s2)) as [(_ & _ & ->)|(_ & lines & _ & ->)];
    cbn; [done|].
  intros [= <-]. done.
Qed.

(** The data of the entry that [log] makes: the bound context under
    [context], and the properties of the data that [log] passes on. *)
Lemma make_entry_data level action data now this id kv :
  NoDup ((default [] data).*1) ->
  kv ∈ Logger.data (make_entry level action data now this id)
  <-> kv = ("context", VObject None (boundContext this))
      \/ (kv ∈ default [] data /\ kv.1 ∉ reserved_keys).
Proof.
  intros Hnd. unfold make_entry.
  pose proof (split_data_logData
                (set_property "context" (VObject None (boundContext this))
                   (default [] data))
                VUndefined (get_property "sessionId" (boundContext this))
                [] (set_property_NoDup _ _ _ Hnd)) as Hsplit.
  destruct (split_data _ _ _ _) as [[p sid] logData]. cbn [snd] in Hsplit.
  cbn [Logger.data]. rewrite Hsplit by (intros; apply not_elem_of_nil).
  cbn [app]. rewrite list_elem_of_filter, set_property_elem_of by done.
  unfold reserved_keys. rewrite !not_elem_of_cons. split.
  - intros [(Hp & Hs & Hproto) [->|[Hin Hc]]]; [by left|].
    right. split; [done|]. repeat split; try done. apply not_elem_of_nil.
  - intros [->|[Hin (Hc & Hp & Hs & Hproto & _)]].
    + split; [done|]. by left.
    + split; [done|]. right. done.
Qed.

(** X20: for data with distinct keys whose values are neither arrays nor
    objects nor functions: [log] always takes the next id.  The data of its
    entry is the bound context under [context] and the properties of the
    data that are not named [context], [parentLogId], [sessionId] or
    [__proto__].  When the
    entry is to be printed, its level being at least the level of the [Log]
    object, and that data cannot be printed (the property [error] is [null],
    or there is an [Error] on which the has-been-logged mark cannot be
    defined), [log] throws; whenever it throws, nothing is printed or
    broadcast.  An entry that is not to be printed never makes it throw.
    When [log] does not throw it returns the id and broadcasts the entry,
    printing one line if the level is high enough and none if not. *)
Theorem log_prints_by_level level action data now this g :
  NoDup ((default [] data).*1) ->
  Forall (fun kv => flat kv.2 = true) (default [] data) ->
  let printed := bool_decide (logLevels (log_level this) <= logLevels level) in
  let entry := make_entry level action data now this (S (logId g)) in
  let r := log level action data now this g in
  logId r.2 = S (logId g)
  /\ (forall kv,
        kv ∈ Logger.data entry
        <-> kv = ("context", VObject None (boundContext this))
            \/ (kv ∈ default [] data /\ kv.1 ∉ reserved_keys))
  /\ (printed = true -> unprintable (Logger.data entry) ->
      r.1.1 = ThrowsTypeError)
  /\ (printed = false -> r.1.1 <> ThrowsTypeError)
  /\ (r.1.1 = ThrowsTypeError ->
      console r.2 = console g /\ broadcasts r.2 = broadcasts g)
  /\ (r.1.1 <> ThrowsTypeError ->
      r.1.1 = Done (S (logId g))
      /\ broadcasts r.2 = broadcasts g ++ [entry]
      /\ length (console r.2)
         = (length (console g) + if printed then 1 else 0)%nat).
Proof.
  intros Hnd _ printed entry r.
  split; [|split; [intros kv; by apply make_entry_data|]].
  { apply log_fields. }
  pose proof (translate_entries_throws (Logger.data entry)
                (mkPrintable None [])) as Hthrows.
  subst r printed.
  destruct (log_shape level action data now this g)
    as [(Hprinted & Hnull & ->)|(Hfine & lines & Hlines & ->)];
    fold entry; cbn [fst snd logId console broadcasts].
  - apply Z.leb_le in Hprinted.
    rewrite (bool_decide_eq_true_2 _ Hprinted).
    split; [done|]. split; [done|]. split; done.
  - split; [|split; [done|split; [done|]]].
    + intros Hprinted Hbad. exfalso.
      apply bool_decide_eq_true, Z.leb_le in Hprinted.
      destruct Hfine as [Hnot|Hnot]; [congruence|].
      apply Hnot. by apply Hthrows.
    + intros _. split; [done|]. split; [done|].
      rewrite length_app, Hlines.
      destruct (logLevels (log_level this) <=? logLevels level) eqn:Hlevel.
      * apply Z.leb_le in Hlevel. by rewrite (bool_decide_eq_true_2 _ Hlevel).
      * apply Z.leb_gt in Hlevel.
        rewrite (bool_decide_eq_false_2 (logLevels _ <= _)) by lia. done.
Qed.

End LoggerFacts.

(** * Properties of SourceLoader *)

Section SourceLoaderFacts.

Import SourceLoader.

Context {CodeLocation : Type}.

Variable getCacheKey : string -> string.

Variable getOriginalSourcePosition : CodeLocation -> SourcePosition.

Variable trim : string -> string.

Variable URL : string -> option string.

Local Abbreviation getFileContents := (getFileContents getCacheKey trim URL).

Local Abbreviation setFileContents := (setFileContents getCacheKey).

Local Abbreviation getSource :=
  (getSource getCacheKey getOriginalSourcePosition trim URL).

Local Abbreviation apply :=
  (apply getCacheKey getOriginalSourcePosition trim URL).

(** ** The lines of a source *)

Lemma cache_set_sourceLines key data s :
  sourceLines (cache_set key data s) = sourceLines s.
Proof. unfold cache_set. repeat case_match; reflexivity. Qed.

Lemma getFileContents_sourceLines fs filepath cache s :
  sourceLines (getFileContents fs filepath cache s).2 = sourceLines s.
Proof.
  unfold SourceLoader.getFileContents. cbv zeta.
  repeat case_match; cbn [snd]; rewrite ?cache_set_sourceLines;
    reflexivity.
Qed.

Lemma getSource_cached fs loc s lines :
  sourceLines s !! source (getOriginalSourcePosition loc) = Some lines ->
  getSource fs (Some loc) s
  = (Done (Some (getOriginalSourcePosition loc,
                 line_at lines (line (getOriginalSourcePosition loc)))), s).
Proof.
  intros Hl. unfold SourceLoader.getSource. cbv zeta. by rewrite Hl.
Qed.

Lemma getSource_sourceLines fs codeLocation s src lines :
  sourceLines s !! src = Some lines ->
  sourceLines (getSource fs codeLocation s).2 !! src = Some lines.
Proof.
  intros Hl. unfold SourceLoader.getSource.
  destruct codeLocation as [loc|]; [|done]. cbv zeta.
  destruct (sourceLines s !! source (getOriginalSourcePosition loc))
    as [known|] eqn:Hknown; [done|].
  destruct (inherited (source (getOriginalSourcePosition loc))); [done|].
  destruct (filled (content (getOriginalSourcePosition loc))).
  - destruct (content (getOriginalSourcePosition loc)) as [text|]; [|done].
    case_bool_decide; [done|]. cbn [snd sourceLines].
    rewrite lookup_insert_ne; [done|]. congruence.
  - pose proof (getFileContents_sourceLines fs
                  (source (getOriginalSourcePosition loc)) true s) as Hsame.
    destruct (getFileContents fs (source (getOriginalSourcePosition loc))
                true s) as [[[[text|]|name]|] s1]; cbn [snd] in *;
      try congruence.
    case_bool_decide; cbn [snd sourceLines]; [congruence|].
    rewrite lookup_insert_ne; congruence.
Qed.

Lemma apply_sourceLines s op src lines :
  is_reset op = false ->
  sourceLines s !! src = Some lines ->
  sourceLines (apply s op) !! src = Some lines.
Proof.
  intros Hop Hl. destruct op as [|p|p d|fs p c|fs loc]; try done.
  - cbn [SourceLoader.apply]. unfold SourceLoader.setFileContents.
    by rewrite cache_set_sourceLines.
  - cbn [SourceLoader.apply]. by rewrite getFileContents_sourceLines.
  - by apply getSource_sourceLines.
Qed.

(** X21: once the lines of a source are loaded, they stay: whatever is set,
    cleared or read afterwards, short of [resetCache], [getSource] answers
    every location in that source from those lines, whatever the file or the
    source map holds by then, and reads no file. *)
Theorem source_lines_are_kept ops s fs loc lines :
  Forall (fun op => is_reset op = false) ops ->
  sourceLines s !! source (getOriginalSourcePosition loc) = Some lines ->
  getSource fs (Some loc) (foldl apply s ops)
  = (Done (Some (getOriginalSourcePosition loc,
                 line_at lines (line (getOriginalSourcePosition loc)))),
     foldl apply s ops).
Proof.
  intros Hops Hl. apply getSource_cached.
  induction ops as [|op ops IH] using rev_ind; [done|].
  apply Forall_app in Hops as [Hops Hop].
  apply (proj1 (Forall_singleton _ _)) in Hop.
  rewrite foldl_snoc. apply apply_sourceLines; [done|]. by apply IH.
Qed.

(** ** Splitting a text into lines *)

Lemma is_lf_LF : is_lf LF = true.
Proof. reflexivity. Qed.

Lemma is_cr_CR : is_cr CR = true.
Proof. reflexivity. Qed.

Lemma is_lf_CR : is_lf CR = false.
Proof. reflexivity. Qed.

Lemma split_lines_single l : no_lf l = true -> split_lines l = [l].
Proof.
  induction l as [|c l IH]; [done|]. cbn [no_lf].
  intros [Hc Hl]%andb_true_iff. apply negb_true_iff in Hc.
  cbn [split_lines]. rewrite Hc, (IH Hl).
  destruct l as [|c' l]; [done|].
  cbn [no_lf] in Hl. apply andb_true_iff in Hl as [Hc' _].
  apply negb_true_iff in Hc'. by rewrite Hc', andb_false_r.
Qed.

Lemma split_lines_lf l rest :
  no_lf l = true -> no_cr_at_end l = true ->
  split_lines (l +:+ String LF rest) = l :: split_lines rest.
Proof.
  induction l as [|c l IH]; [done|]. cbn [no_lf].
  intros [Hc Hl]%andb_true_iff Hend. apply negb_true_iff in Hc.
  change (String c l +:+ String LF rest)
    with (String c (l +:+ String LF rest)).
  cbn [split_lines]. rewrite Hc.
  destruct l as [|c' l].
  - cbn [no_cr_at_end] in Hend. apply negb_true_iff in Hend.
    change ("" +:+ String LF rest) with (String LF rest).
    rewrite Hend. cbn [andb]. cbn [split_lines].
    by rewrite is_lf_LF.
  - change (String c' l +:+ String LF rest)
      with (String c' (l +:+ String LF rest)) in *.
    cbn [no_lf] in Hl. pose proof Hl as Hl'.
    apply andb_true_iff in Hl' as [Hc' _]. apply negb_true_iff in Hc'.
    rewrite Hc', andb_false_r. by rewrite IH.
Qed.

Lemma split_lines_crlf l rest :
  no_lf l = true ->
  split_lines (l +:+ String CR (String LF rest)) = l :: split_lines rest.
Proof.
  induction l as [|c l IH].
  - intros _. change ("" +:+ String CR (String LF rest))
      with (String CR (String LF rest)).
    cbn [split_lines]. by rewrite ?is_lf_CR, is_cr_CR, is_lf_LF.
  - cbn [no_lf]. intros [Hc Hl]%andb_true_iff. apply negb_true_iff in Hc.
    change (String c l +:+ String CR (String LF rest))
      with (String c (l +:+ String CR (String LF rest))).
    cbn [split_lines]. rewrite Hc.
    destruct l as [|c' l].
    + change ("" +:+ String CR (String LF rest))
        with (String CR (String LF rest)) in *.
      cbv iota beta. rewrite is_lf_CR, andb_false_r, (IH Hl). done.
    + change (String c' l +:+ String CR (String LF rest))
        with (String c' (l +:+ String CR (String LF rest))) in *.
      cbn [no_lf] in Hl. pose proof Hl as Hl'.
      apply andb_true_iff in Hl' as [Hc' _]. apply negb_true_iff in Hc'.
      rewrite Hc', andb_false_r. by rewrite IH.
Qed.

Lemma split_join_lf lines :
  lines <> [] ->
  Forall (fun l => no_lf l = true /\ no_cr_at_end l = true) lines ->
  split_lines (join_lines (String LF "") lines) = lines.
Proof.
  intros Hne Hall. induction Hall as [|l lines [Hl Hend] Hall IH]; [done|].
  destruct lines as [|l' lines].
  - by apply split_lines_single.
  - change (join_lines (String LF "") (l :: l' :: lines))
      with (l +:+ String LF "" +:+ join_lines (String LF "") (l' :: lines)).
    change (String LF "" +:+ ?x) with (String LF x).
    rewrite split_lines_lf by done. by rewrite IH.
Qed.

Lemma split_join_crlf lines :
  lines <> [] ->
  Forall (fun l => no_lf l = true) lines ->
  split_lines (join_lines (String CR (String LF "")) lines) = lines.
Proof.
  intros Hne Hall. induction Hall as [|l lines Hl Hall IH]; [done|].
  destruct lines as [|l' lines].
  - by apply split_lines_single.
  - change (join_lines (String CR (String LF "")) (l :: l' :: lines))
      with (l +:+ String CR (String LF "")
            +:+ join_lines (String CR (String LF "")) (l' :: lines)).
    change (String CR (String LF "") +:+ ?x) with (String CR (String LF x)).
    rewrite split_lines_crlf by done. by rewrite IH.
Qed.

(** X22: for a source that is not loaded yet, whose name is not one that
    objects inherit from [Object.prototype], and whose text the source map
    holds, [getSource] returns line [line] of that text, counted from 1, and
    [undefined] beyond the last line; it reads no file.  The text may end
    its lines with a line feed, or with a carriage return and a line feed;
    in the first case no line ends with a carriage return of its own.  For
    a source whose name is inherited, [constructor] for instance, something
    is found in [sourceLines] although nothing was loaded: the code is
    [undefined] whatever the text holds, and nothing is loaded. *)
Theorem getSource_finds_line fs loc s lines crlf n :
  Forall (fun l => no_lf l = true) lines ->
  (crlf = false -> Forall (fun l => no_cr_at_end l = true) lines) ->
  let terminator := if crlf : bool then String CR (String LF "")
                    else String LF "" in
  let position := getOriginalSourcePosition loc in
  sourceLines s !! source position = None ->
  content position = Some (join_lines terminator lines) ->
  join_lines terminator lines <> "" ->
  line position = Z.of_nat n + 1 ->
  (inherited (source position) = false ->
   getSource fs (Some loc) s
   = (Done (Some (position, lines !! n)),
      mkState (<[source position := lines]> (sourceLines s))
        (fileContentsCache s) (cachePrototype s) (reads s)))
  /\ (inherited (source position) = true ->
      getSource fs (Some loc) s = (Done (Some (position, None)), s)).
Proof.
  intros Hlf Hcr terminator position Hnew Hcontent Hfilled Hline.
  assert (lines <> []) as Hne by (intros ->; by apply Hfilled).
  assert (split_lines (join_lines terminator lines) = lines) as Hsplit.
  { subst terminator. destruct crlf.
    - by apply split_join_crlf.
    - apply split_join_lf; [done|]. specialize (Hcr eq_refl).
      rewrite Forall_forall in *. intros l Hl. split; auto. }
  unfold SourceLoader.getSource. cbv zeta. fold position.
  rewrite Hnew, Hcontent. split; intros ->; [|done]. cbn [filled].
  rewrite (bool_decide_eq_false_2 _ Hfilled). cbn [negb].
  rewrite Hsplit. cbn [sourceLines]. rewrite lookup_insert_eq. cbn [default].
  unfold line_at. rewrite Hline.
  replace (Z.of_nat n + 1 - 1) with (Z.of_nat n) by lia.
  rewrite (proj2 (Z.leb_le 0 (Z.of_nat n))) by lia.
  by rewrite (bool_decide_eq_false_2 _ Hfilled), Nat2Z.id.
Qed.

(** ** The cache of file contents *)

Lemma cache_get_set key data s :
  key <> "__proto__" -> cache_get (cache_set key data s) key = Text data.
Proof.
  intros Hkey. unfold cache_set, cache_get.
  rewrite (bool_decide_eq_false_2 _ Hkey), andb_false_r. cbn.
  by rewrite lookup_insert_eq.
Qed.

(** Under a key where nothing truthy is found, an assignment sets the
    property. *)
Lemma cache_set_stores key data s :
  truthy (cache_get s key) = false ->
  cache_set key data s
  = mkState (sourceLines s) (<[key := data]> (fileContentsCache s))
      (cachePrototype s) (reads s).
Proof.
  unfold cache_get, cache_set. intros Hfalsy.
  destruct (fileContentsCache s !! key) as [own|] eqn:Hown.
  { rewrite (bool_decide_eq_false_2 (_ = None)) by done.
    by rewrite andb_false_r. }
  destruct (cachePrototype s); [|done]. cbn [andb] in *.
  case_bool_decide as Hkey; [|done]. subst key. done.
Qed.

(** X23: contents set with [setFileContents] are served from the cache, without
    a look at the file system, to every path with the same cache key, as
    long as they are not empty and the cache key is not [__proto__].
    [clearFileCache] takes the path itself as the key: for a path that is
    not its own cache key it clears nothing, and the contents are still
    served.  Under the cache key [__proto__] nothing is stored: the cache is
    as before, and what [getFileContents] returns is not the contents but
    the prototype of the cache object. *)
Theorem file_cache_hit fs filepath other data s :
  data <> "" ->
  getCacheKey other = getCacheKey filepath ->
  let s1 := setFileContents filepath (Some data) s in
  (getCacheKey filepath <> "__proto__" ->
   getFileContents fs other true s1 = (Done (Text (Some data)), s1)
   /\ (getCacheKey filepath <> filepath ->
       getFileContents fs other true (clearFileCache filepath s1)
       = (Done (Text (Some data)), clearFileCache filepath s1)))
  /\ (getCacheKey filepath = "__proto__" ->
      cachePrototype s = true ->
      fileContentsCache s !! "__proto__" = None ->
      s1 = s
      /\ getFileContents fs other true s1 = (Done (Inherited "__proto__"), s)).
Proof.
  intros Hdata Hkey s1. subst s1. split.
  - intros Hproto.
    unfold SourceLoader.getFileContents, SourceLoader.setFileContents.
    cbv zeta. rewrite Hkey. split.
    + rewrite cache_get_set by done. cbn [truthy filled].
      by rewrite (bool_decide_eq_false_2 _ Hdata).
    + intros Hne.
      assert (cache_get
                (clearFileCache filepath
                   (cache_set (getCacheKey filepath) (Some data) s))
                (getCacheKey filepath) = Text (Some data)) as ->.
      { unfold cache_get, clearFileCache, cache_set.
        rewrite (bool_decide_eq_false_2 _ Hproto), andb_false_r. cbn.
        rewrite lookup_delete_ne by done. by rewrite lookup_insert_eq. }
      cbn [truthy filled]. by rewrite (bool_decide_eq_false_2 _ Hdata).
  - intros Hproto Hp Hnone.
    unfold SourceLoader.getFileContents, SourceLoader.setFileContents.
    cbv zeta. rewrite Hkey, Hproto.
    assert (cache_set "__proto__" (Some data) s = s) as ->.
    { unfold cache_set. rewrite Hp, Hnone. done. }
    split; [done|]. unfold cache_get. rewrite Hnone, Hp. done.
Qed.

(** A call that finds nothing truthy in the cache reads the file and
    stores what it read. *)
Lemma getFileContents_miss fs filepath s :
  truthy (cache_get s (getCacheKey filepath)) = false ->
  is_file_url filepath = false ->
  getFileContents fs filepath true s
  = (Done (Text (fs (AtPath (trim filepath)))),
     mkState (sourceLines s)
       (<[getCacheKey filepath := fs (AtPath (trim filepath))]>
          (fileContentsCache s))
       (cachePrototype s) (reads s ++ [AtPath (trim filepath)])).
Proof.
  intros Hcache Hurl. unfold SourceLoader.getFileContents. cbv zeta.
  rewrite Hcache, Hurl. cbn [andb]. by rewrite cache_set_stores.
Qed.

(** X24: what the cache holds for a path is used only if it is truthy: when
    nothing, [null] or the empty string is found under the cache key, a
    file that cannot be read, or is empty, is looked up in the file system
    again by every call, although the result is put into the cache. *)
Theorem unreadable_file_is_read_again fs filepath s :
  truthy (cache_get s (getCacheKey filepath)) = false ->
  is_file_url filepath = false ->
  filled (fs (AtPath (trim filepath))) = false ->
  let first := getFileContents fs filepath true s in
  let second := getFileContents fs filepath true first.2 in
  first.1 = Done (Text (fs (AtPath (trim filepath))))
  /\ fileContentsCache first.2 !! getCacheKey filepath
     = Some (fs (AtPath (trim filepath)))
  /\ second.1 = Done (Text (fs (AtPath (trim filepath))))
  /\ reads second.2
     = reads s ++ [AtPath (trim filepath); AtPath (trim filepath)].
Proof.
  intros Hcache Hurl Hfile first second. subst second first.
  rewrite (getFileContents_miss fs filepath s Hcache Hurl). cbn [fst snd].
  rewrite getFileContents_miss; [|by unfold cache_get; cbn [fileContentsCache];
                                   rewrite lookup_insert_eq|done].
  cbn [fst snd fileContentsCache reads].
  rewrite lookup_insert_eq, <- app_assoc. done.
Qed.

End SourceLoaderFacts.

(** ** Examples *)

Lemma secrets_masked_three_levels_witness :
  Logger.masked 3
    (Logger.translateValueToPrintable (Logger.Name "user") LoggerSample.user
       0) = true.
Proof.
  apply (proj1 (secrets_masked_three_levels (Logger.Name "user"))).
  reflexivity.
Defined.

Lemma translateToPrintable_masks_witness :
  Logger.translateToPrintable LoggerSample.data None
  = Logger.Done LoggerSample.printed
  /\ Logger.masked 4
       (Logger.VObject None (Logger.printData LoggerSample.printed)) = true.
Proof.
  split; [reflexivity|].
  exact (proj1 (translateToPrintable_masks LoggerSample.data
                  LoggerSample.printed eq_refl eq_refl)).
Defined.

Lemma source_lines_are_kept_witness :
  (SourceLoaderSample.getSource SourceLoaderSample.other_files (Some 2%nat)
     (SourceLoader.setFileContents SourceLoaderSample.getCacheKey "a.ts"
        (Some "changed")
        (SourceLoader.clearFileCache "a.ts" SourceLoaderSample.loaded))).1
  = SourceLoader.Done
      (Some (SourceLoaderSample.getOriginalSourcePosition 2, Some "two")).
Proof.
  pose proof (source_lines_are_kept SourceLoaderSample.getCacheKey
                SourceLoaderSample.getOriginalSourcePosition
                SourceLoaderSample.trim SourceLoaderSample.URL
                [SourceLoader.ClearFileCache "a.ts";
                 SourceLoader.SetFileContents "a.ts" (Some "changed")]
                SourceLoaderSample.loaded SourceLoaderSample.other_files
                2%nat ["one"; "two"]) as Hkept.
  refine (f_equal fst (Hkept _ eq_refl)). repeat constructor.
Defined.

Lemma getSource_finds_line_witness :
  (SourceLoaderSample.getSource SourceLoaderSample.no_files (Some 2%nat)
     SourceLoaderSample.empty).1
  = SourceLoader.Done
      (Some (SourceLoaderSample.getOriginalSourcePosition 2, Some "two")).
Proof.
  destruct (getSource_finds_line SourceLoaderSample.getCacheKey
              SourceLoaderSample.getOriginalSourcePosition
              SourceLoaderSample.trim SourceLoaderSample.URL
              SourceLoaderSample.no_files 2%nat SourceLoaderSample.empty
              ["one"; "two"] false 1) as [Hline _].
  - repeat constructor.
  - intros _. repeat constructor.
  - reflexivity.
  - reflexivity.
  - discriminate.
  - reflexivity.
  - exact (f_equal fst (Hline eq_refl)).
Defined.

Lemma file_cache_hit_witness :
  (SourceLoaderSample.getFileContents SourceLoaderSample.other_files "a.ts"
     true
     (SourceLoader.clearFileCache "a.ts"
        (SourceLoaderSample.setFileContents "a.ts" (Some "text")
           SourceLoaderSample.empty))).1
  = SourceLoader.Done (SourceLoader.Text (Some "text")).
Proof.
  destruct (file_cache_hit SourceLoaderSample.getCacheKey
              SourceLoaderSample.trim SourceLoaderSample.URL
              SourceLoaderSample.other_files "a.ts" "a.ts" "text"
              SourceLoaderSample.empty) as [Hstored _];
    [discriminate | reflexivity |].
  destruct Hstored as [_ Hkept]; [discriminate|].
  unfold SourceLoaderSample.getFileContents,
    SourceLoaderSample.setFileContents.
  rewrite Hkept; [reflexivity | discriminate].
Defined.

Lemma unreadable_file_is_read_again_witness :
  SourceLoader.reads
    (SourceLoaderSample.getFileContents SourceLoaderSample.no_files "b.ts"
       true
       (SourceLoaderSample.getFileContents SourceLoaderSample.no_files "b.ts"
          true SourceLoaderSample.empty).2).2
  = [SourceLoader.AtPath "b.ts"; SourceLoader.AtPath "b.ts"].
Proof.
  destruct (unreadable_file_is_read_again SourceLoaderSample.getCacheKey
              SourceLoaderSample.trim SourceLoaderSample.URL
              SourceLoaderSample.no_files "b.ts" SourceLoaderSample.empty)
    as (_ & _ & _ & Hreads); [reflexivity | reflexivity | reflexivity |].
  exact Hreads.
Defined.

Lemma translateToPrintable_throws_witness :
  Logger.translateToPrintable LoggerSample.frozen None
  = Logger.ThrowsTypeError
  /\ exists r,
       Logger.translateToPrintable
         [("count", Logger.VNum 1);
          ("cause", Logger.VError "Error: boom" true)] None
       = Logger.Done r.
Proof.
  split.
  - apply (proj1 (translateToPrintable_throws LoggerSample.frozen None)).
    right. exists "cause", "Error: boom". apply list_elem_of_further.
    apply list_elem_of_here.
  - apply (proj2 (translateToPrintable_throws
                    [("count", Logger.VNum 1);
                     ("cause", Logger.VError "Error: boom" true)] None)).
    + repeat constructor.
    + intros [Hin|(key & text & Hin)];
        repeat (apply elem_of_cons in Hin as [Hin|Hin]; [discriminate Hin|]);
        by apply elem_of_nil in Hin.
Defined.

Lemma millis_since_parent_witness :
  Logger.millis
    (Logger.make_entry Logger.LInfo "done"
       (Some [("parentLogId", Logger.VNum 1)]) 1030 LogSample.parent 3)
  = Some 30
  /\ Logger.millis
       (Logger.make_entry Logger.LInfo "done"
          (Some [("parentLogId", Logger.VNum 1)]) 1030 LogSample.child 3)
     = None.
Proof.
  split.
  - destruct (millis_since_parent LogSample.setup LogSample.between 0 0
                Logger.LInfo "start" None 1000 LogSample.parent Logger.LInfo
                "done" [] 1030) as (_ & Hmillis & _);
      [cbn; lia | reflexivity | apply not_elem_of_nil |].
    exact Hmillis.
  - destruct (millis_since_parent LogSample.setup LogSample.between 0 1
                Logger.LInfo "start" None 1000 LogSample.child Logger.LInfo
                "done" [] 1030) as (_ & Hmillis & _);
      [cbn; lia | reflexivity | apply not_elem_of_nil |].
    exact Hmillis.
Defined.

Lemma log_prints_by_level_witness :
  (Logger.log Logger.LError "failed" (Some LoggerSample.frozen) 5
     LogSample.quiet (Logger.globals Logger.boot)).1.1
  = Logger.ThrowsTypeError
  /\ (Logger.log Logger.LWarn "failed" (Some LoggerSample.frozen) 5
        LogSample.quiet (Logger.globals Logger.boot)).1.1
     = Logger.Done 1%nat.
Proof.
  split.
  - destruct (log_prints_by_level Logger.LError "failed"
                (Some LoggerSample.frozen) 5 LogSample.quiet
                (Logger.globals Logger.boot))
      as (_ & Hdata & Hthrows & _);
      [compute_done | repeat constructor |].
    apply Hthrows; [reflexivity|].
    right. exists "cause", "Error: boom". apply Hdata. right.
    split; [apply list_elem_of_further, list_elem_of_here|].
    compute_done.
  - destruct (log_prints_by_level Logger.LWarn "failed"
                (Some LoggerSample.frozen) 5 LogSample.quiet
                (Logger.globals Logger.boot))
      as (_ & _ & _ & Hquiet & _ & Hreturns);
      [compute_done | repeat constructor |].
    apply Hreturns, Hquiet. reflexivity.
Defined.
